(** * Directory reconciliation against an external identity provider

    A shallow embedding of
      - [server/commands/userSyncer.ts]        (the reconciliation engine),
      - [plugins/oidc/server/keycloakAdmin.ts] (paginated listing of users,
        and the client request by request, with its token cache),
      - [plugins/oidc/server/tasks/SyncOIDCUsersTask.ts] (the hourly driver),
      - the presenter of the SMTP settings of the installation.

    The database is a record of tables.  The engine runs in a small monad
    that threads the tables and the report it mutates, and in which a write
    may throw; [try ... catch] and [sequelize.transaction] are combinators
    of that monad. *)

From Stdlib Require Import String Ascii List ZArith Lia Bool DecimalString DecimalNat.
From stdpp Require Import gmap strings list.

Local Open Scope string_scope.
Local Open Scope Z_scope.

(** ** JavaScript strings *)

Module Js.

(** Truthiness of a string: every string but the empty one. *)
Definition truthy (s : string) : bool := negb (String.eqb s "").

(** Truthiness of [string | null | undefined]. *)
Definition truthy_opt (o : option string) : bool :=
  match o with
  | Some s => truthy s
  | None => false
  end.

(** [a || b] on optional strings. *)
Definition or_else (a b : option string) : option string :=
  if truthy_opt a then a else b.

Definition lower_ascii (c : ascii) : ascii :=
  let n := nat_of_ascii c in
  if ((65 <=? n)%nat && (n <=? 90)%nat)%bool then ascii_of_nat (n + 32) else c.

(** [String.prototype.toLowerCase], on the ASCII letters. *)
Fixpoint toLowerCase (s : string) : string :=
  match s with
  | EmptyString => EmptyString
  | String c s' => String (lower_ascii c) (toLowerCase s')
  end.

(** A string of ASCII characters only.  On such strings [toLowerCase] above
    and [trim] below are those of JavaScript, which fold and trim all of
    Unicode. *)
Definition is_ascii (s : string) : bool :=
  forallb (fun c => (nat_of_ascii c <? 128)%nat) (list_ascii_of_string s).

(** [String.prototype.includes]. *)
Fixpoint includes (s sub : string) : bool :=
  (String.prefix sub s
   || match s with
      | EmptyString => false
      | String _ s' => includes s' sub
      end)%bool.

(** White space removed by [trim]: tab, line feed, vertical tab, form feed,
    carriage return and space. *)
Definition is_space (c : ascii) : bool :=
  let n := nat_of_ascii c in
  (((9 <=? n)%nat && (n <=? 13)%nat) || (n =? 32)%nat)%bool.

Fixpoint trimStart (s : string) : string :=
  match s with
  | EmptyString => EmptyString
  | String c s' => if is_space c then trimStart s' else s
  end.

Fixpoint trimEnd (s : string) : string :=
  match s with
  | EmptyString => EmptyString
  | String c s' =>
      let t := trimEnd s' in
      if (is_space c && String.eqb t "")%bool then EmptyString else String c t
  end.

(** [String.prototype.trim]. *)
Definition trim (s : string) : string := trimEnd (trimStart s).

(** A value interpolated in a template string; [null] prints as "null". *)
Definition show_opt (o : option string) : string :=
  match o with
  | Some s => s
  | None => "null"
  end.

Definition show_nat (n : nat) : string :=
  NilEmpty.string_of_uint (Nat.to_uint n).

End Js.

(** ** The directory: tables of the database *)

Inductive UserRole := Admin | Member | Viewer | Guest.

Inductive GroupPermission := GroupAdmin | GroupMember.

Record Team := {
  team_id : string;
  team_defaultUserRole : option UserRole
}.

Record AuthenticationProviderSettings := {
  syncDefaultGroupId : option string
}.

Record AuthenticationProvider := {
  ap_id : string;
  ap_name : string;
  ap_enabled : bool;
  ap_teamId : string;
  ap_settings : option AuthenticationProviderSettings
}.

Record User := {
  user_id : string;
  user_teamId : string;
  user_email : option string;
  user_name : string;
  user_avatarUrl : option string;
  user_role : UserRole;
  user_suspendedAt : option Z;
  user_suspendedById : option string;
  user_lastActiveAt : option Z
}.

Record UserAuthentication := {
  ua_id : string;
  ua_providerId : string;
  ua_authenticationProviderId : string;
  ua_userId : string;
  ua_scopes : list string
}.

Record Group := {
  group_id : string;
  group_teamId : string;
  group_name : string
}.

Record GroupUser := {
  gu_userId : string;
  gu_groupId : string;
  gu_permission : GroupPermission
}.

(** Rows are kept in insertion order; [idSupply] feeds the primary keys of
    created rows. *)
Record Store := {
  Teams : list Team;
  AuthenticationProviders : list AuthenticationProvider;
  Users : list User;
  UserAuthentications : list UserAuthentication;
  Groups : list Group;
  GroupUsers : list GroupUser;
  idSupply : nat
}.

Definition set_Users (st : Store) (us : list User) : Store :=
  {| Teams := Teams st;
     AuthenticationProviders := AuthenticationProviders st;
     Users := us;
     UserAuthentications := UserAuthentications st;
     Groups := Groups st;
     GroupUsers := GroupUsers st;
     idSupply := idSupply st |}.

Definition set_UserAuthentications (st : Store) (l : list UserAuthentication) : Store :=
  {| Teams := Teams st;
     AuthenticationProviders := AuthenticationProviders st;
     Users := Users st;
     UserAuthentications := l;
     Groups := Groups st;
     GroupUsers := GroupUsers st;
     idSupply := idSupply st |}.

Definition set_GroupUsers (st : Store) (l : list GroupUser) : Store :=
  {| Teams := Teams st;
     AuthenticationProviders := AuthenticationProviders st;
     Users := Users st;
     UserAuthentications := UserAuthentications st;
     Groups := Groups st;
     GroupUsers := l;
     idSupply := idSupply st |}.

Definition bump_idSupply (st : Store) : Store :=
  {| Teams := Teams st;
     AuthenticationProviders := AuthenticationProviders st;
     Users := Users st;
     UserAuthentications := UserAuthentications st;
     Groups := Groups st;
     GroupUsers := GroupUsers st;
     idSupply := S (idSupply st) |}.

(** The primary key handed to the next created row. *)
Definition nextId (st : Store) : string := "id-" ++ Js.show_nat (idSupply st).

(** The fields an [update] call assigns ([Partial<User>]); [None] leaves the
    column alone. *)
Record UserChanges := {
  ch_name : option string;
  ch_email : option string;
  ch_avatarUrl : option string;
  ch_suspendedAt : option (option Z);
  ch_suspendedById : option (option string)
}.

Definition no_changes : UserChanges :=
  {| ch_name := None; ch_email := None; ch_avatarUrl := None;
     ch_suspendedAt := None; ch_suspendedById := None |}.

Definition apply_changes (c : UserChanges) (u : User) : User :=
  {| user_id := user_id u;
     user_teamId := user_teamId u;
     user_email := match ch_email c with Some e => Some e | None => user_email u end;
     user_name := default (user_name u) (ch_name c);
     user_avatarUrl :=
       match ch_avatarUrl c with Some a => Some a | None => user_avatarUrl u end;
     user_role := user_role u;
     user_suspendedAt := default (user_suspendedAt u) (ch_suspendedAt c);
     user_suspendedById := default (user_suspendedById u) (ch_suspendedById c);
     user_lastActiveAt := user_lastActiveAt u |}.

(** [UPDATE users SET ... WHERE id = uid]. *)
Definition update_row (uid : string) (c : UserChanges) (us : list User) : list User :=
  map (fun u => if String.eqb (user_id u) uid then apply_changes c u else u) us.

(** *** Reads *)

Definition Team_findByPk (st : Store) (tid : string) : option Team :=
  find (fun t => String.eqb (team_id t) tid) (Teams st).

Definition AuthenticationProvider_findByPk (st : Store) (aid : string)
  : option AuthenticationProvider :=
  find (fun a => String.eqb (ap_id a) aid) (AuthenticationProviders st).

Definition Group_findOne_byId (st : Store) (gid tid : string) : option Group :=
  find (fun g => (String.eqb (group_id g) gid && String.eqb (group_teamId g) tid)%bool)
       (Groups st).

Definition Group_findOne_byName (st : Store) (tid gname : string) : option Group :=
  find (fun g => (String.eqb (group_teamId g) tid && String.eqb (group_name g) gname)%bool)
       (Groups st).

(** The joined user of an authentication row, constrained to the team. *)
Definition joined_user (st : Store) (tid : string) (a : UserAuthentication) : option User :=
  find (fun u => (String.eqb (user_id u) (ua_userId a)
                  && String.eqb (user_teamId u) tid)%bool) (Users st).

(** [UserAuthentication.findAll({ where: { authenticationProviderId },
    include: [{ model: User, as: "user", where: { teamId }, required: true }] })]:
    an inner join; every returned row carries its own copy of the user as it
    was when the query ran. *)
Definition UserAuthentication_findAll (st : Store) (aid tid : string)
  : list (UserAuthentication * option User) :=
  omap (fun a =>
          if String.eqb (ua_authenticationProviderId a) aid
          then match joined_user st tid a with
               | Some u => Some (a, Some u)
               | None => None
               end
          else None)
       (UserAuthentications st).

(** A byte that continues a character in UTF-8. *)
Definition is_continuation (c : ascii) : bool :=
  let n := nat_of_ascii c in
  ((128 <=? n)%nat && (n <? 192)%nat)%bool.

(** The text after the bytes that continue a character. *)
Fixpoint skip_continuation (text : string) : string :=
  match text with
  | EmptyString => EmptyString
  | String c text' => if is_continuation c then skip_continuation text' else text
  end.

(** The text starts at a character, not inside one. *)
Definition at_character (text : string) : bool :=
  match text with
  | EmptyString => true
  | String c _ => negb (is_continuation c)
  end.

(** The pieces of a pattern, each followed by what the rest of the pattern
    accepts: [%] skips any sequence of characters, [_] any one character, and
    a letter matches itself without regard to case (here the letters A to
    Z). *)
Fixpoint any_sequence (rest : string -> bool) (text : string) : bool :=
  ((at_character text && rest text)
   || match text with
      | EmptyString => false
      | String _ text' => any_sequence rest text'
      end)%bool.

Definition any_character (rest : string -> bool) (text : string) : bool :=
  match text with
  | EmptyString => false
  | String _ text' => rest (skip_continuation text')
  end.

Definition this_character (c : ascii) (rest : string -> bool) (text : string) : bool :=
  match text with
  | EmptyString => false
  | String t text' => (Ascii.eqb (Js.lower_ascii c) (Js.lower_ascii t) && rest text')%bool
  end.

(** The operator ILIKE of PostgreSQL, which [Op.iLike] stands for: the
    pattern has to match the whole text; [%] and [_] are wild cards and a
    backslash takes the character after it as it is.  The database refuses a
    pattern that ends in a lone backslash; here such a pattern matches
    nothing. *)
Fixpoint like (pattern : string) : string -> bool :=
  match pattern with
  | EmptyString =>
      fun text => match text with EmptyString => true | String _ _ => false end
  | String c pattern' =>
      if Ascii.eqb c "%" then any_sequence (like pattern')
      else if Ascii.eqb c "_" then any_character (like pattern')
      else if Ascii.eqb c "\" then
        match pattern' with
        | EmptyString => fun _ => false
        | String d pattern'' => this_character d (like pattern'')
        end
      else this_character c (like pattern')
  end.

(** A pattern without backslash. *)
Definition no_escape (pattern : string) : bool :=
  forallb (fun c => negb (Ascii.eqb c "\")) (list_ascii_of_string pattern).

(** [{ email: { [Op.iLike]: pattern } }] on a stored email; the comparison
    is evaluated by the database, which is not part of the sources.  A row
    without email matches nothing. *)
Definition iLike (stored : option string) (pattern : string) : bool :=
  match stored with
  | Some e => like pattern e
  | None => false
  end.

(** [User.findOne({ where: { teamId, email: { [Op.iLike]: email } } })]. *)
Definition User_findOne_iLike (st : Store) (tid email : string) : option User :=
  find (fun u => (String.eqb (user_teamId u) tid && iLike (user_email u) email)%bool)
       (Users st).

(** ** The engine's report and the data it is given *)

(** User data from an external identity provider ([SyncUser]). *)
Record SyncUser := {
  su_providerId : string;
  su_email : string;
  su_name : string;
  su_avatarUrl : option string
}.

Record UserSyncerResult := {
  created : nat;
  updated : nat;
  suspended : nat;
  unchanged : nat;
  reactivated : nat;
  addedToGroup : nat;
  errors : list string
}.

Record Props := {
  teamId : string;
  authenticationProviderId : string;
  users : list SyncUser;
  defaultGroupId : option string;
  defaultGroupName : option string
}.

Definition initial_result : UserSyncerResult :=
  {| created := 0; updated := 0; suspended := 0; unchanged := 0;
     reactivated := 0; addedToGroup := 0; errors := [] |}.

(** ** Computations over the store and the report *)

Inductive Outcome (A : Type) : Type :=
| Ok (a : A)
| Throw (message : string).
Arguments Ok {A} a.
Arguments Throw {A} message.

(** A computation reads and writes the tables and the report, and either
    returns a value or throws an [Error] with a message. *)
Definition M (A : Type) : Type :=
  Store -> UserSyncerResult -> Outcome A * Store * UserSyncerResult.

Definition ret {A : Type} (a : A) : M A := fun st r => (Ok a, st, r).

Definition bind {A B : Type} (m : M A) (k : A -> M B) : M B :=
  fun st r =>
    match m st r with
    | (Ok a, st', r') => k a st' r'
    | (Throw msg, st', r') => (Throw msg, st', r')
    end.

Declare Scope sync_scope.
Delimit Scope sync_scope with sync.
Notation "x <- m ;; k" := (bind m (fun x => k))
  (at level 100, m at next level, right associativity) : sync_scope.
Notation "m ;;; k" := (bind m (fun _ => k))
  (at level 100, right associativity) : sync_scope.
Local Open Scope sync_scope.

(** [try { m } catch (err) { handler(err.message) }]. *)
Definition try_catch {A : Type} (m : M A) (handler : string -> M A) : M A :=
  fun st r =>
    match m st r with
    | (Throw msg, st', r') => handler msg st' r'
    | ok => ok
    end.

(** [sequelize.transaction(async (transaction) => m)]: when [m] throws, the
    writes to the tables are rolled back and the error is thrown again; the
    report is an object in memory and keeps what was counted. *)
Definition transaction {A : Type} (m : M A) : M A :=
  fun st r =>
    match m st r with
    | (Throw msg, _, r') => (Throw msg, st, r')
    | ok => ok
    end.

Definition read {A : Type} (q : Store -> A) : M A := fun st r => (Ok (q st), st, r).

Fixpoint for_each {A : Type} (l : list A) (body : A -> M unit) : M unit :=
  match l with
  | [] => ret tt
  | x :: l' => body x ;;; for_each l' body
  end.

(** A [for ... of] loop that also updates a local variable of type [S]. *)
Fixpoint for_each_with {A S : Type} (l : list A) (s : S) (body : S -> A -> M S) : M S :=
  match l with
  | [] => ret s
  | x :: l' => s' <- body s x ;; for_each_with l' s' body
  end.

(** *** Updates of the report *)

Definition update_result (f : UserSyncerResult -> UserSyncerResult) : M unit :=
  fun st r => (Ok tt, st, f r).

(** [result.created++] and its siblings. *)
Definition incr_created : M unit :=
  update_result (fun r =>
    {| created := S (created r); updated := updated r; suspended := suspended r;
       unchanged := unchanged r; reactivated := reactivated r;
       addedToGroup := addedToGroup r; errors := errors r |}).

Definition incr_updated : M unit :=
  update_result (fun r =>
    {| created := created r; updated := S (updated r); suspended := suspended r;
       unchanged := unchanged r; reactivated := reactivated r;
       addedToGroup := addedToGroup r; errors := errors r |}).

Definition incr_suspended : M unit :=
  update_result (fun r =>
    {| created := created r; updated := updated r; suspended := S (suspended r);
       unchanged := unchanged r; reactivated := reactivated r;
       addedToGroup := addedToGroup r; errors := errors r |}).

Definition incr_unchanged : M unit :=
  update_result (fun r =>
    {| created := created r; updated := updated r; suspended := suspended r;
       unchanged := S (unchanged r); reactivated := reactivated r;
       addedToGroup := addedToGroup r; errors := errors r |}).

Definition incr_reactivated : M unit :=
  update_result (fun r =>
    {| created := created r; updated := updated r; suspended := suspended r;
       unchanged := unchanged r; reactivated := S (reactivated r);
       addedToGroup := addedToGroup r; errors := errors r |}).

Definition incr_addedToGroup : M unit :=
  update_result (fun r =>
    {| created := created r; updated := updated r; suspended := suspended r;
       unchanged := unchanged r; reactivated := reactivated r;
       addedToGroup := S (addedToGroup r); errors := errors r |}).

(** [result.errors.push(msg)]. *)
Definition push_error (msg : string) : M unit :=
  update_result (fun r =>
    {| created := created r; updated := updated r; suspended := suspended r;
       unchanged := unchanged r; reactivated := reactivated r;
       addedToGroup := addedToGroup r; errors := errors r ++ [msg] |}).

(** *** Writes *)

Inductive WriteOp :=
| UserUpdate (uid : string) (changes : UserChanges)
| UserCreate (row : User)
| UserAuthenticationCreate (row : UserAuthentication)
| GroupUserCreate (row : GroupUser).

(** A database decides for every write, in the state it is in, whether it
    goes through or is refused with an error message (a violated constraint,
    a lost connection). *)
Definition Fault := Store -> WriteOp -> option string.

(** The database that refuses nothing. *)
Definition no_fault : Fault := fun _ _ => None.

Definition opt_string_eqb (a b : option string) : bool :=
  match a, b with
  | Some x, Some y => String.eqb x y
  | None, None => true
  | _, _ => false
  end.

Definition is_some {A : Type} (o : option A) : bool :=
  match o with
  | Some _ => true
  | None => false
  end.

(** [Object.keys(updates).length > 0]. *)
Definition has_keys (c : UserChanges) : bool :=
  (is_some (ch_name c) || is_some (ch_email c) || is_some (ch_avatarUrl c)
   || is_some (ch_suspendedAt c) || is_some (ch_suspendedById c))%bool.

(** The [updates] object that [updateUserIfNeeded] builds. *)
Definition updates_for (user : User) (providerUser : SyncUser) : UserChanges :=
  {| ch_name :=
       if (Js.truthy (su_name providerUser)
           && negb (String.eqb (user_name user) (su_name providerUser)))%bool
       then Some (su_name providerUser) else None;
     ch_email :=
       if (Js.truthy (su_email providerUser)
           && negb (opt_string_eqb (Js.toLowerCase <$> user_email user)
                                   (Some (Js.toLowerCase (su_email providerUser)))))%bool
       then Some (su_email providerUser) else None;
     ch_avatarUrl :=
       match su_avatarUrl providerUser with
       | Some a =>
           if (Js.truthy a && negb (opt_string_eqb (user_avatarUrl user) (Some a)))%bool
           then
             if (negb (Js.truthy_opt (user_avatarUrl user))
                 || Js.includes (default "" (user_avatarUrl user)) "keycloak")%bool
             then Some a else None
           else None
       | None => None
       end;
     ch_suspendedAt := None;
     ch_suspendedById := None |}.

(** [{ suspendedAt: null, suspendedById: null }]. *)
Definition reactivation : UserChanges :=
  {| ch_name := None; ch_email := None; ch_avatarUrl := None;
     ch_suspendedAt := Some None; ch_suspendedById := Some None |}.

(** [{ suspendedAt: new Date() }]. *)
Definition suspension (now : Z) : UserChanges :=
  {| ch_name := None; ch_email := None; ch_avatarUrl := None;
     ch_suspendedAt := Some (Some now); ch_suspendedById := None |}.

(** [providerUsersMap]: the last entry of the snapshot with a given
    [providerId] is the one the map keeps. *)
Definition providerUsersMap_of (l : list SyncUser) : gmap string SyncUser :=
  foldl (fun m u => <[su_providerId u := u]> m) ∅ l.

(** [providerUsersByEmail]: built by the engine and never read afterwards. *)
Definition providerUsersByEmail_of (l : list SyncUser) : gmap string SyncUser :=
  foldl (fun m u =>
           if Js.truthy (su_email u) then <[Js.toLowerCase (su_email u) := u]> m else m)
        ∅ l.

(** The default group: by id first, then by name. *)
Definition find_defaultGroup (st : Store) (tid : string)
    (gid gname : option string) : option Group :=
  match gid with
  | Some g =>
      if Js.truthy g then Group_findOne_byId st g tid
      else match gname with
           | Some n => if Js.truthy n then Group_findOne_byName st tid n else None
           | None => None
           end
  | None =>
      match gname with
      | Some n => if Js.truthy n then Group_findOne_byName st tid n else None
      | None => None
      end
  end.

Section Engine.

(** The database's refusals, and the clock read by [new Date()]. *)
Variable fault : Fault.
Variable now : Z.

Definition write (op : WriteOp) (effect : Store -> Store) : M unit :=
  fun st r =>
    match fault st op with
    | Some msg => (Throw msg, st, r)
    | None => (Ok tt, effect st, r)
    end.

(** [user.update(changes)]. *)
Definition User_update (uid : string) (c : UserChanges) : M unit :=
  write (UserUpdate uid c) (fun st => set_Users st (update_row uid c (Users st))).

(** [User.create(...)]: the row gets a fresh primary key and is returned. *)
Definition User_create (mk : string -> User) : M User :=
  fun st r =>
    let row := mk (nextId st) in
    match fault st (UserCreate row) with
    | Some msg => (Throw msg, st, r)
    | None => (Ok row, bump_idSupply (set_Users st (Users st ++ [row])), r)
    end.

(** [UserAuthentication.create(...)]. *)
Definition UserAuthentication_create (mk : string -> UserAuthentication) : M unit :=
  fun st r =>
    let row := mk (nextId st) in
    match fault st (UserAuthenticationCreate row) with
    | Some msg => (Throw msg, st, r)
    | None =>
        (Ok tt,
         bump_idSupply
           (set_UserAuthentications st (UserAuthentications st ++ [row])), r)
    end.

(** [GroupUser.create(...)]. *)
Definition GroupUser_create (row : GroupUser) : M unit :=
  write (GroupUserCreate row) (fun st => set_GroupUsers st (GroupUsers st ++ [row])).

(** Updates a user's details if they have changed; returns [true] if the
    user was updated. *)
Definition updateUserIfNeeded (user : User) (providerUser : SyncUser) : M bool :=
  let updates := updates_for user providerUser in
  if has_keys updates then
    User_update (user_id user) updates ;;;
    incr_updated ;;;
    ret true
  else
    incr_unchanged ;;;
    ret false.

(** Phase 1, the user is in both systems.  [user.update(updates)] assigns the
    new values to the instance before it saves them, so the message of the
    handler names the email of the updates when they hold one. *)
Definition phase1_match (user : User) (providerUser : SyncUser) : M unit :=
  try_catch
    (was_updated <- updateUserIfNeeded user providerUser ;;
     if (is_some (user_suspendedAt user) && negb was_updated)%bool then
       User_update (user_id user) reactivation ;;;
       incr_reactivated
     else if is_some (user_suspendedAt user) then
       User_update (user_id user) reactivation ;;;
       incr_reactivated
     else ret tt)
    (fun msg =>
       push_error ("Failed to update user "
                   ++ Js.show_opt
                        (user_email
                           (apply_changes (updates_for user providerUser) user))
                   ++ ": " ++ msg)).

(** Phase 1, the user is in the directory but not in the provider. *)
Definition phase1_orphan (user : User) : M unit :=
  if negb (is_some (user_suspendedAt user)) then
    try_catch
      (User_update (user_id user) (suspension now) ;;;
       incr_suspended)
      (fun msg =>
         push_error ("Failed to suspend user " ++ Js.show_opt (user_email user)
                     ++ ": " ++ msg))
  else incr_unchanged.

(** The body of the loop over [existingAuths]; [processed] is
    [processedProviderIds]. *)
Definition phase1_body (providerUsersMap : gmap string SyncUser)
    (processed : gset string) (row : UserAuthentication * option User)
  : M (gset string) :=
  let (auth, joined) := row in
  match joined with
  | None => ret processed
  | Some user =>
      let providerUser := providerUsersMap !! ua_providerId auth in
      let processed' := processed ∪ {[ ua_providerId auth ]} in
      match providerUser with
      | Some pu => phase1_match user pu ;;; ret processed'
      | None => phase1_orphan user ;;; ret processed'
      end
  end.

(** Phase 2, a user with that email exists: link it to the provider. *)
Definition phase2_link (aid : string) (existingUser : User) (providerUser : SyncUser)
  : M unit :=
  transaction
    (UserAuthentication_create
       (fun key => {| ua_id := key;
                      ua_providerId := su_providerId providerUser;
                      ua_authenticationProviderId := aid;
                      ua_userId := user_id existingUser;
                      ua_scopes := [] |}) ;;;
     was_updated <- updateUserIfNeeded existingUser providerUser ;;
     if is_some (user_suspendedAt existingUser) then
       User_update (user_id existingUser) reactivation ;;;
       incr_reactivated
     else if negb was_updated then incr_unchanged
     else ret tt).

(** Phase 2, no user with that email: create one. *)
Definition phase2_create (team : Team) (tid aid : string)
    (defaultGroup : option Group) (providerUser : SyncUser) : M unit :=
  transaction
    (user <- User_create
               (fun key => {| user_id := key;
                              user_teamId := tid;
                              user_email := Some (su_email providerUser);
                              user_name := su_name providerUser;
                              user_avatarUrl :=
                                if Js.truthy_opt (su_avatarUrl providerUser)
                                then su_avatarUrl providerUser else None;
                              user_role := default Member (team_defaultUserRole team);
                              user_suspendedAt := None;
                              user_suspendedById := None;
                              user_lastActiveAt := None |}) ;;
     UserAuthentication_create
       (fun key => {| ua_id := key;
                      ua_providerId := su_providerId providerUser;
                      ua_authenticationProviderId := aid;
                      ua_userId := user_id user;
                      ua_scopes := [] |}) ;;;
     incr_created ;;;
     match defaultGroup with
     | Some g =>
         GroupUser_create {| gu_userId := user_id user;
                             gu_groupId := group_id g;
                             gu_permission := GroupMember |} ;;;
         incr_addedToGroup
     | None => ret tt
     end).

(** The body of the loop over the snapshot. *)
Definition phase2_body (team : Team) (tid aid : string)
    (defaultGroup : option Group) (processed : gset string)
    (providerUser : SyncUser) : M unit :=
  if decide (su_providerId providerUser ∈ processed) then ret tt
  else if negb (Js.truthy (su_email providerUser)) then
    push_error ("Skipping user " ++ su_providerId providerUser ++ ": no email address")
  else
    try_catch
      (existingUser <- read (fun st => User_findOne_iLike st tid
                                         (su_email providerUser)) ;;
       match existingUser with
       | Some u => phase2_link aid u providerUser
       | None => phase2_create team tid aid defaultGroup providerUser
       end)
      (fun msg =>
         push_error ("Failed to create user " ++ su_email providerUser
                     ++ ": " ++ msg)).

(** Phase 1: the loop over the existing authentications; it returns
    [processedProviderIds]. *)
Definition phase1 (providerUsersMap : gmap string SyncUser)
    (existingAuths : list (UserAuthentication * option User)) : M (gset string) :=
  for_each_with existingAuths ∅ (phase1_body providerUsersMap).

(** Phase 2: the loop over the snapshot. *)
Definition phase2 (team : Team) (tid aid : string) (defaultGroup : option Group)
    (processed : gset string) (snapshot : list SyncUser) : M unit :=
  for_each snapshot (phase2_body team tid aid defaultGroup processed).

(** The engine, on the report it starts from. *)
Definition userSyncer_body (props : Props) : M unit :=
  if (length (users props) =? 0)%nat then
    push_error
      "Provider returned empty user list - sync aborted to prevent mass suspension"
  else
    team <- read (fun st => Team_findByPk st (teamId props)) ;;
    match team with
    | None => push_error ("Team " ++ teamId props ++ " not found")
    | Some team =>
        authProvider <- read (fun st => AuthenticationProvider_findByPk st
                                          (authenticationProviderId props)) ;;
        match authProvider with
        | None =>
            push_error ("Authentication provider " ++ authenticationProviderId props
                        ++ " not found")
        | Some _ =>
            defaultGroup <- read (fun st => find_defaultGroup st (teamId props)
                                   (defaultGroupId props) (defaultGroupName props)) ;;
            let providerUsersMap := providerUsersMap_of (users props) in
            existingAuths <- read (fun st => UserAuthentication_findAll st
                                    (authenticationProviderId props) (teamId props)) ;;
            processedProviderIds <- phase1 providerUsersMap existingAuths ;;
            phase2 team (teamId props) (authenticationProviderId props)
              defaultGroup processedProviderIds (users props)
        end
    end.

(** [userSyncer(ctx, props)]: the report, or the error the call is rejected
    with, and the tables it leaves. *)
Definition userSyncer (props : Props) (st : Store) : Outcome UserSyncerResult * Store :=
  match userSyncer_body props st initial_result with
  | (Ok _, st', r) => (Ok r, st')
  | (Throw msg, st', _) => (Throw msg, st')
  end.

End Engine.

(** ** The Keycloak admin client *)

(** A user as the Keycloak Admin API returns it. *)
Record KeycloakUser := {
  kc_id : string;
  kc_username : string;
  kc_email : option string;
  kc_firstName : option string;
  kc_lastName : option string;
  kc_enabled : bool
}.

(** What the admin API answers to the two requests the client sends:
    [GET users?first=..&max=..&enabled=..] and [GET users/count]; a refused
    token, a failed connection or a non-2xx answer is a thrown error. *)
Record KeycloakAdminClient := {
  getUsers : Z -> Z -> option bool -> Outcome (list KeycloakUser);
  getUserCount : option bool -> Outcome Z
}.

(** The [while (true)] loop of [getAllUsers]; [None] when the given number
    of iterations does not reach a [break]. *)
Fixpoint getAllUsers_loop (fuel : nat) (client : KeycloakAdminClient)
    (batchSize : Z) (enabled : option bool) (first : Z)
    (allUsers : list KeycloakUser) : option (Outcome (list KeycloakUser)) :=
  match fuel with
  | O => None
  | S fuel' =>
      match getUsers client first batchSize enabled with
      | Throw msg => Some (Throw msg)
      | Ok page =>
          let allUsers := (allUsers ++ page)%list in
          if Z.of_nat (length page) <? batchSize then Some (Ok allUsers)
          else
            let first := first + batchSize in
            if first >? 100000 then Some (Ok allUsers)
            else getAllUsers_loop fuel' client batchSize enabled first allUsers
      end
  end.

(** Fetches all users from Keycloak, handling pagination. *)
Definition getAllUsers (fuel : nat) (client : KeycloakAdminClient)
    (batchSize : Z) (enabled : option bool) : option (Outcome (list KeycloakUser)) :=
  getAllUsers_loop fuel client batchSize enabled 0 [].

(** Checks if the admin API is accessible; never throws. *)
Definition testConnection (client : KeycloakAdminClient) : bool :=
  match getUserCount client None with
  | Ok _ => true
  | Throw _ => false
  end.

(** ** The scheduled task *)

(** Builds a display name from Keycloak user data. *)
Definition buildUserName (user : KeycloakUser) : string :=
  if (Js.truthy_opt (kc_firstName user) && Js.truthy_opt (kc_lastName user))%bool then
    Js.trim (default "" (kc_firstName user) ++ " " ++ default "" (kc_lastName user))
  else if Js.truthy_opt (kc_firstName user) then default "" (kc_firstName user)
  else if Js.truthy_opt (kc_lastName user) then default "" (kc_lastName user)
  else
    default "Unknown User"
      (Js.or_else (Some (kc_username user))
         (Js.or_else (kc_email user) (Some "Unknown User"))).

(** [keycloakUsers.filter((u) => u.email).map(...)]. *)
Definition toSyncUsers (keycloakUsers : list KeycloakUser) : list SyncUser :=
  map (fun u => {| su_providerId := kc_id u;
                   su_email := default "" (kc_email u);
                   su_name := buildUserName u;
                   su_avatarUrl := None |})
      (filter (fun u => Js.truthy_opt (kc_email u) = true) keycloakUsers).

Record Env := {
  OIDC_SYNC_ENABLED : bool;
  OIDC_SYNC_ADMIN_URL : option string;
  OIDC_SYNC_REALM : option string;
  OIDC_SYNC_CLIENT_ID : option string;
  OIDC_SYNC_CLIENT_SECRET : option string;
  OIDC_CLIENT_ID : option string;
  OIDC_CLIENT_SECRET : option string
}.

(** [new KeycloakAdminClient()] throws unless credentials, admin URL and realm
    are configured. *)
Definition client_constructible (env : Env) : bool :=
  (Js.truthy_opt (Js.or_else (OIDC_SYNC_CLIENT_ID env) (OIDC_CLIENT_ID env))
   && Js.truthy_opt (Js.or_else (OIDC_SYNC_CLIENT_SECRET env) (OIDC_CLIENT_SECRET env))
   && Js.truthy_opt (OIDC_SYNC_ADMIN_URL env)
   && Js.truthy_opt (OIDC_SYNC_REALM env))%bool.

Section Task.

Variable fault : Fault.
Variable now : Z.
Variable env : Env.
Variable client : KeycloakAdminClient.

(** Modelled from the spec: [getPartitionWhereClause] belongs to the
    scheduler's base class, which is not part of the sources; the
    bindings of this replica's partition window are those whose id the
    partition accepts. *)
Variable partition : string -> bool.

(** The call the task makes for one binding. *)
Definition sync_props (authProvider : AuthenticationProvider)
    (syncUsers : list SyncUser) : Props :=
  {| teamId := ap_teamId authProvider;
     authenticationProviderId := ap_id authProvider;
     users := syncUsers;
     defaultGroupId := None;
     defaultGroupName := None |}.

(** The loop over the bindings; every call's outcome is logged under the
    team's id, and a rejected call does not stop the loop. *)
Fixpoint sync_bindings (authProviders : list AuthenticationProvider)
    (syncUsers : list SyncUser) (st : Store)
  : Store * list (string * Outcome UserSyncerResult) :=
  match authProviders with
  | [] => (st, [])
  | authProvider :: rest =>
      let (result, st') := userSyncer fault now (sync_props authProvider syncUsers) st in
      let (st'', log) := sync_bindings rest syncUsers st' in
      (st'', (ap_teamId authProvider, result) :: log)
  end.

(** [SyncOIDCUsersTask.perform]: the tables it leaves and the reports it
    logs; [None] when listing the users does not finish within [fuel]
    requests. *)
Definition perform (fuel : nat) (st : Store)
  : option (Store * list (string * Outcome UserSyncerResult)) :=
  if negb (OIDC_SYNC_ENABLED env) then Some (st, [])
  else if (negb (Js.truthy_opt (OIDC_SYNC_ADMIN_URL env))
           || negb (Js.truthy_opt (OIDC_SYNC_REALM env)))%bool then Some (st, [])
  else
    let authProviders :=
      filter (fun a => (String.eqb (ap_name a) "oidc" && ap_enabled a
                        && partition (ap_id a))%bool = true)
             (AuthenticationProviders st) in
    if (length authProviders =? 0)%nat then Some (st, [])
    else if negb (client_constructible env) then Some (st, [])
    else if negb (testConnection client) then Some (st, [])
    else
      match getAllUsers fuel client 100 (Some true) with
      | None => None
      | Some (Throw _) => Some (st, [])
      | Some (Ok keycloakUsers) =>
          if (length keycloakUsers =? 0)%nat then Some (st, [])
          else Some (sync_bindings authProviders (toSyncUsers keycloakUsers) st)
      end.

End Task.

(** ** The client of the Keycloak Admin REST API, request by request *)

Module KeycloakAdmin.

(** The errors the client throws: the two kinds it makes itself, and what
    [fetch] or [response.json()] rejects with, which it passes on. *)
Inductive Error :=
| InvalidRequestError (message : string)
| AuthenticationError (message : string)
| Rejection (message : string).

Inductive Result (A : Type) :=
| Return (a : A)
| Raise (e : Error).

Arguments Return {A} a.
Arguments Raise {A} e.

(** Token response from the Keycloak token endpoint. *)
Record TokenResponse := {
  access_token : string;
  expires_in : Z
}.

(** What the client looks at in a response of [fetch]; [text] and [json] may
    reject. *)
Record Response (T : Type) := {
  ok : bool;
  status : Z;
  text : Outcome string;
  json : Outcome T
}.

Arguments ok {T} _.
Arguments status {T} _.
Arguments text {T} _.
Arguments json {T} _.

(** A request as the client sends it. *)
Record Request := {
  url : string;
  method : string;
  authorization : option string;
  body : list (string * string)
}.

(** What is outside the client: the answers to a token request and to a
    request to the admin API, given the requests sent before, and the clock,
    given the number of times it was read before. *)
Record World (T : Type) := {
  token_endpoint : list Request -> Request -> Outcome (Response TokenResponse);
  admin_api : list Request -> Request -> Outcome (Response T);
  Date_now : nat -> Z
}.

Arguments token_endpoint {T} _ _ _.
Arguments admin_api {T} _ _ _.
Arguments Date_now {T} _ _.

(** A [Date]: its time value in milliseconds since the epoch, or none for an
    invalid date. *)
Definition Date := option Z.

(** [new Date(value)], for an integer: the date is invalid when the value is
    more than 8.64e15 milliseconds away from the epoch. *)
Definition new_Date (value : Z) : Date :=
  if Z.abs value <=? 8640000000000000 then Some value else None.

(** [a > b] on dates: the time values are compared, and an invalid date is
    neither later nor earlier than any other. *)
Definition later (a b : Date) : bool :=
  match a, b with
  | Some x, Some y => y <? x
  | _, _ => false
  end.

(** The fields of the client. *)
Record Client := {
  adminUrl : string;
  realm : string;
  clientId : string;
  clientSecret : string;
  accessToken : option string;
  tokenExpiresAt : option Date
}.

(** The client, the requests sent so far and the number of times the clock
    was read. *)
Record State := {
  this : Client;
  sent : list Request;
  clock_reads : nat
}.

Definition set_token (c : Client) (token : option string) (expiresAt : option Date)
  : Client :=
  {| adminUrl := adminUrl c; realm := realm c; clientId := clientId c;
     clientSecret := clientSecret c; accessToken := token;
     tokenExpiresAt := expiresAt |}.

(** [String(n)] of an integer. *)
Definition show_Z (n : Z) : string := NilZero.string_of_int (Z.to_int n).

(** [String(b)] of a boolean. *)
Definition show_bool (b : bool) : string := if b then "true" else "false".

(** [new KeycloakAdminClient()]. *)
Definition constructor (env : Env) : Outcome Client :=
  let clientId :=
    default "" (Js.or_else (Js.or_else (OIDC_SYNC_CLIENT_ID env) (OIDC_CLIENT_ID env))
                  (Some "")) in
  let clientSecret :=
    default "" (Js.or_else (Js.or_else (OIDC_SYNC_CLIENT_SECRET env)
                              (OIDC_CLIENT_SECRET env)) (Some "")) in
  let adminUrl := default "" (Js.or_else (OIDC_SYNC_ADMIN_URL env) (Some "")) in
  let realm := default "" (Js.or_else (OIDC_SYNC_REALM env) (Some "")) in
  if (negb (Js.truthy clientId) || negb (Js.truthy clientSecret))%bool then
    Throw "OIDC client credentials are required for Keycloak Admin API access"
  else if (negb (Js.truthy adminUrl) || negb (Js.truthy realm))%bool then
    Throw "OIDC_SYNC_ADMIN_URL and OIDC_SYNC_REALM are required for user sync"
  else
    Ok {| adminUrl := adminUrl; realm := realm; clientId := clientId;
          clientSecret := clientSecret; accessToken := None;
          tokenExpiresAt := None |}.

Definition tokenEndpoint (c : Client) : string :=
  adminUrl c ++ "/realms/" ++ realm c ++ "/protocol/openid-connect/token".

Definition usersEndpoint (c : Client) : string :=
  adminUrl c ++ "/admin/realms/" ++ realm c ++ "/users".

Definition userCountEndpoint (c : Client) : string :=
  adminUrl c ++ "/admin/realms/" ++ realm c ++ "/users/count".

(** The request for a token, by the client credentials grant. *)
Definition token_request (c : Client) : Request :=
  {| url := tokenEndpoint c; method := "POST"; authorization := None;
     body := [("client_id", clientId c); ("client_secret", clientSecret c);
              ("grant_type", "client_credentials")] |}.

(** The request to the admin API, with the token as bearer. *)
Definition api_request (endpoint token : string) : Request :=
  {| url := endpoint; method := "GET"; authorization := Some ("Bearer " ++ token);
     body := [] |}.

(** [response.text().catch(() => "Unknown error")]. *)
Definition errorText {T : Type} (response : Response T) : string :=
  match text response with
  | Ok t => t
  | Throw _ => "Unknown error"
  end.

Section Requests.

Context {T : Type}.
Variable world : World T.

(** Obtains an admin access token using the client credentials grant; caches
    the token and refreshes it when expired. *)
Definition getAdminToken (s : State) : Result string * State :=
  let fetch_token (s : State) : Result string * State :=
    let request := token_request (this s) in
    let s1 := {| this := this s; sent := (sent s ++ [request])%list;
                 clock_reads := clock_reads s |} in
    match token_endpoint world (sent s) request with
    | Throw msg =>
        (Raise (InvalidRequestError ("Failed to connect to Keycloak: " ++ msg)), s1)
    | Ok response =>
        if negb (ok response) then
          (Raise (AuthenticationError
                    ("Failed to obtain Keycloak admin token: "
                     ++ show_Z (status response) ++ " " ++ errorText response)), s1)
        else
          match json response with
          | Throw msg => (Raise (Rejection msg), s1)
          | Ok data =>
              (Return (access_token data),
               {| this := set_token (this s) (Some (access_token data))
                            (Some (new_Date (Date_now world (clock_reads s)
                                             + expires_in data * 1000)));
                  sent := sent s1;
                  clock_reads := S (clock_reads s) |})
          end
    end in
  match accessToken (this s), tokenExpiresAt (this s) with
  | Some token, Some expiresAt =>
      if Js.truthy token then
        let s0 := {| this := this s; sent := sent s;
                     clock_reads := S (clock_reads s) |} in
        if later expiresAt (new_Date (Date_now world (clock_reads s) + 60000))
        then (Return token, s0)
        else fetch_token s0
      else fetch_token s
  | _, _ => fetch_token s
  end.

(** Makes an authenticated request to the admin API. *)
Definition adminRequest (endpoint : string) (s : State) : Result T * State :=
  match getAdminToken s with
  | (Raise e, s1) => (Raise e, s1)
  | (Return token, s1) =>
      let request := api_request endpoint token in
      let s2 := {| this := this s1; sent := (sent s1 ++ [request])%list;
                   clock_reads := clock_reads s1 |} in
      match admin_api world (sent s1) request with
      | Throw msg => (Raise (Rejection msg), s2)
      | Ok response =>
          if negb (ok response) then
            if ((status response =? 401) || (status response =? 403))%bool then
              (Raise (AuthenticationError
                        ("Keycloak Admin API authentication failed: "
                         ++ errorText response)),
               {| this := set_token (this s2) None None; sent := sent s2;
                  clock_reads := clock_reads s2 |})
            else
              (Raise (InvalidRequestError
                        ("Keycloak Admin API request failed: "
                         ++ show_Z (status response) ++ " " ++ errorText response)),
               s2)
          else
            match json response with
            | Throw msg => (Raise (Rejection msg), s2)
            | Ok data => (Return data, s2)
            end
      end
  end.

(** The query string of [getUsers]: [first], [max] and, when given,
    [enabled]. *)
Definition users_query (first max : Z) (enabled : option bool) : string :=
  "first=" ++ show_Z first ++ "&max=" ++ show_Z max
  ++ match enabled with
     | Some b => "&enabled=" ++ show_bool b
     | None => ""
     end.

(** Fetches users from Keycloak with pagination support. *)
Definition getUsers (first max : Z) (enabled : option bool) (s : State)
  : Result T * State :=
  adminRequest (usersEndpoint (this s) ++ "?" ++ users_query first max enabled) s.

(** Gets the total count of users in Keycloak. *)
Definition getUserCount (enabled : option bool) (s : State) : Result T * State :=
  let queryString :=
    match enabled with
    | Some b => "enabled=" ++ show_bool b
    | None => ""
    end in
  let endpoint :=
    if Js.truthy queryString then userCountEndpoint (this s) ++ "?" ++ queryString
    else userCountEndpoint (this s) in
  adminRequest endpoint s.

(** Checks if the admin API is accessible and properly configured. *)
Definition testConnection (s : State) : bool * State :=
  match getUserCount None s with
  | (Return _, s') => (true, s')
  | (Raise _, s') => (false, s')
  end.

End Requests.

End KeycloakAdmin.

(** ** The SMTP settings of the installation, as presented by the API *)

(** The row of [installation_settings]. *)
Record InstallationSettings := {
  smtpHost : option string;
  smtpService : option string;
  smtpPort : option Z;
  smtpUsername : option string;
  smtpPassword : option string;
  smtpFromEmail : option string;
  smtpReplyEmail : option string;
  smtpName : option string;
  smtpSecure : option bool;
  smtpDisableStarttls : option bool;
  smtpTlsCiphers : option string;
  instanceAdminEmail : option string
}.

(** True if SMTP host or service is configured. *)
Definition isSmtpConfigured (settings : InstallationSettings) : bool :=
  (Js.truthy_opt (smtpHost settings) || Js.truthy_opt (smtpService settings))%bool.

(** The object the presenter returns. *)
Record PresentedSettings := {
  presented_smtpHost : option string;
  presented_smtpService : option string;
  presented_smtpPort : option Z;
  presented_smtpUsername : option string;
  presented_smtpPassword : option string;
  presented_smtpFromEmail : option string;
  presented_smtpReplyEmail : option string;
  presented_smtpName : option string;
  presented_smtpSecure : option bool;
  presented_smtpDisableStarttls : option bool;
  presented_smtpTlsCiphers : option string;
  isConfigured : bool;
  isUsingDatabaseConfig : bool;
  isUsingEnvConfig : bool;
  presented_instanceAdminEmail : option string
}.

(** Present SMTP configuration settings for the API response; [SMTP_HOST] and
    [SMTP_SERVICE] are the variables of the environment. *)
Definition presentInstallationSettings (SMTP_HOST SMTP_SERVICE : option string)
    (settings : option InstallationSettings) : PresentedSettings :=
  let hasDbConfig :=
    match settings with
    | Some s => isSmtpConfigured s
    | None => false
    end in
  let hasEnvConfig := Js.truthy_opt (Js.or_else SMTP_HOST SMTP_SERVICE) in
  {| presented_smtpHost := settings ≫= smtpHost;
     presented_smtpService := settings ≫= smtpService;
     presented_smtpPort := settings ≫= smtpPort;
     presented_smtpUsername := settings ≫= smtpUsername;
     presented_smtpPassword :=
       if Js.truthy_opt (settings ≫= smtpPassword) then Some "••••••••" else None;
     presented_smtpFromEmail := settings ≫= smtpFromEmail;
     presented_smtpReplyEmail := settings ≫= smtpReplyEmail;
     presented_smtpName := settings ≫= smtpName;
     presented_smtpSecure := settings ≫= smtpSecure;
     presented_smtpDisableStarttls := settings ≫= smtpDisableStarttls;
     presented_smtpTlsCiphers := settings ≫= smtpTlsCiphers;
     isConfigured := (hasDbConfig || hasEnvConfig)%bool;
     isUsingDatabaseConfig := hasDbConfig;
     isUsingEnvConfig := (negb hasDbConfig && hasEnvConfig)%bool;
     presented_instanceAdminEmail := settings ≫= instanceAdminEmail |}.

(** The settings with another password. *)
Definition with_password (settings : InstallationSettings) (password : option string)
  : InstallationSettings :=
  {| smtpHost := smtpHost settings; smtpService := smtpService settings;
     smtpPort := smtpPort settings; smtpUsername := smtpUsername settings;
     smtpPassword := password; smtpFromEmail := smtpFromEmail settings;
     smtpReplyEmail := smtpReplyEmail settings; smtpName := smtpName settings;
     smtpSecure := smtpSecure settings;
     smtpDisableStarttls := smtpDisableStarttls settings;
     smtpTlsCiphers := smtpTlsCiphers settings;
     instanceAdminEmail := instanceAdminEmail settings |}.

(** ** Concrete directories and snapshots *)

Module Scenario.

Definition T : Team := {| team_id := "T"; team_defaultUserRole := None |}.

Definition P : AuthenticationProvider :=
  {| ap_id := "P"; ap_name := "oidc"; ap_enabled := true; ap_teamId := "T";
     ap_settings := Some {| syncDefaultGroupId := Some "G" |} |}.

Definition G : Group := {| group_id := "G"; group_teamId := "T"; group_name := "Staff" |}.

Definition user (key email name : string) (suspendedAt : option Z) : User :=
  {| user_id := key; user_teamId := "T"; user_email := Some email;
     user_name := name; user_avatarUrl := None; user_role := Member;
     user_suspendedAt := suspendedAt; user_suspendedById := None;
     user_lastActiveAt := None |}.

Definition auth (key providerId userId : string) : UserAuthentication :=
  {| ua_id := key; ua_providerId := providerId;
     ua_authenticationProviderId := "P"; ua_userId := userId; ua_scopes := [] |}.

Definition directory (us : list User) (auths : list UserAuthentication) : Store :=
  {| Teams := [T]; AuthenticationProviders := [P]; Users := us;
     UserAuthentications := auths; Groups := [G]; GroupUsers := [];
     idSupply := 0 |}.

Definition entry (providerId email name : string) : SyncUser :=
  {| su_providerId := providerId; su_email := email; su_name := name;
     su_avatarUrl := None |}.

Definition props (snapshot : list SyncUser) : Props :=
  {| teamId := "T"; authenticationProviderId := "P"; users := snapshot;
     defaultGroupId := None; defaultGroupName := None |}.

(** One call of the engine on a database that refuses nothing, at time 1000. *)
Definition reconcile (snapshot : list SyncUser) (st : Store)
  : Outcome UserSyncerResult * Store :=
  userSyncer no_fault 1000 (props snapshot) st.

(** A user linked under the provider id "kc-old", and the snapshot after
    the provider re-created the account under "kc-new". *)
Definition relinked_directory : Store :=
  directory [user "u" "ann@example.com" "Ann" None] [auth "a" "kc-old" "u"].
Definition relinked_snapshot : list SyncUser :=
  [entry "kc-new" "ann@example.com" "Ann"].

(** An invited user, without authentication, whom the provider lists with
    the same name and email. *)
Definition invited_directory : Store :=
  directory [user "i" "invited@example.com" "Invited" None] [].
Definition invited_snapshot : list SyncUser :=
  [entry "g1" "invited@example.com" "Invited"].

(** A linked user whose email the provider spells in capitals. *)
Definition case_directory : Store :=
  directory [user "u" "test@example.com" "Test" None] [auth "a" "g1" "u"].
Definition case_snapshot : list SyncUser :=
  [entry "g1" "TEST@EXAMPLE.COM" "Test"].

(** A snapshot that lists one provider id twice. *)
Definition repeated_snapshot : list SyncUser :=
  [entry "g1" "a@example.com" "A"; entry "g1" "b@example.com" "B"].

(** An admin API in which every page is full: page [first] holds [max]
    users, whatever [first] is. *)
Definition kc_user (n : nat) : KeycloakUser :=
  {| kc_id := "kc-" ++ Js.show_nat n; kc_username := "user";
     kc_email := Some "user@example.com"; kc_firstName := None;
     kc_lastName := None; kc_enabled := true |}.

Definition full_pages : KeycloakAdminClient :=
  {| getUsers := fun first max _ => Ok (repeat (kc_user 0) (Z.to_nat max));
     getUserCount := fun _ => Ok 1000000 |}.

(** An admin API with two users, the first of which has no email. *)
Definition two_users : KeycloakAdminClient :=
  {| getUsers := fun first max _ =>
       if first =? 0 then
         Ok [ {| kc_id := "k1"; kc_username := "bob"; kc_email := None;
                 kc_firstName := Some "Bob"; kc_lastName := None;
                 kc_enabled := true |};
              {| kc_id := "k2"; kc_username := "eve";
                 kc_email := Some "eve@example.com";
                 kc_firstName := Some "Eve"; kc_lastName := Some "Moneypenny";
                 kc_enabled := true |} ]
       else Ok [];
     getUserCount := fun _ => Ok 2 |}.

Definition env : Env :=
  {| OIDC_SYNC_ENABLED := true;
     OIDC_SYNC_ADMIN_URL := Some "https://kc.example.com";
     OIDC_SYNC_REALM := Some "main";
     OIDC_SYNC_CLIENT_ID := None;
     OIDC_SYNC_CLIENT_SECRET := None;
     OIDC_CLIENT_ID := Some "outline";
     OIDC_CLIENT_SECRET := Some "secret" |}.

(** A database that refuses every new authentication row. *)
Definition refuse_authentications : Fault :=
  fun _ op =>
    match op with
    | UserAuthenticationCreate _ => Some "duplicate key"
    | _ => None
    end.

End Scenario.

(** ** Properties of the engine *)

(** The key under which an authentication row must be unique. *)
Definition auth_key (a : UserAuthentication) : string * string :=
  (ua_authenticationProviderId a, ua_providerId a).

(** The stored email of the user with a given id. *)
Definition stored_email (st : Store) (uid : string) : option string :=
  match find (fun u => String.eqb (user_id u) uid) (Users st) with
  | Some u => user_email u
  | None => None
  end.


(** [m] keeps an invariant [Inv] of the tables and an invariant [Rep] of the
    report, whether it returns or throws. *)
Definition keeps {A : Type} (Inv : Store -> Prop) (Rep : UserSyncerResult -> Prop)
    (m : M A) : Prop :=
  forall st r, Inv st -> Rep r -> Inv (m st r).1.2 /\ Rep (m st r).2.

(** [m] always returns: it never throws. *)
Definition returns {A : Type} (m : M A) : Prop :=
  forall st r, exists a st' r', m st r = (Ok a, st', r').

(** The invariants carried through the engine. *)

Definition same_memberships (memberships : list GroupUser) (st : Store) : Prop :=
  GroupUsers st = memberships.

Definition nobody_added (r : UserSyncerResult) : Prop := addedToGroup r = 0%nat.


Definition any_report (r : UserSyncerResult) : Prop := True.

Definition same_emails (ids : list string) (emails : list (option string))
    (st : Store) : Prop :=
  map user_id (Users st) = ids /\ map user_email (Users st) = emails.

Definition same_created (count : nat) (r : UserSyncerResult) : Prop :=
  created r = count.

(** ** Further notions used to state properties *)

(** The columns of a user the engine never assigns. *)
Definition user_static (u : User) : string * string * UserRole * option Z :=
  (user_id u, user_teamId u, user_role u, user_lastActiveAt u).

(** [st'] extends [st0]: the tables the engine only reads are the same, and
    the others hold the rows of [st0], in place, followed by new ones; of a
    user row only the columns an update may assign can differ. *)
Definition extends (st0 st' : Store) : Prop :=
  Teams st' = Teams st0
  /\ AuthenticationProviders st' = AuthenticationProviders st0
  /\ Groups st' = Groups st0
  /\ UserAuthentications st0 `prefix_of` UserAuthentications st'
  /\ map user_static (Users st0) `prefix_of` map user_static (Users st')
  /\ GroupUsers st0 `prefix_of` GroupUsers st'.

(** The entries of the report that tell what happened to somebody. *)
Definition accounted (r : UserSyncerResult) : nat :=
  (created r + updated r + suspended r + unchanged r + reactivated r
   + length (errors r))%nat.

(** The report with some counters moved. *)
Definition add_counts (r : UserSyncerResult)
    (dcreated dupdated dsuspended dunchanged dreactivated dadded : nat)
  : UserSyncerResult :=
  {| created := created r + dcreated; updated := updated r + dupdated;
     suspended := suspended r + dsuspended; unchanged := unchanged r + dunchanged;
     reactivated := reactivated r + dreactivated;
     addedToGroup := addedToGroup r + dadded; errors := errors r |}.

(** The report with one more error. *)
Definition add_error (r : UserSyncerResult) (msg : string) : UserSyncerResult :=
  {| created := created r; updated := updated r; suspended := suspended r;
     unchanged := unchanged r; reactivated := reactivated r;
     addedToGroup := addedToGroup r; errors := errors r ++ [msg] |}.

(** The report still holds the errors [errs], in place. *)
Definition keeps_errors (errs : list string) (r : UserSyncerResult) : Prop :=
  errs `prefix_of` errors r.

(** The tables are those of [st0]. *)
Definition untouched (st0 st : Store) : Prop := st = st0.

(** The emails of the users of the team [tid] are in ASCII. *)
Definition ascii_emails (tid : string) (st : Store) : Prop :=
  forall u e, In u (Users st) -> user_teamId u = tid -> user_email u = Some e ->
              Js.is_ascii e = true.

(** The primary keys of the users are unique, and the keys the database has
    yet to give out are not in use. *)
Definition wf_keys (st : Store) : Prop :=
  NoDup (map user_id (Users st))
  /\ forall n : nat, (idSupply st <= n)%nat ->
       ~ In ("id-" ++ Js.show_nat n) (map user_id (Users st)).

(** The users outside the team [tid]. *)
Definition users_outside (tid : string) (st : Store) : list User :=
  filter (fun u => user_teamId u <> tid) (Users st).

(** The tables have well-formed keys and hold, outside the team [tid], the
    users [others]. *)
Definition isolated (tid : string) (others : list User) (st : Store) : Prop :=
  wf_keys st /\ users_outside tid st = others.

(** An avatar the engine takes for the user's own: there is one, and its
    address does not contain "keycloak". *)
Definition own_avatar (avatarUrl : option string) : bool :=
  match avatarUrl with
  | Some a => (Js.truthy a && negb (Js.includes a "keycloak"))%bool
  | None => false
  end.

(** An update that leaves the avatars of the users of [st0] who have their
    own. *)
Definition spares_avatars (st0 : Store) (uid : string) (c : UserChanges) : Prop :=
  ch_avatarUrl c = None
  \/ forall u, In u (Users st0) -> own_avatar (user_avatarUrl u) = true -> user_id u <> uid.

(** The keys are well formed, and every user of [st0] with an avatar of
    their own is there with it. *)
Definition avatars_kept (st0 st : Store) : Prop :=
  wf_keys st
  /\ forall u, In u (Users st0) -> own_avatar (user_avatarUrl u) = true ->
       exists u', In u' (Users st) /\ user_id u' = user_id u
                  /\ user_avatarUrl u' = user_avatarUrl u.

(** What [getAllUsers] makes of the pages it was sent: every page but the
    last is full and leaves the next offset within the safety limit; the last
    one is short, or the offset after it is beyond the limit. *)
Definition paged (client : KeycloakAdminClient) (batchSize : Z)
    (enabled : option bool) (first : Z) (pages : list (list KeycloakUser)) : Prop :=
  pages <> []
  /\ forall (i : nat) (page : list KeycloakUser),
       pages !! i = Some page ->
       getUsers client (first + Z.of_nat i * batchSize) batchSize enabled = Ok page
       /\ ((S i < length pages)%nat ->
           batchSize <= Z.of_nat (length page)
           /\ first + Z.of_nat (S i) * batchSize <= 100000)
       /\ (S i = length pages ->
           Z.of_nat (length page) < batchSize
           \/ 100000 < first + Z.of_nat (S i) * batchSize).

(** The users of the team [tid]. *)
Definition users_of (tid : string) (st : Store) : list User :=
  filter (fun u => user_teamId u = tid) (Users st).

(** The bindings the scheduled task selects: [authProviders]. *)
Definition selected (partition : string -> bool) (st : Store)
  : list AuthenticationProvider :=
  filter (fun a => (String.eqb (ap_name a) "oidc" && ap_enabled a
                    && partition (ap_id a))%bool = true)
         (AuthenticationProviders st).

(** The report of a call that was given no users. *)
Definition aborted_report : UserSyncerResult :=
  add_error initial_result
    "Provider returned empty user list - sync aborted to prevent mass suspension".

(** A string made only of the white space of ASCII: tab, line feed,
    vertical tab, form feed, carriage return and space. *)
Definition blank (s : string) : bool :=
  forallb Js.is_space (list_ascii_of_string s).

(** A string with a visible character of ASCII, from "!" to "~". *)
Definition has_visible (s : string) : bool :=
  existsb (fun c => ((33 <=? nat_of_ascii c)%nat && (nat_of_ascii c <=? 126)%nat)%bool)
          (list_ascii_of_string s).

(** The email [e] of the user [uid] of the team [tid] is kept: the table of
    users is made of the rows it started with, under the keys [ids0], with
    that user among them, followed by created rows, none of which has an email
    equal to [e] up to case. *)
Definition kept_email (ids0 : list string) (uid tid e : string) (st : Store) : Prop :=
  wf_keys st
  /\ exists old new,
       Users st = (old ++ new)%list
       /\ map user_id old = ids0
       /\ (exists u, In u old /\ user_id u = uid /\ user_teamId u = tid
                     /\ user_email u = Some e)
       /\ Forall (fun v => Js.toLowerCase <$> user_email v <> Some (Js.toLowerCase e)) new.

(** An update that spares the email [e] of the user [uid]: it leaves the
    email of that user, and gives no created row an email equal to [e] up to
    case. *)
Definition spares_email (ids0 : list string) (uid e : string) (uid' : string)
    (c : UserChanges) : Prop :=
  (uid' = uid -> ch_email c = None)
  /\ (In uid' ids0
      \/ forall e2, ch_email c = Some e2 -> Js.toLowerCase e2 <> Js.toLowerCase e).

(** The keys are well formed and the user [u] is in the table, suspended at
    [now]; or, unless [sure], as [u] is. *)
Definition suspended_or_not (now : Z) (u : User) (sure : bool) (st : Store) : Prop :=
  wf_keys st
  /\ (In (apply_changes (suspension now) u) (Users st)
      \/ (sure = false /\ In u (Users st))).

(** The authentication rows of the provider [aid]. *)
Definition same_provider_rows (aid : string) (rows : list UserAuthentication)
    (st : Store) : Prop :=
  filter (fun a => ua_authenticationProviderId a = aid) (UserAuthentications st) = rows.

(** *** The index of the snapshot by provider id *)

Lemma providerUsersMap_acc_Some (l : list SyncUser) (m : gmap string SyncUser)
    (p : string) (pu : SyncUser) :
  foldl (fun m u => <[su_providerId u := u]> m) m l !! p = Some pu ->
  (In pu l /\ su_providerId pu = p) \/ m !! p = Some pu.
Proof.
  revert m. induction l as [| u l IH]; intros m H; simpl in *.
  - right. exact H.
  - apply IH in H as [[Hin Hp] | H].
    + left. split; [right; exact Hin | exact Hp].
    + destruct (decide (su_providerId u = p)) as [E | E].
      * rewrite <- E, lookup_insert_eq in H. injection H as <-.
        left. split; [left; reflexivity | exact E].
      * rewrite lookup_insert_ne in H by exact E. right. exact H.
Qed.

Lemma providerUsersMap_acc_mono (l : list SyncUser) (m : gmap string SyncUser)
    (p : string) :
  is_Some (m !! p) ->
  is_Some (foldl (fun m u => <[su_providerId u := u]> m) m l !! p).
Proof.
  revert m. induction l as [| u l IH]; intros m H; simpl.
  - exact H.
  - apply IH. destruct (decide (su_providerId u = p)) as [E | E].
    + rewrite <- E, lookup_insert_eq. eauto.
    + rewrite lookup_insert_ne by exact E. exact H.
Qed.

Lemma providerUsersMap_acc_In (l : list SyncUser) (m : gmap string SyncUser)
    (pu0 : SyncUser) :
  In pu0 l ->
  is_Some (foldl (fun m u => <[su_providerId u := u]> m) m l !! su_providerId pu0).
Proof.
  revert m. induction l as [| u l IH]; intros m Hin; simpl in *.
  - contradiction.
  - destruct Hin as [-> | Hin].
    + apply providerUsersMap_acc_mono. rewrite lookup_insert_eq. eauto.
    + apply IH. exact Hin.
Qed.

(** An entry found in the index is an entry of the snapshot with that id. *)
Lemma providerUsersMap_of_Some (l : list SyncUser) (p : string) (pu : SyncUser) :
  providerUsersMap_of l !! p = Some pu -> In pu l /\ su_providerId pu = p.
Proof.
  intros H. apply providerUsersMap_acc_Some in H as [H | H]; [exact H |].
  rewrite lookup_empty in H. discriminate.
Qed.

(** The index knows the provider id of every entry of the snapshot. *)
Lemma providerUsersMap_of_In (l : list SyncUser) (pu0 : SyncUser) :
  In pu0 l ->
  exists pu, providerUsersMap_of l !! su_providerId pu0 = Some pu
             /\ In pu l /\ su_providerId pu = su_providerId pu0.
Proof.
  intros Hin. destruct (providerUsersMap_acc_In l ∅ pu0 Hin) as [pu Hpu].
  exists pu. split; [exact Hpu |]. apply providerUsersMap_of_Some. exact Hpu.
Qed.

(** *** Updates of a row *)

Lemma update_row_ids (uid : string) (c : UserChanges) (us : list User) :
  map user_id (update_row uid c us) = map user_id us.
Proof.
  unfold update_row. rewrite map_map. apply map_ext. intros u.
  destruct (String.eqb _ _); reflexivity.
Qed.

Lemma update_row_emails (uid : string) (c : UserChanges) (us : list User) :
  ch_email c = None -> map user_email (update_row uid c us) = map user_email us.
Proof.
  intros Hc. unfold update_row. rewrite map_map. apply map_ext. intros u.
  destruct (String.eqb _ _); [| reflexivity]. simpl. rewrite Hc. reflexivity.
Qed.

Lemma update_row_In (uid : string) (c : UserChanges) (us : list User) (u : User) :
  In u (update_row uid c us) -> user_id u = uid ->
  exists u0, In u0 us /\ user_id u0 = uid /\ u = apply_changes c u0.
Proof.
  unfold update_row. rewrite in_map_iff. intros [u0 [E Hin]] Hid.
  destruct (String.eqb_spec (user_id u0) uid) as [E0 | E0].
  - eauto.
  - subst u. contradiction.
Qed.

Lemma stored_email_ext (st st' : Store) :
  map user_id (Users st') = map user_id (Users st) ->
  map user_email (Users st') = map user_email (Users st) ->
  forall uid, stored_email st' uid = stored_email st uid.
Proof.
  unfold stored_email. generalize (Users st) (Users st'). clear st st'.
  induction l as [| u l IH]; intros [| u' l'] Hid He uid; simpl in *; try discriminate.
  - reflexivity.
  - injection Hid as Hid Hids. injection He as He Hes. rewrite Hid.
    destruct (String.eqb (user_id u) uid); [exact He | apply IH; assumption].
Qed.

(** The lookup by email hits as soon as one user of the team matches. *)
Lemma User_findOne_iLike_hit (st : Store) (tid email : string) (u : User) :
  In u (Users st) -> user_teamId u = tid -> iLike (user_email u) email = true ->
  exists u0, User_findOne_iLike st tid email = Some u0
             /\ iLike (user_email u0) email = true.
Proof.
  intros Hin Ht Hl. unfold User_findOne_iLike.
  destruct (find _ (Users st)) as [u0 |] eqn:E.
  - exists u0. split; [reflexivity |]. apply find_some in E as [_ E].
    apply andb_true_iff in E as [_ E]. exact E.
  - exfalso. pose proof (find_none _ _ E u Hin) as H. simpl in H.
    rewrite Ht, String.eqb_refl, Hl in H. discriminate.
Qed.

(** An email equal up to case is not among the updates. *)
Lemma same_lower_no_email_change (u : User) (pu : SyncUser) (e : string) :
  user_email u = Some e -> Js.toLowerCase e = Js.toLowerCase (su_email pu) ->
  ch_email (updates_for u pu) = None.
Proof.
  intros He Hl. unfold updates_for. simpl. rewrite He. simpl. rewrite Hl.
  rewrite String.eqb_refl, andb_false_r. reflexivity.
Qed.

Lemma truthy_opt_Some (o : option string) :
  Js.truthy_opt o = true <-> exists e, o = Some e /\ e <> "".
Proof.
  unfold Js.truthy_opt, Js.truthy. split.
  - destruct o as [e |]; [| discriminate]. intros H. exists e. split; [reflexivity |].
    intros ->. discriminate.
  - intros [e [-> Hne]]. destruct (String.eqb_spec e ""); [contradiction | reflexivity].
Qed.

(** *** Rules for invariants *)

Section Keeps.

Context {Inv : Store -> Prop} {Rep : UserSyncerResult -> Prop}.

Lemma keeps_ret {A : Type} (a : A) : keeps Inv Rep (ret a).
Proof. intros st r HI HJ. split; assumption. Qed.

Lemma keeps_read {A : Type} (q : Store -> A) : keeps Inv Rep (read q).
Proof. intros st r HI HJ. split; assumption. Qed.

Lemma keeps_bind {A B : Type} (m : M A) (k : A -> M B) :
  keeps Inv Rep m -> (forall a, keeps Inv Rep (k a)) -> keeps Inv Rep (bind m k).
Proof.
  intros Hm Hk st r HI HJ. unfold bind.
  specialize (Hm st r HI HJ). destruct (m st r) as [[[a | msg] st'] r']; simpl in *.
  - apply Hk; tauto.
  - exact Hm.
Qed.

Lemma keeps_bind_read {A B : Type} (q : Store -> A) (k : A -> M B) :
  (forall st, keeps Inv Rep (k (q st))) -> keeps Inv Rep (bind (read q) k).
Proof. intros Hk st r HI HJ. unfold bind, read. apply Hk; assumption. Qed.

Lemma keeps_try_catch {A : Type} (m : M A) (h : string -> M A) :
  keeps Inv Rep m -> (forall msg, keeps Inv Rep (h msg)) -> keeps Inv Rep (try_catch m h).
Proof.
  intros Hm Hh st r HI HJ. unfold try_catch.
  specialize (Hm st r HI HJ). destruct (m st r) as [[[a | msg] st'] r']; simpl in *.
  - exact Hm.
  - apply Hh; tauto.
Qed.

(** A rolled-back transaction leaves the tables it started from, and they
    satisfied the invariant. *)
Lemma keeps_transaction {A : Type} (m : M A) :
  keeps Inv Rep m -> keeps Inv Rep (transaction m).
Proof.
  intros Hm st r HI HJ. unfold transaction.
  specialize (Hm st r HI HJ). destruct (m st r) as [[[a | msg] st'] r']; simpl in *.
  - exact Hm.
  - tauto.
Qed.

Lemma keeps_update_result (f : UserSyncerResult -> UserSyncerResult) :
  (forall r, Rep r -> Rep (f r)) -> keeps Inv Rep (update_result f).
Proof. intros Hf st r HI HJ. split; [exact HI | apply Hf; exact HJ]. Qed.

Lemma keeps_write (fault : Fault) (op : WriteOp) (effect : Store -> Store) :
  (forall st, Inv st -> Inv (effect st)) -> keeps Inv Rep (write fault op effect).
Proof.
  intros He st r HI HJ. unfold write. destruct (fault st op); simpl; auto.
Qed.

Lemma keeps_for_each {A : Type} (l : list A) (body : A -> M unit) :
  (forall x, keeps Inv Rep (body x)) -> keeps Inv Rep (for_each l body).
Proof.
  intros Hb. induction l as [| x l IH]; simpl.
  - apply keeps_ret.
  - apply keeps_bind; [apply Hb | intros _; exact IH].
Qed.

Lemma keeps_for_each_with {A S : Type} (l : list A) (s : S) (body : S -> A -> M S) :
  (forall s x, keeps Inv Rep (body s x)) -> keeps Inv Rep (for_each_with l s body).
Proof.
  intros Hb. revert s. induction l as [| x l IH]; intros s; simpl.
  - apply keeps_ret.
  - apply keeps_bind; [apply Hb | intros s'; apply IH].
Qed.

End Keeps.

(** *** Rules for computations that never throw *)

Lemma returns_ret {A : Type} (a : A) : returns (ret a).
Proof. intros st r. unfold ret. eauto. Qed.

Lemma returns_read {A : Type} (q : Store -> A) : returns (read q).
Proof. intros st r. unfold read. eauto. Qed.

Lemma returns_update_result (f : UserSyncerResult -> UserSyncerResult) :
  returns (update_result f).
Proof. intros st r. unfold update_result. eauto. Qed.

Lemma returns_bind {A B : Type} (m : M A) (k : A -> M B) :
  returns m -> (forall a, returns (k a)) -> returns (bind m k).
Proof.
  intros Hm Hk st r. unfold bind. destruct (Hm st r) as [a [st' [r' ->]]]. apply Hk.
Qed.

(** Whatever the guarded block does, a handler that returns makes the whole
    [try ... catch] return. *)
Lemma returns_try_catch {A : Type} (m : M A) (h : string -> M A) :
  (forall msg, returns (h msg)) -> returns (try_catch m h).
Proof.
  intros Hh st r. unfold try_catch.
  destruct (m st r) as [[[a | msg] st'] r']; [eauto | apply Hh].
Qed.

Lemma returns_for_each {A : Type} (l : list A) (body : A -> M unit) :
  (forall x, returns (body x)) -> returns (for_each l body).
Proof.
  intros Hb. induction l as [| x l IH]; simpl.
  - apply returns_ret.
  - apply returns_bind; [apply Hb | intros _; exact IH].
Qed.

Lemma returns_for_each_with {A S : Type} (l : list A) (s : S) (body : S -> A -> M S) :
  (forall s x, returns (body s x)) -> returns (for_each_with l s body).
Proof.
  intros Hb. revert s. induction l as [| x l IH]; intros s; simpl.
  - apply returns_ret.
  - apply returns_bind; [apply Hb | intros s'; apply IH].
Qed.

(** Walks a computation of the engine along its binds, branches, [try] blocks
    and transactions; what is left are the writes. *)
Ltac keeps_walk :=
  unfold phase1_match, phase1_orphan, phase2_link, phase2_create, updateUserIfNeeded;
  repeat first
    [ apply keeps_ret
    | apply keeps_read
    | apply keeps_update_result; solve [auto]
    | apply keeps_transaction
    | apply keeps_try_catch; [| intros ?]
    | apply keeps_bind; [| intros ?]
    | match goal with
      | |- keeps _ _ (if ?b then _ else _) => destruct b
      | |- keeps _ _ (match ?o with Some _ => _ | None => _ end) => destruct o
      end ].

(** *** The engine never throws *)

Section Returns.

Variable fault : Fault.
Variable now : Z.

Lemma returns_phase1_match (user : User) (pu : SyncUser) :
  returns (phase1_match fault user pu).
Proof. apply returns_try_catch. intros msg. apply returns_update_result. Qed.

Lemma returns_phase1_orphan (user : User) : returns (phase1_orphan fault now user).
Proof.
  unfold phase1_orphan. destruct (negb _).
  - apply returns_try_catch. intros msg. apply returns_update_result.
  - apply returns_update_result.
Qed.

(** The body of Phase 1 returns the set it was given, with the row's
    provider id added. *)
Lemma phase1_body_value (m : gmap string SyncUser) (s : gset string)
    (auth : UserAuthentication) (user : User) (st : Store) (r : UserSyncerResult) :
  exists st' r',
    phase1_body fault now m s (auth, Some user) st r
    = (Ok (s ∪ {[ ua_providerId auth ]}), st', r').
Proof.
  simpl. destruct (m !! ua_providerId auth) as [pu |]; unfold bind.
  - destruct (returns_phase1_match user pu st r) as [[] [st' [r' ->]]]. eauto.
  - destruct (returns_phase1_orphan user st r) as [[] [st' [r' ->]]]. eauto.
Qed.

Lemma returns_phase1_body (m : gmap string SyncUser) (s : gset string)
    (row : UserAuthentication * option User) :
  returns (phase1_body fault now m s row).
Proof.
  destruct row as [auth [user |]]; [| apply returns_ret].
  intros st r. destruct (phase1_body_value m s auth user st r) as [st' [r' E]]. eauto.
Qed.

Lemma returns_phase2_body (team : Team) (tid aid : string) (dg : option Group)
    (processed : gset string) (pu : SyncUser) :
  returns (phase2_body fault team tid aid dg processed pu).
Proof.
  unfold phase2_body. destruct (decide _); [apply returns_ret |].
  destruct (negb _); [apply returns_update_result |].
  apply returns_try_catch. intros msg. apply returns_update_result.
Qed.

Lemma returns_phase1 (m : gmap string SyncUser)
    (existingAuths : list (UserAuthentication * option User)) :
  returns (phase1 fault now m existingAuths).
Proof. apply returns_for_each_with. intros. apply returns_phase1_body. Qed.

Lemma returns_userSyncer_body (props : Props) : returns (userSyncer_body fault now props).
Proof.
  unfold userSyncer_body. destruct (_ =? _)%nat; [apply returns_update_result |].
  apply returns_bind; [apply returns_read |].
  intros [team |]; [| apply returns_update_result].
  apply returns_bind; [apply returns_read |].
  intros [ap |]; [| apply returns_update_result].
  apply returns_bind; [apply returns_read |]. intros dg.
  apply returns_bind; [apply returns_read |]. intros auths.
  apply returns_bind; [apply returns_phase1 |].
  intros processed. apply returns_for_each. intros. apply returns_phase2_body.
Qed.

(** The engine never rejects a call: every failure of a write ends in
    [errors]. *)
Lemma userSyncer_returns (props : Props) (st : Store) :
  exists r st', userSyncer fault now props st = (Ok r, st')
                /\ userSyncer_body fault now props st initial_result = (Ok tt, st', r).
Proof.
  unfold userSyncer.
  destruct (returns_userSyncer_body props st initial_result) as [[] [st' [r' E]]].
  rewrite E. eauto.
Qed.



(** Phase 2 on an unmarked entry with an email that some user of the team
    carries runs the link. *)
Lemma phase2_body_link (team : Team) (tid aid : string) (dg : option Group)
    (processed : gset string) (pu : SyncUser) (st : Store) (r : UserSyncerResult)
    (u0 : User) :
  su_providerId pu ∉ processed ->
  Js.truthy (su_email pu) = true ->
  User_findOne_iLike st tid (su_email pu) = Some u0 ->
  phase2_body fault team tid aid dg processed pu st r
  = try_catch (phase2_link fault aid u0 pu)
      (fun msg => push_error ("Failed to create user " ++ su_email pu ++ ": " ++ msg))
      st r.
Proof.
  intros Hp He Hu. unfold phase2_body.
  destruct (decide _); [contradiction |]. rewrite He. simpl.
  unfold try_catch, bind, read. rewrite Hu. reflexivity.
Qed.

End Returns.

(** *** Without a default group, no membership is written *)

Section NoGroup.

Variable fault : Fault.
Variable now : Z.
Variable memberships : list GroupUser.

Lemma no_group_User_update (uid : string) (c : UserChanges) :
  keeps (same_memberships memberships) nobody_added (User_update fault uid c).
Proof. apply keeps_write. intros st H. exact H. Qed.

Lemma no_group_UserAuthentication_create (mk : string -> UserAuthentication) :
  keeps (same_memberships memberships) nobody_added (UserAuthentication_create fault mk).
Proof.
  intros st r HI HJ. unfold UserAuthentication_create. destruct (fault st _); simpl; auto.
Qed.

Lemma no_group_User_create (mk : string -> User) :
  keeps (same_memberships memberships) nobody_added (User_create fault mk).
Proof. intros st r HI HJ. unfold User_create. destruct (fault st _); simpl; auto. Qed.

Lemma no_group_phase1_body (m : gmap string SyncUser) (processed : gset string)
    (row : UserAuthentication * option User) :
  keeps (same_memberships memberships) nobody_added (phase1_body fault now m processed row).
Proof.
  destruct row as [auth [user |]]; simpl; keeps_walk; apply no_group_User_update.
Qed.

Lemma no_group_phase2_body (team : Team) (tid aid : string) (processed : gset string)
    (pu : SyncUser) :
  keeps (same_memberships memberships) nobody_added (phase2_body fault team tid aid None processed pu).
Proof.
  unfold phase2_body. keeps_walk;
    first [ apply no_group_User_update
          | apply no_group_UserAuthentication_create
          | apply no_group_User_create ].
Qed.

Lemma no_group_userSyncer_body (props : Props) :
  defaultGroupId props = None -> defaultGroupName props = None ->
  keeps (same_memberships memberships) nobody_added (userSyncer_body fault now props).
Proof.
  intros Hid Hname. unfold userSyncer_body, find_defaultGroup. rewrite Hid, Hname.
  destruct (_ =? _)%nat; [apply keeps_update_result; auto |].
  apply keeps_bind; [apply keeps_read |].
  intros [team |]; [| apply keeps_update_result; auto].
  apply keeps_bind; [apply keeps_read |].
  intros [ap |]; [| apply keeps_update_result; auto].
  apply keeps_bind_read. intros st0. simpl.
  apply keeps_bind; [apply keeps_read |]. intros auths.
  apply keeps_bind.
  - apply keeps_for_each_with. intros. apply no_group_phase1_body.
  - intros processed. apply keeps_for_each. intros. apply no_group_phase2_body.
Qed.

End NoGroup.

Lemma userSyncer_no_group (fault : Fault) (now : Z) (props : Props) (st : Store) :
  defaultGroupId props = None -> defaultGroupName props = None ->
  exists r st', userSyncer fault now props st = (Ok r, st')
                /\ GroupUsers st' = GroupUsers st /\ addedToGroup r = 0%nat.
Proof.
  intros Hid Hname. destruct (userSyncer_returns fault now props st) as [r [st' [E Eb]]].
  exists r, st'. split; [exact E |].
  pose proof (no_group_userSyncer_body fault now (GroupUsers st) props Hid Hname
                st initial_result eq_refl eq_refl) as H.
  rewrite Eb in H. exact H.
Qed.

Lemma sync_bindings_no_group (fault : Fault) (now : Z)
    (authProviders : list AuthenticationProvider) (syncUsers : list SyncUser)
    (st : Store) :
  GroupUsers (sync_bindings fault now authProviders syncUsers st).1 = GroupUsers st
  /\ Forall (fun entry => exists r, entry.2 = Ok r /\ addedToGroup r = 0%nat)
            (sync_bindings fault now authProviders syncUsers st).2.
Proof.
  revert st. induction authProviders as [| ap aps IH]; intros st; simpl.
  - split; [reflexivity | constructor].
  - destruct (userSyncer_no_group fault now (sync_props ap syncUsers) st eq_refl eq_refl)
      as [r [st1 [E [HG Hr]]]].
    rewrite E. specialize (IH st1).
    destruct (sync_bindings fault now aps syncUsers st1) as [st2 log]; simpl in *.
    destruct IH as [IH1 IH2]. split; [congruence |].
    constructor; [exists r; split; [reflexivity | exact Hr] | exact IH2].
Qed.

(** ** The scenarios of the repository's tests *)

Example test_creates_new_users :
  let run :=
    Scenario.reconcile
      [Scenario.entry "g1" "newuser1@example.com" "New User 1";
       Scenario.entry "g2" "newuser2@example.com" "New User 2"]
      (Scenario.directory [] []) in
  fst run
  = Ok {| created := 2; updated := 0; suspended := 0; unchanged := 0;
          reactivated := 0; addedToGroup := 0; errors := [] |}
  /\ map user_name (Users (snd run)) = ["New User 1"; "New User 2"]
  /\ map (fun a => (ua_providerId a, ua_userId a)) (UserAuthentications (snd run))
     = [("g1", "id-0"); ("g2", "id-2")].
Proof. vm_compute. repeat split. Qed.

Example test_updates_changed_details :
  let run :=
    Scenario.reconcile [Scenario.entry "g1" "u@example.com" "Updated Name"]
      (Scenario.directory [Scenario.user "u" "u@example.com" "Old" None]
         [Scenario.auth "a" "g1" "u"]) in
  fst run
  = Ok {| created := 0; updated := 1; suspended := 0; unchanged := 0;
          reactivated := 0; addedToGroup := 0; errors := [] |}
  /\ map user_name (Users (snd run)) = ["Updated Name"].
Proof. vm_compute. repeat split. Qed.

Example test_suspends_users_not_in_provider :
  let run :=
    Scenario.reconcile [Scenario.entry "g9" "otheruser@example.com" "Other User"]
      (Scenario.directory [Scenario.user "u" "u@example.com" "U" None]
         [Scenario.auth "a" "g1" "u"]) in
  fst run
  = Ok {| created := 1; updated := 0; suspended := 1; unchanged := 0;
          reactivated := 0; addedToGroup := 0; errors := [] |}
  /\ map user_suspendedAt (Users (snd run)) = [Some 1000; None].
Proof. vm_compute. repeat split. Qed.

Example test_reactivates_suspended_users :
  let run :=
    Scenario.reconcile [Scenario.entry "g1" "u@example.com" "U"]
      (Scenario.directory [Scenario.user "u" "u@example.com" "U" (Some 5)]
         [Scenario.auth "a" "g1" "u"]) in
  fst run
  = Ok {| created := 0; updated := 0; suspended := 0; unchanged := 1;
          reactivated := 1; addedToGroup := 0; errors := [] |}
  /\ map user_suspendedAt (Users (snd run)) = [None].
Proof. vm_compute. repeat split. Qed.

Example test_links_invited_user :
  let run :=
    Scenario.reconcile [Scenario.entry "g1" "invited@example.com" "Invited User Updated"]
      Scenario.invited_directory in
  fst run
  = Ok {| created := 0; updated := 1; suspended := 0; unchanged := 0;
          reactivated := 0; addedToGroup := 0; errors := [] |}
  /\ map (fun a => (ua_providerId a, ua_userId a)) (UserAuthentications (snd run))
     = [("g1", "i")].
Proof. vm_compute. repeat split. Qed.

Example test_skips_users_without_email :
  fst (Scenario.reconcile
         [Scenario.entry "g1" "" "No Email User";
          Scenario.entry "g2" "valid@example.com" "Valid User"]
         (Scenario.directory [] []))
  = Ok {| created := 1; updated := 0; suspended := 0; unchanged := 0;
          reactivated := 0; addedToGroup := 0;
          errors := ["Skipping user g1: no email address"] |}.
Proof. vm_compute. reflexivity. Qed.

Example test_unknown_team_and_provider :
  fst (userSyncer no_fault 1000
         {| teamId := "nowhere"; authenticationProviderId := "P";
            users := [Scenario.entry "g1" "test@example.com" "Test"];
            defaultGroupId := None; defaultGroupName := None |}
         (Scenario.directory [] []))
  = Ok {| created := 0; updated := 0; suspended := 0; unchanged := 0;
          reactivated := 0; addedToGroup := 0; errors := ["Team nowhere not found"] |}
  /\ fst (userSyncer no_fault 1000
            {| teamId := "T"; authenticationProviderId := "nobody";
               users := [Scenario.entry "g1" "test@example.com" "Test"];
               defaultGroupId := None; defaultGroupName := None |}
            (Scenario.directory [] []))
     = Ok {| created := 0; updated := 0; suspended := 0; unchanged := 0;
             reactivated := 0; addedToGroup := 0;
             errors := ["Authentication provider nobody not found"] |}.
Proof. vm_compute. split; reflexivity. Qed.

(** When the database refuses the authentication row, the transaction is
    rolled back, the user is not kept, and the failure ends in [errors]. *)
Example refused_write_is_rolled_back_and_reported :
  userSyncer Scenario.refuse_authentications 1000
    (Scenario.props [Scenario.entry "g1" "a@example.com" "A"])
    (Scenario.directory [] [])
  = (Ok {| created := 0; updated := 0; suspended := 0; unchanged := 0;
           reactivated := 0; addedToGroup := 0;
           errors := ["Failed to create user a@example.com: duplicate key"] |},
     Scenario.directory [] []).
Proof. vm_compute. reflexivity. Qed.

(** *** The rows of one authentication key *)

Section OneKey.

Variable fault : Fault.
Variable now : Z.
Variable aid p : string.
Variable rows : list UserAuthentication.







End OneKey.

(** *** The stored emails under an update that leaves the email alone *)

Section Emails.

Variable fault : Fault.
Variable ids : list string.
Variable emails : list (option string).
Variable count : nat.

Lemma emails_User_update (uid : string) (c : UserChanges) :
  ch_email c = None -> keeps (same_emails ids emails) (same_created count) (User_update fault uid c).
Proof.
  intros Hc. apply keeps_write. intros st [H1 H2]. split; simpl.
  - rewrite update_row_ids. exact H1.
  - rewrite update_row_emails by exact Hc. exact H2.
Qed.

Lemma emails_UserAuthentication_create (mk : string -> UserAuthentication) :
  keeps (same_emails ids emails) (same_created count) (UserAuthentication_create fault mk).
Proof.
  intros st r HI HJ. unfold UserAuthentication_create. destruct (fault st _); simpl; auto.
Qed.

Lemma emails_phase1_match (user : User) (pu : SyncUser) :
  ch_email (updates_for user pu) = None ->
  keeps (same_emails ids emails) (same_created count) (phase1_match fault user pu).
Proof.
  intros Hc. keeps_walk; apply emails_User_update; first [exact Hc | reflexivity].
Qed.

Lemma emails_phase2_link (aid : string) (u : User) (pu : SyncUser) :
  ch_email (updates_for u pu) = None ->
  keeps (same_emails ids emails) (same_created count) (phase2_link fault aid u pu).
Proof.
  intros Hc. keeps_walk;
    first [ apply emails_UserAuthentication_create
          | apply emails_User_update; first [exact Hc | reflexivity] ].
Qed.

End Emails.

(** *** Pagination *)

(** With pages of at least one user, the loop ends within
    [100000 / batchSize + 1] requests, whatever the admin API answers. *)
Lemma getAllUsers_loop_terminates (client : KeycloakAdminClient) (batchSize : Z)
    (enabled : option bool) (fuel : nat) (first : Z) (acc : list KeycloakUser) :
  1 <= batchSize -> first <= 100000 ->
  (100000 - first) / batchSize + 1 <= Z.of_nat fuel ->
  exists o, getAllUsers_loop fuel client batchSize enabled first acc = Some o.
Proof.
  intros Hb. revert first acc. induction fuel as [| fuel IH]; intros first acc Hf Hfuel.
  - exfalso. assert (0 <= (100000 - first) / batchSize) by (apply Z.div_pos; lia). lia.
  - simpl. destruct (getUsers client first batchSize enabled) as [page | msg]; [| eauto].
    destruct (_ <? _); [eauto |].
    destruct (first + batchSize >? 100000) eqn:E; [eauto |].
    apply IH; [lia |].
    replace (100000 - (first + batchSize)) with ((100000 - first) + (-1) * batchSize) by lia.
    rewrite Z.div_add by lia. lia.
Qed.

(** A page shorter than [batchSize] is the last one. *)
Lemma getAllUsers_loop_short_page (client : KeycloakAdminClient) (batchSize : Z)
    (enabled : option bool) (fuel : nat) (first : Z) (acc page : list KeycloakUser) :
  getUsers client first batchSize enabled = Ok page ->
  Z.of_nat (length page) < batchSize ->
  getAllUsers_loop (S fuel) client batchSize enabled first acc
  = Some (Ok (acc ++ page)%list).
Proof.
  intros Hp Hs. simpl. rewrite Hp.
  destruct (Z.ltb_spec (Z.of_nat (length page)) batchSize); [reflexivity | lia].
Qed.

(** When every page is full, the loop asks for [100000 / batchSize + 1]
    pages and returns them all. *)
Lemma getAllUsers_loop_full_pages (batchSize : Z) (enabled : option bool)
    (fuel : nat) (first : Z) (acc : list KeycloakUser) :
  1 <= batchSize -> first <= 100000 ->
  (100000 - first) / batchSize + 1 <= Z.of_nat fuel ->
  exists l,
    getAllUsers_loop fuel Scenario.full_pages batchSize enabled first acc = Some (Ok l)
    /\ Z.of_nat (length l)
       = Z.of_nat (length acc) + ((100000 - first) / batchSize + 1) * batchSize.
Proof.
  intros Hb. revert first acc. induction fuel as [| fuel IH]; intros first acc Hf Hfuel.
  - exfalso. assert (0 <= (100000 - first) / batchSize) by (apply Z.div_pos; lia). lia.
  - simpl.
    rewrite repeat_length, Z2Nat.id by lia. rewrite Z.ltb_irrefl.
    assert ((100000 - (first + batchSize)) / batchSize = (100000 - first) / batchSize - 1)
      as Ediv.
    { replace (100000 - (first + batchSize)) with ((100000 - first) + (-1) * batchSize)
        by lia.
      rewrite Z.div_add by lia. lia. }
    destruct (Z.gtb_spec (first + batchSize) 100000) as [Hgt | Hle].
    + eexists. split; [reflexivity |].
      rewrite length_app, repeat_length, Nat2Z.inj_add, Z2Nat.id by lia.
      assert ((100000 - first) / batchSize = 0) as -> by (apply Z.div_small; lia). lia.
    + destruct (IH (first + batchSize)
                  (acc ++ repeat (Scenario.kc_user 0) (Z.to_nat batchSize))%list)
        as [l [El Hl]]; [lia | lia |].
      exists l. split; [exact El |]. rewrite Hl.
      rewrite length_app, repeat_length, Nat2Z.inj_add, Z2Nat.id by lia.
      rewrite Ediv. lia.
Qed.

(** With a batch size of 0 no page is ever short and the offset never moves. *)
Lemma getAllUsers_loop_zero_batch (enabled : option bool) (fuel : nat)
    (acc : list KeycloakUser) :
  getAllUsers_loop fuel Scenario.full_pages 0 enabled 0 acc = None.
Proof.
  revert acc. induction fuel as [| fuel IH]; intros acc; simpl; [reflexivity |]. apply IH.
Qed.

(** ** The claims *)

(** C1: a call with an empty snapshot returns at once: every counter is 0,
    [errors] holds the one message about the empty user list, and the tables,
    so every field of every user, are left as they were. *)
Theorem empty_snapshot_aborts (fault : Fault) (now : Z) (tid aid : string)
    (gid gname : option string) (st : Store) :
  userSyncer fault now
    {| teamId := tid; authenticationProviderId := aid; users := [];
       defaultGroupId := gid; defaultGroupName := gname |} st
  = (Ok {| created := 0; updated := 0; suspended := 0; unchanged := 0;
           reactivated := 0; addedToGroup := 0;
           errors := ["Provider returned empty user list - sync aborted to prevent mass suspension"] |},
     st).
Proof. reflexivity. Qed.

(** C2, at the directory in which Ann is linked under "kc-old" and the
    provider lists her under "kc-new": the first call suspends her through
    the old link and reactivates her through the new one; the second call,
    on the same snapshot, suspends her again and leaves her suspended. *)
Theorem second_run_suspends_again :
  let first_run :=
    Scenario.reconcile Scenario.relinked_snapshot Scenario.relinked_directory in
  let second_run := Scenario.reconcile Scenario.relinked_snapshot (snd first_run) in
  fst first_run
  = Ok {| created := 0; updated := 0; suspended := 1; unchanged := 1;
          reactivated := 1; addedToGroup := 0; errors := [] |}
  /\ Users (snd first_run) = [Scenario.user "u" "ann@example.com" "Ann" None]
  /\ map auth_key (UserAuthentications (snd first_run))
     = [("P", "kc-old"); ("P", "kc-new")]
  /\ fst second_run
     = Ok {| created := 0; updated := 0; suspended := 1; unchanged := 1;
             reactivated := 0; addedToGroup := 0; errors := [] |}
  /\ Users (snd second_run)
     = [Scenario.user "u" "ann@example.com" "Ann" (Some 1000)].
Proof. vm_compute. repeat split. Qed.

(** C3, as stated, fails at the linked user "test@example.com" whom the
    provider spells "TEST@EXAMPLE.COM": the two emails are equal up to case
    and differ character-wise, no user is added, and the stored email is not
    the provider's. *)
Lemma case_only_change_keeps_stored_email :
  let e := "test@example.com" in
  let e' := "TEST@EXAMPLE.COM" in
  let run := Scenario.reconcile Scenario.case_snapshot Scenario.case_directory in
  Js.toLowerCase e = Js.toLowerCase e'
  /\ stored_email Scenario.case_directory "u" = Some e
  /\ fst run
     = Ok {| created := 0; updated := 0; suspended := 0; unchanged := 1;
             reactivated := 0; addedToGroup := 0; errors := [] |}
  /\ length (Users (snd run)) = 1%nat
  /\ ~ (stored_email (snd run) "u" = Some e' <-> e <> e').
Proof.
  vm_compute. repeat split.
  intros [_ H]. assert (Some "test@example.com" = Some "TEST@EXAMPLE.COM") as E.
  { apply H. discriminate. }
  discriminate E.
Qed.

(** C4, at the invited user whom the provider lists with the same name and
    the same email, in the same or in another case: the link is made, nothing
    is created, and the one user, unchanged and not suspended, is counted
    twice in [unchanged]. *)
Theorem linked_unchanged_user_counted_twice :
  Scenario.reconcile Scenario.invited_snapshot Scenario.invited_directory
  = (Ok {| created := 0; updated := 0; suspended := 0; unchanged := 2;
           reactivated := 0; addedToGroup := 0; errors := [] |},
     {| Teams := [Scenario.T]; AuthenticationProviders := [Scenario.P];
        Users := [Scenario.user "i" "invited@example.com" "Invited" None];
        UserAuthentications := [Scenario.auth "id-0" "g1" "i"];
        Groups := [Scenario.G]; GroupUsers := []; idSupply := 1 |})
  /\ fst (Scenario.reconcile [Scenario.entry "g1" "INVITED@EXAMPLE.COM" "Invited"]
            Scenario.invited_directory)
     = Ok {| created := 0; updated := 0; suspended := 0; unchanged := 2;
             reactivated := 0; addedToGroup := 0; errors := [] |}.
Proof. vm_compute. split; reflexivity. Qed.

(** C5: in Phase 1, for an authentication whose provider id is in the
    snapshot, the index gives an entry of the snapshot with that id, and, when
    the database accepts the writes: the update is applied and [updated]
    grows by one if the attributes differ, else [unchanged] grows by one;
    apart from that, if the loaded user was suspended, [suspendedAt] and
    [suspendedById] of its row are cleared and [reactivated] grows by one.
    No other counter moves and no error is recorded. *)
Theorem phase1_match_counts (fault : Fault) (now : Z) (snapshot : list SyncUser)
    (processed : gset string) (auth : UserAuthentication) (user : User)
    (pu0 : SyncUser) (st : Store) (r : UserSyncerResult) :
  In pu0 snapshot ->
  su_providerId pu0 = ua_providerId auth ->
  exists pu,
    providerUsersMap_of snapshot !! ua_providerId auth = Some pu
    /\ In pu snapshot /\ su_providerId pu = ua_providerId auth
    /\ let changes := updates_for user pu in
       let differ := has_keys changes in
       let was_suspended := is_some (user_suspendedAt user) in
       let st1 := if differ
                  then set_Users st (update_row (user_id user) changes (Users st))
                  else st in
       let st2 := if was_suspended
                  then set_Users st1 (update_row (user_id user) reactivation (Users st1))
                  else st1 in
       (differ = true -> fault st (UserUpdate (user_id user) changes) = None) ->
       (was_suspended = true ->
        fault st1 (UserUpdate (user_id user) reactivation) = None) ->
       exists r',
         phase1_body fault now (providerUsersMap_of snapshot) processed
           (auth, Some user) st r
         = (Ok (processed ∪ {[ ua_providerId auth ]}), st2, r')
         /\ updated r' = (updated r + if differ then 1 else 0)%nat
         /\ unchanged r' = (unchanged r + if differ then 0 else 1)%nat
         /\ reactivated r' = (reactivated r + if was_suspended then 1 else 0)%nat
         /\ created r' = created r /\ suspended r' = suspended r
         /\ addedToGroup r' = addedToGroup r /\ errors r' = errors r
         /\ (was_suspended = true ->
             forall u, In u (Users st2) -> user_id u = user_id user ->
                       user_suspendedAt u = None /\ user_suspendedById u = None).
Proof.
  intros Hin Hpid.
  destruct (providerUsersMap_of_In snapshot pu0 Hin) as [pu [Hpu [Hin' Hpid']]].
  rewrite Hpid in Hpu, Hpid'.
  exists pu. split; [exact Hpu |]. split; [exact Hin' |]. split; [exact Hpid' |].
  intros changes differ was_suspended st1 st2 Hupd Hre.
  unfold phase1_body. rewrite Hpu.
  unfold phase1_match, updateUserIfNeeded, try_catch, bind, User_update, write.
  unfold incr_updated, incr_unchanged, incr_reactivated, update_result, ret.
  fold changes. fold differ. fold was_suspended.
  destruct differ eqn:Ed; destruct was_suspended eqn:Es; simpl.
  all: try rewrite (Hupd eq_refl); simpl.
  all: subst st1; simpl in Hre; try rewrite (Hre eq_refl); simpl.
  all: eexists; split; [reflexivity |]; simpl.
  all: split_and!; try lia; try discriminate; try reflexivity.
  all: intros _ u Hu Hid; subst st2; simpl in Hu;
       apply update_row_In in Hu as [u0 [_ [_ ->]]]; [split; reflexivity | exact Hid].
Qed.

(** A suspended user whose name changed in the provider, on a database that
    refuses nothing: updated once, reactivated once. *)
Lemma phase1_match_counts_witness :
  let user := Scenario.user "u" "u@example.com" "Old" (Some 5) in
  let pu := Scenario.entry "g1" "u@example.com" "New" in
  exists st' r',
    phase1_body no_fault 1000 (providerUsersMap_of [pu]) ∅
      (Scenario.auth "a" "g1" "u", Some user)
      (Scenario.directory [user] [Scenario.auth "a" "g1" "u"]) initial_result
    = (Ok (∅ ∪ {[ "g1" ]}), st', r')
    /\ updated r' = 1%nat /\ unchanged r' = 0%nat /\ reactivated r' = 1%nat
    /\ Users st' = [Scenario.user "u" "u@example.com" "New" None].
Proof.
  intros user pu.
  destruct (phase1_match_counts no_fault 1000 [pu] ∅ (Scenario.auth "a" "g1" "u") user pu
              (Scenario.directory [user] [Scenario.auth "a" "g1" "u"]) initial_result)
    as [pu' [Hpu [_ [_ H]]]].
  - left. reflexivity.
  - reflexivity.
  - assert (pu' = pu) as -> by (vm_compute in Hpu; injection Hpu as <-; reflexivity).
    destruct H as [r' [E [Hu [Hn [Hr _]]]]]; [reflexivity | reflexivity |].
    eexists _, r'. split; [exact E |]. split_and!; try assumption. reflexivity.
Defined.

(** C6, at a snapshot that lists the provider id "g1" twice, on a directory
    without users: the call reports no error and leaves two authentication
    rows with the same provider and provider id. *)
Theorem repeated_providerId_creates_two_rows :
  let run := Scenario.reconcile Scenario.repeated_snapshot (Scenario.directory [] []) in
  fst run
  = Ok {| created := 2; updated := 0; suspended := 0; unchanged := 0;
          reactivated := 0; addedToGroup := 0; errors := [] |}
  /\ map auth_key (UserAuthentications (snd run)) = [("P", "g1"); ("P", "g1")]
  /\ ~ NoDup (map auth_key (UserAuthentications (snd run))).
Proof.
  vm_compute. split; [reflexivity | split; [reflexivity |]].
  intros H. apply NoDup_cons in H as [Hin _]. apply Hin. constructor.
Qed.



(** C8, as stated, fails at an admin API that lists "k1", who has no email,
    and "k2", who has one: the task drops "k1", creates the user of "k2", and
    the report has no error at all, so none that names "k1". *)
Lemma record_without_email_leaves_no_error :
  let raw := {| kc_id := "k1"; kc_username := "bob"; kc_email := None;
                kc_firstName := Some "Bob"; kc_lastName := None; kc_enabled := true |} in
  getUsers Scenario.two_users 0 100 (Some true)
  = Ok [raw;
        {| kc_id := "k2"; kc_username := "eve"; kc_email := Some "eve@example.com";
           kc_firstName := Some "Eve"; kc_lastName := Some "Moneypenny";
           kc_enabled := true |}]
  /\ kc_email raw = None
  /\ exists st',
       perform no_fault 1000 Scenario.env Scenario.two_users (fun _ => true) 1001
         (Scenario.directory [] [])
       = Some (st',
               [("T", Ok {| created := 1; updated := 0; suspended := 0; unchanged := 0;
                            reactivated := 0; addedToGroup := 0; errors := [] |})])
       /\ map user_name (Users st') = ["Eve Moneypenny"].
Proof.
  split; [reflexivity |]. split; [reflexivity |].
  eexists. split; [vm_compute; reflexivity | reflexivity].
Qed.

(** C8, amended: the task keeps exactly the records with a non-empty email,
    each as a [SyncUser] with the record's id, email and display name, and
    drops the others without any error entry; the display name of a record
    with an email is "first last" with surrounding white space trimmed if
    both names are present, else first, else last, else username, else the
    email.  The engine, for its part, records
    "Skipping user {providerId}: no email address" for an unmarked entry with
    an empty email, should one reach it, and does nothing else for it. *)
Theorem normalizer_drops_silently (keycloakUsers : list KeycloakUser) :
  (forall s, In s (toSyncUsers keycloakUsers) <->
             exists k e, In k keycloakUsers /\ kc_email k = Some e /\ e <> ""
                         /\ s = {| su_providerId := kc_id k; su_email := e;
                                   su_name := buildUserName k; su_avatarUrl := None |})
  /\ (forall k e, kc_email k = Some e -> e <> "" ->
        buildUserName k
        = if (Js.truthy_opt (kc_firstName k) && Js.truthy_opt (kc_lastName k))%bool
          then Js.trim (default "" (kc_firstName k) ++ " " ++ default "" (kc_lastName k))
          else if Js.truthy_opt (kc_firstName k) then default "" (kc_firstName k)
          else if Js.truthy_opt (kc_lastName k) then default "" (kc_lastName k)
          else if Js.truthy (kc_username k) then kc_username k
          else e)
  /\ (forall fault team tid aid dg processed pu st r,
        su_providerId pu ∉ processed -> su_email pu = "" ->
        phase2_body fault team tid aid dg processed pu st r
        = (Ok tt, st,
           {| created := created r; updated := updated r; suspended := suspended r;
              unchanged := unchanged r; reactivated := reactivated r;
              addedToGroup := addedToGroup r;
              errors := errors r ++ ["Skipping user " ++ su_providerId pu
                                     ++ ": no email address"] |})).
Proof.
  split_and!.
  - intros s. unfold toSyncUsers. rewrite in_map_iff. split.
    + intros [k [<- Hk]]. apply list_elem_of_In, list_elem_of_filter in Hk as [Ht Hk].
      apply truthy_opt_Some in Ht as [e [He Hne]].
      exists k, e. rewrite He. simpl. split_and!; try done. apply list_elem_of_In. exact Hk.
    + intros [k [e [Hk [He [Hne ->]]]]]. exists k. rewrite He. split; [reflexivity |].
      apply list_elem_of_In, list_elem_of_filter. split; [| apply list_elem_of_In; exact Hk].
      apply truthy_opt_Some. eauto.
  - intros k e He Hne. unfold buildUserName.
    destruct (_ && _); [reflexivity |].
    destruct (Js.truthy_opt (kc_firstName k)); [reflexivity |].
    destruct (Js.truthy_opt (kc_lastName k)); [reflexivity |].
    unfold Js.or_else. simpl. destruct (Js.truthy (kc_username k)); [reflexivity |].
    rewrite He. simpl. unfold Js.truthy.
    destruct (String.eqb_spec e ""); [contradiction | reflexivity].
  - intros fault team tid aid dg processed pu st r Hp He. unfold phase2_body.
    destruct (decide _); [contradiction |]. rewrite He. reflexivity.
Qed.

(** A record whose names carry white space at the ends, and an entry without
    email handed to the engine. *)
Lemma normalizer_drops_silently_witness :
  let k := {| kc_id := "k3"; kc_username := "amy"; kc_email := Some "amy@example.com";
              kc_firstName := Some " Amy"; kc_lastName := Some "Pond ";
              kc_enabled := true |} in
  buildUserName k = "Amy Pond"
  /\ errors (phase2_body no_fault Scenario.T "T" "P" None ∅
               (Scenario.entry "k1" "" "Bob") (Scenario.directory [] [])
               initial_result).2
     = ["Skipping user k1: no email address"].
Proof.
  intros k. destruct (normalizer_drops_silently [k]) as [_ [Hname Hskip]]. split.
  - rewrite (Hname k "amy@example.com"); [reflexivity | reflexivity | discriminate].
  - rewrite Hskip; [reflexivity | apply not_elem_of_empty | reflexivity].
Defined.

(** C9, at an admin API whose every page is full: with pages of 100 the loop
    asks for 1001 pages and returns 100100 users; with pages of 0 it never
    ends. *)
Theorem full_pages_fetch_100100_users :
  (exists l, getAllUsers 1001 Scenario.full_pages 100 (Some true) = Some (Ok l)
             /\ Z.of_nat (length l) = 100100)
  /\ (forall fuel, getAllUsers fuel Scenario.full_pages 0 (Some true) = None).
Proof.
  split.
  - destruct (getAllUsers_loop_full_pages 100 (Some true) 1001 0 []) as [l [El Hl]];
      [lia | lia | vm_compute; discriminate |].
    exists l. split; [exact El |]. rewrite Hl. reflexivity.
  - intros fuel. apply getAllUsers_loop_zero_batch.
Qed.

(** C10: whatever the environment, the admin API, the partition, the
    database's refusals and the directory are, and so whatever
    [syncDefaultGroupId] the providers carry, a run of the scheduled task
    ends, leaves the group memberships as they were, and every report it
    logs has [addedToGroup = 0]. *)
Theorem scheduled_sync_adds_nobody_to_a_group (fault : Fault) (now : Z) (env : Env)
    (client : KeycloakAdminClient) (partition : string -> bool) (extra : nat)
    (st : Store) :
  exists st' log,
    perform fault now env client partition (1001 + extra) st = Some (st', log)
    /\ GroupUsers st' = GroupUsers st
    /\ Forall (fun entry => exists r, entry.2 = Ok r /\ addedToGroup r = 0%nat) log.
Proof.
  unfold perform.
  destruct (negb (OIDC_SYNC_ENABLED env)); [exists st, []; split_and!; done |].
  destruct (_ || _); [exists st, []; split_and!; done |].
  destruct (_ =? _)%nat; [exists st, []; split_and!; done |].
  destruct (negb (client_constructible env)); [exists st, []; split_and!; done |].
  destruct (negb (testConnection client)); [exists st, []; split_and!; done |].
  destruct (getAllUsers_loop_terminates client 100 (Some true) (1001 + extra) 0 [])
    as [o Eo]; [lia | lia | |].
  { change ((100000 - 0) / 100 + 1) with 1001. lia. }
  unfold getAllUsers. rewrite Eo.
  destruct o as [keycloakUsers | msg]; [| exists st, []; split_and!; done].
  destruct (_ =? _)%nat; [exists st, []; split_and!; done |].
  pose proof (sync_bindings_no_group fault now
                (filter (fun a => (String.eqb (ap_name a) "oidc" && ap_enabled a
                                   && partition (ap_id a))%bool = true)
                        (AuthenticationProviders st))
                (toSyncUsers keycloakUsers) st) as H.
  destruct (sync_bindings _ _ _ _ st) as [st' log]. exists st', log.
  split; [reflexivity | exact H].
Qed.

(** The provider of the scenario carries [syncDefaultGroupId = "G"] and the
    group exists: the task creates the user and no membership, while the
    engine, given the group's id, writes one. *)
Example task_ignores_syncDefaultGroupId :
  (exists st',
      perform no_fault 1000 Scenario.env Scenario.two_users (fun _ => true) 1001
        (Scenario.directory [] [])
      = Some (st',
              [("T", Ok {| created := 1; updated := 0; suspended := 0; unchanged := 0;
                           reactivated := 0; addedToGroup := 0; errors := [] |})])
      /\ GroupUsers st' = [])
  /\ (let run :=
        userSyncer no_fault 1000
          {| teamId := "T"; authenticationProviderId := "P";
             users := [Scenario.entry "k2" "eve@example.com" "Eve Moneypenny"];
             defaultGroupId := Some "G"; defaultGroupName := None |}
          (Scenario.directory [] []) in
      (addedToGroup <$> match fst run with Ok r => Some r | Throw _ => None end) = Some 1%nat
      /\ GroupUsers (snd run)
         = [{| gu_userId := "id-0"; gu_groupId := "G"; gu_permission := GroupMember |}]).
Proof.
  split.
  - eexists. split; [vm_compute; reflexivity | reflexivity].
  - vm_compute. split; reflexivity.
Qed.

(** ** Further properties of the engine *)

Lemma update_row_static (uid : string) (c : UserChanges) (us : list User) :
  map user_static (update_row uid c us) = map user_static us.
Proof.
  unfold update_row. rewrite map_map. apply map_ext. intros u.
  destruct (String.eqb _ _); reflexivity.
Qed.

Lemma extends_refl (st : Store) : extends st st.
Proof. unfold extends. split_and!; reflexivity. Qed.

Section Extends.

Variable fault : Fault.
Variable now : Z.
Variable st0 : Store.

Lemma extends_User_update (uid : string) (c : UserChanges) :
  keeps (extends st0) any_report (User_update fault uid c).
Proof.
  apply keeps_write. intros st (H1 & H2 & H3 & H4 & H5 & H6).
  unfold extends. simpl. rewrite update_row_static. split_and!; assumption.
Qed.

Lemma extends_User_create (mk : string -> User) :
  keeps (extends st0) any_report (User_create fault mk).
Proof.
  intros st r (H1 & H2 & H3 & H4 & H5 & H6) HJ. unfold User_create.
  destruct (fault st _); simpl; [unfold extends; auto 10 |].
  split; [| exact HJ]. unfold extends. simpl. rewrite map_app.
  split_and!; try assumption. apply prefix_app_r. exact H5.
Qed.

Lemma extends_UserAuthentication_create (mk : string -> UserAuthentication) :
  keeps (extends st0) any_report (UserAuthentication_create fault mk).
Proof.
  intros st r (H1 & H2 & H3 & H4 & H5 & H6) HJ. unfold UserAuthentication_create.
  destruct (fault st _); simpl; [unfold extends; auto 10 |].
  split; [| exact HJ]. unfold extends. simpl.
  split_and!; try assumption. apply prefix_app_r. exact H4.
Qed.

Lemma extends_GroupUser_create (row : GroupUser) :
  keeps (extends st0) any_report (GroupUser_create fault row).
Proof.
  apply keeps_write. intros st (H1 & H2 & H3 & H4 & H5 & H6).
  unfold extends. simpl. split_and!; try assumption. apply prefix_app_r. exact H6.
Qed.

Lemma extends_phase1_body (m : gmap string SyncUser) (processed : gset string)
    (row : UserAuthentication * option User) :
  keeps (extends st0) any_report (phase1_body fault now m processed row).
Proof.
  destruct row as [auth [user |]]; simpl; keeps_walk; apply extends_User_update.
Qed.

Lemma extends_phase2_body (team : Team) (tid aid : string) (dg : option Group)
    (processed : gset string) (pu : SyncUser) :
  keeps (extends st0) any_report (phase2_body fault team tid aid dg processed pu).
Proof.
  unfold phase2_body. keeps_walk;
    first [ apply extends_User_update
          | apply extends_User_create
          | apply extends_UserAuthentication_create
          | apply extends_GroupUser_create ].
Qed.

Lemma extends_userSyncer_body (props : Props) :
  keeps (extends st0) any_report (userSyncer_body fault now props).
Proof.
  unfold userSyncer_body. destruct (_ =? _)%nat; [apply keeps_update_result; auto |].
  apply keeps_bind; [apply keeps_read |].
  intros [team |]; [| apply keeps_update_result; auto].
  apply keeps_bind; [apply keeps_read |].
  intros [ap |]; [| apply keeps_update_result; auto].
  apply keeps_bind; [apply keeps_read |]. intros dg.
  apply keeps_bind; [apply keeps_read |]. intros auths.
  apply keeps_bind.
  - apply keeps_for_each_with. intros. apply extends_phase1_body.
  - intros processed. apply keeps_for_each. intros. apply extends_phase2_body.
Qed.

End Extends.

Section Loops.

Variable fault : Fault.
Variable now : Z.

Lemma keeps_errors_update (Inv : Store -> Prop) (errs : list string)
    (f : UserSyncerResult -> UserSyncerResult) :
  (forall r, errors r `prefix_of` errors (f r)) ->
  keeps Inv (keeps_errors errs) (update_result f).
Proof.
  intros Hf. apply keeps_update_result. intros r H. unfold keeps_errors in *.
  etransitivity; [exact H | apply Hf].
Qed.

Lemma keeps_errors_write (errs : list string) (op : WriteOp) (effect : Store -> Store) :
  keeps (fun _ => True) (keeps_errors errs) (write fault op effect).
Proof. apply keeps_write. auto. Qed.

Lemma keeps_errors_User_create (errs : list string) (mk : string -> User) :
  keeps (fun _ => True) (keeps_errors errs) (User_create fault mk).
Proof. intros st r HI HJ. unfold User_create. destruct (fault st _); simpl; auto. Qed.

Lemma keeps_errors_UserAuthentication_create (errs : list string)
    (mk : string -> UserAuthentication) :
  keeps (fun _ => True) (keeps_errors errs) (UserAuthentication_create fault mk).
Proof.
  intros st r HI HJ. unfold UserAuthentication_create. destruct (fault st _); simpl; auto.
Qed.

Ltac keeps_errors_walk :=
  unfold phase1_match, phase1_orphan, phase2_link, phase2_create, updateUserIfNeeded,
    incr_created, incr_updated, incr_suspended, incr_unchanged, incr_reactivated,
    incr_addedToGroup, push_error, User_update, GroupUser_create;
  repeat first
    [ apply keeps_ret
    | apply keeps_read
    | apply keeps_errors_update; intros ?; simpl;
      first [ reflexivity | apply prefix_app_r; reflexivity ]
    | apply keeps_errors_write
    | apply keeps_errors_User_create
    | apply keeps_errors_UserAuthentication_create
    | apply keeps_transaction
    | apply keeps_try_catch; [| intros ?]
    | apply keeps_bind; [| intros ?]
    | match goal with
      | |- keeps _ _ (if ?b then _ else _) => destruct b
      | |- keeps _ _ (match ?o with Some _ => _ | None => _ end) => destruct o
      end ].

Lemma keeps_errors_phase1_body (errs : list string) (m : gmap string SyncUser)
    (processed : gset string) (row : UserAuthentication * option User) :
  keeps (fun _ => True) (keeps_errors errs) (phase1_body fault now m processed row).
Proof. destruct row as [auth [user |]]; simpl; keeps_errors_walk. Qed.

Lemma keeps_errors_phase2_body (errs : list string) (team : Team) (tid aid : string)
    (dg : option Group) (processed : gset string) (pu : SyncUser) :
  keeps (fun _ => True) (keeps_errors errs)
    (phase2_body fault team tid aid dg processed pu).
Proof. unfold phase2_body. keeps_errors_walk. Qed.

(** A database that refuses every write. *)
Hypothesis refuses : forall st op, fault st op <> None.

Lemma untouched_write (st0 : Store) (op : WriteOp) (effect : Store -> Store) :
  keeps (untouched st0) any_report (write fault op effect).
Proof.
  intros st r HI HJ. unfold write. destruct (fault st op) eqn:E; simpl; [auto |].
  destruct (refuses st op E).
Qed.

Lemma untouched_User_create (st0 : Store) (mk : string -> User) :
  keeps (untouched st0) any_report (User_create fault mk).
Proof.
  intros st r HI HJ. unfold User_create. destruct (fault st _) eqn:E; simpl; [auto |].
  destruct (refuses _ _ E).
Qed.

Lemma untouched_UserAuthentication_create (st0 : Store)
    (mk : string -> UserAuthentication) :
  keeps (untouched st0) any_report (UserAuthentication_create fault mk).
Proof.
  intros st r HI HJ. unfold UserAuthentication_create.
  destruct (fault st _) eqn:E; simpl; [auto |]. destruct (refuses _ _ E).
Qed.

Lemma untouched_phase1_body (st0 : Store) (m : gmap string SyncUser)
    (processed : gset string) (row : UserAuthentication * option User) :
  keeps (untouched st0) any_report (phase1_body fault now m processed row).
Proof.
  destruct row as [auth [user |]]; simpl; keeps_walk; apply untouched_write.
Qed.

Lemma untouched_phase2_body (st0 : Store) (team : Team) (tid aid : string)
    (dg : option Group) (processed : gset string) (pu : SyncUser) :
  keeps (untouched st0) any_report (phase2_body fault team tid aid dg processed pu).
Proof.
  unfold phase2_body. keeps_walk;
    first [ apply untouched_write
          | apply untouched_User_create
          | apply untouched_UserAuthentication_create ].
Qed.

End Loops.

(** X1: once the initial queries are answered, the engine cannot reject the
    call: Phase 1 and Phase 2 always run to the end, whatever writes the
    database refuses, and the errors recorded before stay, in place.  When
    the database refuses every write, the two loops leave the tables as they
    were. *)
Theorem loops_never_reject (fault : Fault) (now : Z) (team : Team) (tid aid : string)
    (dg : option Group) (m : gmap string SyncUser)
    (rows : list (UserAuthentication * option User)) (snapshot : list SyncUser)
    (st : Store) (r : UserSyncerResult) :
  exists processed st1 r1 st' r',
    phase1 fault now m rows st r = (Ok processed, st1, r1)
    /\ phase2 fault team tid aid dg processed snapshot st1 r1 = (Ok tt, st', r')
    /\ errors r `prefix_of` errors r'
    /\ ((forall s op, fault s op <> None) -> st' = st).
Proof.
  destruct (returns_phase1 fault now m rows st r) as (processed & st1 & r1 & E1).
  assert (returns (phase2 fault team tid aid dg processed snapshot)) as R2.
  { apply returns_for_each. intros. apply returns_phase2_body. }
  destruct (R2 st1 r1) as ([] & st' & r' & E2).
  exists processed, st1, r1, st', r'. split; [exact E1 |]. split; [exact E2 |]. split.
  - assert (keeps (fun _ => True) (keeps_errors (errors r)) (phase1 fault now m rows)) as K1.
    { apply keeps_for_each_with. intros. apply keeps_errors_phase1_body. }
    assert (keeps (fun _ => True) (keeps_errors (errors r))
              (phase2 fault team tid aid dg processed snapshot)) as K2.
    { apply keeps_for_each. intros. apply keeps_errors_phase2_body. }
    pose proof (K1 st r I (reflexivity _)) as [_ H1]. rewrite E1 in H1.
    pose proof (K2 st1 r1 I H1) as [_ H2]. rewrite E2 in H2. exact H2.
  - intros Hall.
    assert (keeps (untouched st) any_report (phase1 fault now m rows)) as K1.
    { apply keeps_for_each_with. intros. apply untouched_phase1_body. exact Hall. }
    assert (keeps (untouched st) any_report
              (phase2 fault team tid aid dg processed snapshot)) as K2.
    { apply keeps_for_each. intros. apply untouched_phase2_body. exact Hall. }
    pose proof (K1 st r eq_refl I) as [H1 _]. rewrite E1 in H1.
    pose proof (K2 st1 r1 H1 I) as [H2 _]. rewrite E2 in H2. exact H2.
Qed.

(** A database that is down refuses the suspension of Phase 1 and the
    creation of Phase 2: both loops end, with one error each, and the
    tables are as they were. *)
Lemma loops_never_reject_witness :
  let down : Fault := fun _ _ => Some "the database is down" in
  let st := Scenario.directory [Scenario.user "u" "ann@example.com" "Ann" None]
              [Scenario.auth "a" "kc-old" "u"] in
  let snapshot := [Scenario.entry "kc-new" "bob@example.com" "Bob"] in
  exists processed st1 r1 r',
    phase1 down 1000 (providerUsersMap_of snapshot)
      (UserAuthentication_findAll st "P" "T") st initial_result
    = (Ok processed, st1, r1)
    /\ phase2 down Scenario.T "T" "P" None processed snapshot st1 r1 = (Ok tt, st, r')
    /\ length (errors r') = 2%nat.
Proof.
  intros down st snapshot.
  destruct (loops_never_reject down 1000 Scenario.T "T" "P" None
              (providerUsersMap_of snapshot) (UserAuthentication_findAll st "P" "T")
              snapshot st initial_result)
    as (processed & st1 & r1 & st' & r' & E1 & E2 & _ & H).
  rewrite (H ltac:(discriminate)) in E2.
  exists processed, st1, r1, r'. split; [exact E1 |]. split; [exact E2 |].
  vm_compute in E1. injection E1 as <- <- <-.
  vm_compute in E2. injection E2 as <-. reflexivity.
Defined.

(** X2: with a snapshot that is not empty, an unknown team, and for a known
    team an unknown authentication provider, end the call with the one error
    that names it, all counters at 0 and the tables as they were. *)
Theorem unknown_team_or_provider (fault : Fault) (now : Z) (props : Props) (st : Store) :
  users props <> [] ->
  (Team_findByPk st (teamId props) = None ->
   userSyncer fault now props st
   = (Ok (add_error initial_result ("Team " ++ teamId props ++ " not found")), st))
  /\ (Team_findByPk st (teamId props) <> None ->
      AuthenticationProvider_findByPk st (authenticationProviderId props) = None ->
      userSyncer fault now props st
      = (Ok (add_error initial_result
               ("Authentication provider " ++ authenticationProviderId props
                ++ " not found")), st)).
Proof.
  intros Hne. unfold userSyncer, userSyncer_body.
  destruct (users props) as [| pu l] eqn:E; [contradiction |]. simpl.
  unfold bind, read. split.
  - intros ->. reflexivity.
  - intros Ht Ha. destruct (Team_findByPk st (teamId props)); [| contradiction].
    rewrite Ha. reflexivity.
Qed.

Lemma unknown_team_or_provider_witness :
  fst (userSyncer no_fault 1000
         {| teamId := "nowhere"; authenticationProviderId := "P";
            users := [Scenario.entry "g1" "test@example.com" "Test"];
            defaultGroupId := None; defaultGroupName := None |}
         (Scenario.directory [] []))
  = Ok (add_error initial_result "Team nowhere not found").
Proof.
  destruct (unknown_team_or_provider no_fault 1000
              {| teamId := "nowhere"; authenticationProviderId := "P";
                 users := [Scenario.entry "g1" "test@example.com" "Test"];
                 defaultGroupId := None; defaultGroupName := None |}
              (Scenario.directory [] [])) as [H _].
  - discriminate.
  - rewrite H; reflexivity.
Defined.

(** X3: the engine only reads the teams, the authentication providers and
    the groups; it never removes or changes an authentication row or a group
    membership, and never removes a user or changes a user's id, team, role
    or last activity: what it leaves extends what it found. *)
Theorem userSyncer_extends_the_directory (fault : Fault) (now : Z) (props : Props)
    (st : Store) :
  extends st (snd (userSyncer fault now props st)).
Proof.
  destruct (userSyncer_returns fault now props st) as [r [st' [E Eb]]]. rewrite E.
  pose proof (extends_userSyncer_body fault now st props st initial_result
                (extends_refl st) I) as H.
  rewrite Eb in H. apply H.
Qed.

(** The index has no entry exactly for the provider ids the snapshot lacks. *)
Lemma providerUsersMap_of_None (l : list SyncUser) (p : string) :
  (forall pu, In pu l -> su_providerId pu <> p) -> providerUsersMap_of l !! p = None.
Proof.
  intros H. destruct (providerUsersMap_of l !! p) as [pu |] eqn:E; [| reflexivity].
  apply providerUsersMap_of_Some in E as [Hin Hp]. exfalso. exact (H pu Hin Hp).
Qed.

Lemma add_counts_unchanged (r : UserSyncerResult) :
  {| created := created r; updated := updated r; suspended := suspended r;
     unchanged := S (unchanged r); reactivated := reactivated r;
     addedToGroup := addedToGroup r; errors := errors r |}
  = add_counts r 0 0 0 1 0 0.
Proof. unfold add_counts. f_equal; lia. Qed.

Lemma add_counts_suspended (r : UserSyncerResult) :
  {| created := created r; updated := updated r; suspended := S (suspended r);
     unchanged := unchanged r; reactivated := reactivated r;
     addedToGroup := addedToGroup r; errors := errors r |}
  = add_counts r 0 0 1 0 0 0.
Proof. unfold add_counts. f_equal; lia. Qed.

(** X4: in Phase 1, an authentication whose provider id the snapshot lacks
    is an orphan.  A user already suspended is counted in [unchanged] and
    nothing is written.  An active user gets [suspendedAt] set to the current
    time, with no [suspendedById], and is counted in [suspended]; when the
    database refuses that write, nothing changes and the refusal is recorded
    as "Failed to suspend user ...".  In every case the provider id is
    marked. *)
Theorem orphan_is_suspended (fault : Fault) (now : Z) (snapshot : list SyncUser)
    (processed : gset string) (auth : UserAuthentication) (user : User)
    (st : Store) (r : UserSyncerResult) :
  (forall pu, In pu snapshot -> su_providerId pu <> ua_providerId auth) ->
  phase1_body fault now (providerUsersMap_of snapshot) processed (auth, Some user) st r
  = (Ok (processed ∪ {[ ua_providerId auth ]}),
     (if is_some (user_suspendedAt user) then st
      else match fault st (UserUpdate (user_id user) (suspension now)) with
           | None => set_Users st (update_row (user_id user) (suspension now) (Users st))
           | Some _ => st
           end),
     (if is_some (user_suspendedAt user) then add_counts r 0 0 0 1 0 0
      else match fault st (UserUpdate (user_id user) (suspension now)) with
           | None => add_counts r 0 0 1 0 0 0
           | Some msg =>
               add_error r ("Failed to suspend user " ++ Js.show_opt (user_email user)
                            ++ ": " ++ msg)
           end))
  /\ update_row (user_id user) (suspension now) (Users st)
     = map (fun u =>
              if String.eqb (user_id u) (user_id user)
              then {| user_id := user_id u; user_teamId := user_teamId u;
                      user_email := user_email u; user_name := user_name u;
                      user_avatarUrl := user_avatarUrl u; user_role := user_role u;
                      user_suspendedAt := Some now;
                      user_suspendedById := user_suspendedById u;
                      user_lastActiveAt := user_lastActiveAt u |}
              else u) (Users st).
Proof.
  intros Hnone. split; [| reflexivity].
  unfold phase1_body. rewrite (providerUsersMap_of_None _ _ Hnone).
  unfold phase1_orphan, try_catch, bind, User_update, write, incr_suspended,
    incr_unchanged, push_error, update_result, ret.
  destruct (is_some (user_suspendedAt user)); simpl.
  - rewrite add_counts_unchanged. reflexivity.
  - destruct (fault st _); simpl; [reflexivity |].
    rewrite add_counts_suspended. reflexivity.
Qed.

Lemma orphan_is_suspended_witness :
  let user := Scenario.user "u" "u@example.com" "U" None in
  let out :=
    phase1_body no_fault 1000
      (providerUsersMap_of [Scenario.entry "g9" "other@example.com" "O"]) ∅
      (Scenario.auth "a" "g1" "u", Some user)
      (Scenario.directory [user] [Scenario.auth "a" "g1" "u"]) initial_result in
  Users out.1.2 = [Scenario.user "u" "u@example.com" "U" (Some 1000)]
  /\ suspended out.2 = 1%nat.
Proof.
  intros user out.
  destruct (orphan_is_suspended no_fault 1000
              [Scenario.entry "g9" "other@example.com" "O"] ∅
              (Scenario.auth "a" "g1" "u") user
              (Scenario.directory [user] [Scenario.auth "a" "g1" "u"]) initial_result)
    as [H _].
  - intros pu [<- | []]. discriminate.
  - unfold out. rewrite H. split; reflexivity.
Defined.

Lemma find_none_intro {A : Type} (f : A -> bool) (l : list A) :
  (forall x, In x l -> f x = false) -> find f l = None.
Proof.
  induction l as [| x l IH]; intros H; simpl; [reflexivity |].
  rewrite (H x (or_introl eq_refl)). apply IH. intros y Hy. apply H. right. exact Hy.
Qed.

(** X5: in Phase 2, for emails in ASCII, an unmarked entry with an email
    without backslash that, as a pattern of ILIKE, matches the email of no
    user of the team, on a database that accepts the writes, adds exactly
    one user (the entry's name and email as given, the team's default role or
    Member, active, never seen) and one authentication that links the
    entry's provider id to that user with no scopes; [created] grows by one;
    with a default group one membership with permission Member is added and
    [addedToGroup] grows by one, without one none. *)
Theorem unknown_email_creates_user (fault : Fault) (team : Team) (tid aid : string)
    (dg : option Group) (processed : gset string) (pu : SyncUser)
    (st : Store) (r : UserSyncerResult) :
  let user :=
    {| user_id := nextId st; user_teamId := tid; user_email := Some (su_email pu);
       user_name := su_name pu;
       user_avatarUrl := if Js.truthy_opt (su_avatarUrl pu) then su_avatarUrl pu else None;
       user_role := default Member (team_defaultUserRole team);
       user_suspendedAt := None; user_suspendedById := None;
       user_lastActiveAt := None |} in
  let st1 := bump_idSupply (set_Users st (Users st ++ [user])) in
  let auth :=
    {| ua_id := nextId st1; ua_providerId := su_providerId pu;
       ua_authenticationProviderId := aid; ua_userId := user_id user;
       ua_scopes := [] |} in
  let st2 := bump_idSupply (set_UserAuthentications st1 (UserAuthentications st1 ++ [auth])) in
  let membership g :=
    {| gu_userId := user_id user; gu_groupId := group_id g;
       gu_permission := GroupMember |} in
  su_providerId pu ∉ processed ->
  su_email pu <> "" ->
  Js.is_ascii (su_email pu) = true ->
  no_escape (su_email pu) = true ->
  ascii_emails tid st ->
  (forall u, In u (Users st) -> user_teamId u = tid ->
             iLike (user_email u) (su_email pu) = false) ->
  fault st (UserCreate user) = None ->
  fault st1 (UserAuthenticationCreate auth) = None ->
  (forall g, dg = Some g -> fault st2 (GroupUserCreate (membership g)) = None) ->
  phase2_body fault team tid aid dg processed pu st r
  = (Ok tt,
     match dg with
     | Some g => set_GroupUsers st2 (GroupUsers st2 ++ [membership g])
     | None => st2
     end,
     add_counts r 1 0 0 0 0 (if is_some dg then 1 else 0)).
Proof.
  intros user st1 auth st2 membership Hp He _ _ _ Hmiss Hu Ha Hg.
  assert (User_findOne_iLike st tid (su_email pu) = None) as Hfind.
  { unfold User_findOne_iLike. apply find_none_intro. intros u Hin.
    destruct (String.eqb_spec (user_teamId u) tid) as [Ht | Ht]; [| reflexivity].
    simpl. apply Hmiss; assumption. }
  unfold phase2_body. destruct (decide _); [contradiction |].
  assert (Js.truthy (su_email pu) = true) as ->.
  { unfold Js.truthy. destruct (String.eqb_spec (su_email pu) ""); [contradiction | reflexivity]. }
  simpl. unfold try_catch, bind at 1, read. rewrite Hfind.
  unfold phase2_create, transaction, bind, User_create, UserAuthentication_create,
    GroupUser_create, write, incr_created, incr_addedToGroup, update_result, ret.
  fold user. rewrite Hu. fold st1. cbv beta iota. fold auth. rewrite Ha. fold st2.
  destruct dg as [g |]; cbv beta iota.
  - fold (membership g). rewrite (Hg g eq_refl).
    unfold add_counts. simpl. repeat f_equal; lia.
  - unfold add_counts. simpl. repeat f_equal; lia.
Qed.

(** The user "ab@example.com" and the entry "a_b@example.com": the pattern
    asks for one character between "a" and "b", the lookup finds nobody, and
    a second user is created and added to the default group. *)
Lemma unknown_email_creates_user_witness :
  phase2_body no_fault Scenario.T "T" "P" (Some Scenario.G) ∅
    (Scenario.entry "g1" "a_b@example.com" "A")
    (Scenario.directory [Scenario.user "u" "ab@example.com" "Ab" None] [])
    initial_result
  = (Ok tt,
     {| Teams := [Scenario.T]; AuthenticationProviders := [Scenario.P];
        Users := [Scenario.user "u" "ab@example.com" "Ab" None;
                  Scenario.user "id-0" "a_b@example.com" "A" None];
        UserAuthentications := [Scenario.auth "id-1" "g1" "id-0"];
        Groups := [Scenario.G];
        GroupUsers := [{| gu_userId := "id-0"; gu_groupId := "G";
                          gu_permission := GroupMember |}];
        idSupply := 2 |},
     add_counts initial_result 1 0 0 0 0 1).
Proof.
  rewrite (unknown_email_creates_user no_fault Scenario.T "T" "P" (Some Scenario.G) ∅
             (Scenario.entry "g1" "a_b@example.com" "A")
             (Scenario.directory [Scenario.user "u" "ab@example.com" "Ab" None] [])
             initial_result).
  - reflexivity.
  - apply not_elem_of_empty.
  - discriminate.
  - reflexivity.
  - reflexivity.
  - intros u e [<- | []] _ [= <-]. reflexivity.
  - intros u [<- | []] _. reflexivity.
  - reflexivity.
  - reflexivity.
  - intros g _. reflexivity.
Defined.

Section SameErrors.

Variable fault : Fault.
Variable errs : list string.

Lemma same_errors_phase2_link (aid : string) (u : User) (pu : SyncUser) :
  keeps (fun _ => True) (fun r => errors r = errs) (phase2_link fault aid u pu).
Proof.
  keeps_walk;
    first [ apply keeps_write; auto
          | intros st r HI HJ; unfold UserAuthentication_create;
            destruct (fault st _); simpl; auto ].
Qed.

Lemma same_errors_phase2_create (team : Team) (tid aid : string) (dg : option Group)
    (pu : SyncUser) :
  keeps (fun _ => True) (fun r => errors r = errs)
    (phase2_create fault team tid aid dg pu).
Proof.
  keeps_walk;
    first [ apply keeps_write; auto
          | intros st r HI HJ; unfold UserAuthentication_create;
            destruct (fault st _); simpl; auto
          | intros st r HI HJ; unfold User_create;
            destruct (fault st _); simpl; auto ].
Qed.

End SameErrors.

(** X6: in Phase 2 every entry is all or nothing.  Either nothing is added
    to [errors], or exactly one error is added and the tables are exactly as
    before the entry: the transaction of a refused write is rolled back, and
    an entry without email is skipped.  The loop always goes on. *)
Theorem phase2_entry_all_or_nothing (fault : Fault) (team : Team) (tid aid : string)
    (dg : option Group) (processed : gset string) (pu : SyncUser)
    (st : Store) (r : UserSyncerResult) :
  let out := phase2_body fault team tid aid dg processed pu st r in
  out.1.1 = Ok tt
  /\ (errors out.2 = errors r
      \/ (out.1.2 = st
          /\ exists msg,
               errors out.2 = (errors r ++ [msg])%list
               /\ (msg = "Skipping user " ++ su_providerId pu ++ ": no email address"
                   \/ exists reason,
                        msg = "Failed to create user " ++ su_email pu ++ ": " ++ reason))).
Proof.
  intros out. subst out. unfold phase2_body.
  destruct (decide _); [split; [reflexivity | left; reflexivity] |].
  destruct (negb _); [split; [reflexivity | right; split; [reflexivity |]]; eauto |].
  unfold try_catch, bind, read.
  set (m := match User_findOne_iLike st tid (su_email pu) with
            | Some u => phase2_link fault aid u pu
            | None => phase2_create fault team tid aid dg pu
            end).
  assert (keeps (fun _ => True) (fun r' => errors r' = errors r) m) as K.
  { subst m. destruct (User_findOne_iLike st tid (su_email pu)).
    - apply same_errors_phase2_link.
    - apply same_errors_phase2_create. }
  assert (forall msg st1 r1, m st r = (Throw msg, st1, r1) -> st1 = st) as Hroll.
  { subst m. intros msg st1 r1.
    destruct (User_findOne_iLike st tid (su_email pu));
      unfold phase2_link, phase2_create, transaction;
      match goal with |- context [match ?c st r with _ => _ end] =>
        destruct (c st r) as [[[[] | msg'] st2] r2] end;
      intros [=]; congruence. }
  specialize (K st r I eq_refl). destruct (m st r) as [[[[] | msg] st1] r1] eqn:E.
  - simpl in *. split; [reflexivity | left; apply K].
  - simpl in *. split; [reflexivity |]. right.
    rewrite (Hroll msg st1 r1 eq_refl). split; [reflexivity |].
    eexists. destruct K as [_ ->]. split; [reflexivity |]. right. eauto.
Qed.

(** X7: in Phase 2, for emails in ASCII, an unmarked entry whose email, as a
    pattern of ILIKE, finds a user of the team creates no user, on a
    database that accepts the writes: it adds one authentication that links
    the entry's provider id to the user the lookup found, applies the
    attribute diff and clears the suspension of a suspended user.  The diff
    holds the email exactly when the two emails differ up to case, which a
    wild card in the entry's email allows; otherwise all emails stay.
    [created] does not move; [updated] grows by one if attributes differ and
    [reactivated] by one if the user was suspended. *)
Theorem known_email_links_user (fault : Fault) (team : Team) (tid aid : string)
    (dg : option Group) (processed : gset string) (pu : SyncUser) (u : User)
    (st : Store) (r : UserSyncerResult) :
  let auth :=
    {| ua_id := nextId st; ua_providerId := su_providerId pu;
       ua_authenticationProviderId := aid; ua_userId := user_id u;
       ua_scopes := [] |} in
  let st1 := bump_idSupply (set_UserAuthentications st (UserAuthentications st ++ [auth])) in
  let changes := updates_for u pu in
  let differ := has_keys changes in
  let was_suspended := is_some (user_suspendedAt u) in
  let st2 := if differ
             then set_Users st1 (update_row (user_id u) changes (Users st1))
             else st1 in
  let st3 := if was_suspended
             then set_Users st2 (update_row (user_id u) reactivation (Users st2))
             else st2 in
  su_providerId pu ∉ processed ->
  su_email pu <> "" ->
  Js.is_ascii (su_email pu) = true ->
  ascii_emails tid st ->
  User_findOne_iLike st tid (su_email pu) = Some u ->
  fault st (UserAuthenticationCreate auth) = None ->
  (differ = true -> fault st1 (UserUpdate (user_id u) changes) = None) ->
  (was_suspended = true -> fault st2 (UserUpdate (user_id u) reactivation) = None) ->
  In u (Users st) /\ user_teamId u = tid
  /\ iLike (user_email u) (su_email pu) = true
  /\ ch_email changes
     = (if opt_string_eqb (Js.toLowerCase <$> user_email u)
             (Some (Js.toLowerCase (su_email pu)))
        then None else Some (su_email pu))
  /\ exists r',
       phase2_body fault team tid aid dg processed pu st r = (Ok tt, st3, r')
       /\ UserAuthentications st3 = (UserAuthentications st ++ [auth])%list
       /\ map user_id (Users st3) = map user_id (Users st)
       /\ (ch_email changes = None ->
           map user_email (Users st3) = map user_email (Users st))
       /\ GroupUsers st3 = GroupUsers st
       /\ created r' = created r
       /\ updated r' = (updated r + if differ then 1 else 0)%nat
       /\ reactivated r' = (reactivated r + if was_suspended then 1 else 0)%nat
       /\ suspended r' = suspended r /\ addedToGroup r' = addedToGroup r
       /\ errors r' = errors r.
Proof.
  intros auth st1 changes differ was_suspended st2 st3 Hp He _ _ Hfind Ha Hupd Hre.
  assert (In u (Users st) /\ user_teamId u = tid /\ iLike (user_email u) (su_email pu) = true)
    as (Hin & Ht & Hl).
  { unfold User_findOne_iLike in Hfind. apply find_some in Hfind as [Hin H].
    apply andb_true_iff in H as [H1 H2]. apply String.eqb_eq in H1. auto. }
  assert (Js.truthy (su_email pu) = true) as Htr.
  { unfold Js.truthy. destruct (String.eqb_spec (su_email pu) ""); [contradiction | reflexivity]. }
  split; [exact Hin |]. split; [exact Ht |]. split; [exact Hl |].
  split.
  { subst changes. unfold updates_for. cbn [ch_email]. rewrite Htr. simpl.
    destruct (opt_string_eqb _ _); reflexivity. }
  rewrite (phase2_body_link fault team tid aid dg processed pu st r u Hp Htr Hfind).
  unfold try_catch, phase2_link, transaction, updateUserIfNeeded.
  fold changes. fold differ. fold was_suspended.
  unfold bind, UserAuthentication_create, User_update, write, incr_updated,
    incr_unchanged, incr_reactivated, update_result, ret.
  fold auth. rewrite Ha. fold st1. cbv beta iota.
  assert ((ch_email changes = None ->
           map user_email (Users st2) = map user_email (Users st))
          /\ map user_id (Users st2) = map user_id (Users st)) as [Hm2 Hi2].
  { subst st2. destruct differ; simpl; [| split; reflexivity].
    rewrite update_row_ids. split; [| reflexivity].
    intros Hce. rewrite update_row_emails by exact Hce. reflexivity. }
  assert ((ch_email changes = None ->
           map user_email (Users st3) = map user_email (Users st))
          /\ map user_id (Users st3) = map user_id (Users st)
          /\ UserAuthentications st3 = (UserAuthentications st ++ [auth])%list
          /\ GroupUsers st3 = GroupUsers st) as (Hm3 & Hi3 & Hua & Hgu).
  { subst st3. destruct was_suspended; simpl.
    - rewrite update_row_ids.
      split_and!; try assumption; try (subst st2; destruct differ; reflexivity).
      intros Hce. rewrite update_row_emails by reflexivity. exact (Hm2 Hce).
    - split_and!; try assumption; subst st2; destruct differ; reflexivity. }
  destruct differ eqn:Ed; destruct was_suspended eqn:Es; cbv beta iota.
  all: try rewrite (Hupd eq_refl); cbv beta iota.
  all: fold st2; try rewrite (Hre eq_refl); cbv beta iota.
  all: eexists; split; [reflexivity |]; simpl.
  all: split_and!; try assumption; try lia; reflexivity.
Qed.

(** The invited user "axb@example.com" and the entry "a_b@example.com": the
    underscore is a wild card, the lookup finds the user, and the link
    replaces the stored email. *)
Lemma known_email_links_user_witness :
  let u := Scenario.user "u" "axb@example.com" "Test" None in
  let pu := Scenario.entry "g1" "a_b@example.com" "Test" in
  let st := Scenario.directory [u] [] in
  In u (Users st) /\ user_teamId u = "T"
  /\ iLike (user_email u) (su_email pu) = true
  /\ ch_email (updates_for u pu) = Some "a_b@example.com"
  /\ exists r',
       phase2_body no_fault Scenario.T "T" "P" None ∅ pu st initial_result
       = (Ok tt,
          {| Teams := [Scenario.T]; AuthenticationProviders := [Scenario.P];
             Users := [Scenario.user "u" "a_b@example.com" "Test" None];
             UserAuthentications := [Scenario.auth "id-0" "g1" "u"];
             Groups := [Scenario.G]; GroupUsers := []; idSupply := 1 |}, r')
       /\ created r' = 0%nat /\ updated r' = 1%nat /\ reactivated r' = 0%nat
       /\ suspended r' = 0%nat /\ addedToGroup r' = 0%nat /\ errors r' = [].
Proof.
  intros u pu st.
  destruct (known_email_links_user no_fault Scenario.T "T" "P" None ∅ pu u st
              initial_result)
    as (Hin & Ht & Hlike & Hch & r' & E & _ & _ & _ & _ & Hc & Hu & Hr & Hs & Ha & He).
  - apply not_elem_of_empty.
  - discriminate.
  - reflexivity.
  - intros v e [<- | []] _ [= <-]. reflexivity.
  - vm_compute. reflexivity.
  - reflexivity.
  - intros _. reflexivity.
  - intros _. reflexivity.
  - split; [exact Hin |]. split; [exact Ht |]. split; [exact Hlike |].
    split; [exact Hch |]. exists r'.
    split; [etransitivity; [exact E |]; reflexivity |].
    split; [exact Hc |]. split; [exact Hu |]. split; [exact Hr |].
    split; [exact Hs |]. split; [exact Ha | exact He].
Defined.

(** *** Users of other teams *)

Lemma show_nat_inj (n m : nat) : Js.show_nat n = Js.show_nat m -> n = m.
Proof.
  unfold Js.show_nat. intros H.
  assert (Some (Nat.to_uint n) = Some (Nat.to_uint m)) as E.
  { rewrite <- !NilEmpty.usu. rewrite H. reflexivity. }
  injection E as E. rewrite <- (DecimalNat.Unsigned.of_to n), <- (DecimalNat.Unsigned.of_to m).
  rewrite E. reflexivity.
Qed.

Lemma nextId_inj (n m : nat) : "id-" ++ Js.show_nat n = "id-" ++ Js.show_nat m -> n = m.
Proof. intros H. apply show_nat_inj. simpl in H. injection H as H. exact H. Qed.

Lemma NoDup_map_inj {A B : Type} (f : A -> B) (l : list A) (a b : A) :
  NoDup (map f l) -> In a l -> In b l -> f a = f b -> a = b.
Proof.
  induction l as [| x l IH]; intros Hnd Ha Hb E; [destruct Ha |].
  simpl in Hnd. apply NoDup_cons in Hnd as [Hx Hnd].
  destruct Ha as [-> | Ha], Hb as [-> | Hb].
  - reflexivity.
  - exfalso. apply Hx. rewrite E. apply list_elem_of_In, in_map, Hb.
  - exfalso. apply Hx. rewrite <- E. apply list_elem_of_In, in_map, Ha.
  - apply IH; assumption.
Qed.

Lemma filter_update_row_outside (tid uid : string) (c : UserChanges) (us : list User) :
  ~ In uid (map user_id (filter (fun u => user_teamId u <> tid) us)) ->
  filter (fun u => user_teamId u <> tid) (update_row uid c us)
  = filter (fun u => user_teamId u <> tid) us.
Proof.
  induction us as [| u us IH]; intros H; [reflexivity |].
  simpl. destruct (decide (user_teamId u <> tid)) as [Ho | Ho].
  - rewrite (filter_cons_True _ u us Ho) in H |- *. simpl in H.
    destruct (String.eqb_spec (user_id u) uid) as [E | E]; [tauto |].
    rewrite filter_cons_True by exact Ho. f_equal. apply IH. tauto.
  - rewrite (filter_cons_False _ u us Ho) in H |- *.
    rewrite filter_cons_False.
    + apply IH, H.
    + destruct (String.eqb _ _); exact Ho.
Qed.

Lemma wf_keys_update (st : Store) (uid : string) (c : UserChanges) :
  wf_keys st -> wf_keys (set_Users st (update_row uid c (Users st))).
Proof. unfold wf_keys. simpl. rewrite update_row_ids. auto. Qed.

Lemma wf_keys_create (st : Store) (row : User) :
  user_id row = nextId st ->
  wf_keys st -> wf_keys (bump_idSupply (set_Users st (Users st ++ [row]))).
Proof.
  intros Hid [Hnd Hfresh]. unfold wf_keys. simpl. rewrite map_app. simpl. rewrite Hid.
  split.
  - apply NoDup_app. split_and!.
    + exact Hnd.
    + intros x Hx Hx'. apply list_elem_of_In in Hx.
      apply list_elem_of_In in Hx'. destruct Hx' as [<- | []].
      exact (Hfresh (idSupply st) (le_n _) Hx).
    + apply NoDup_singleton.
  - intros n Hn Hin. apply in_app_iff in Hin as [Hin | [E | []]].
    + apply (Hfresh n); [lia | exact Hin].
    + apply nextId_inj in E. lia.
Qed.

Lemma wf_keys_bump (st : Store) (rows : list UserAuthentication) :
  wf_keys st -> wf_keys (bump_idSupply (set_UserAuthentications st rows)).
Proof.
  intros [Hnd Hfresh]. unfold wf_keys. simpl. split; [exact Hnd |].
  intros n Hn. apply Hfresh. lia.
Qed.

(** A user of the team has a key that no user outside the team has. *)
Lemma team_key_not_outside (tid : string) (others : list User) (st : Store) (u : User) :
  isolated tid others st -> In u (Users st) -> user_teamId u = tid ->
  ~ In (user_id u) (map user_id others).
Proof.
  intros [[Hnd _] <-] Hin Ht Hk. apply in_map_iff in Hk as [u' [E Hu']].
  apply list_elem_of_In, list_elem_of_filter in Hu' as [Ho Hu'].
  apply list_elem_of_In in Hu'.
  assert (u' = u) as -> by (apply (NoDup_map_inj user_id (Users st)); assumption).
  contradiction.
Qed.

(** A read hands on a value of tables that satisfy the invariant. *)
Lemma keeps_bind_read_in {A B : Type} (Inv : Store -> Prop)
    (Rep : UserSyncerResult -> Prop) (q : Store -> A) (k : A -> M B) :
  (forall st, Inv st -> keeps Inv Rep (k (q st))) -> keeps Inv Rep (bind (read q) k).
Proof. intros Hk st r HI HJ. unfold bind, read. apply Hk; assumption. Qed.

(** The user joined to a row of [findAll] is a user of the team. *)
Lemma findAll_joined (st : Store) (aid tid : string) (auth : UserAuthentication)
    (user : User) :
  In (auth, Some user) (UserAuthentication_findAll st aid tid) ->
  In user (Users st) /\ user_teamId user = tid.
Proof.
  unfold UserAuthentication_findAll. intros H.
  apply list_elem_of_In, list_elem_of_omap in H as [a [_ H]].
  destruct (String.eqb _ _); [| discriminate].
  destruct (joined_user st tid a) as [u |] eqn:E; [| discriminate].
  injection H as _ <-. unfold joined_user in E. apply find_some in E as [Hin H].
  apply andb_true_iff in H as [_ H]. apply String.eqb_eq in H. auto.
Qed.

Lemma find_app_old {A : Type} (f : A -> bool) (old new : list A) (x y : A) :
  find f (old ++ new)%list = Some x -> In y old -> f y = true -> In x old.
Proof.
  induction old as [| a old IH]; intros Hf Hy Hfy; [destruct Hy |].
  simpl in Hf. destruct (f a) eqn:Ea.
  - injection Hf as <-. left. reflexivity.
  - right. destruct Hy as [-> | Hy]; [congruence |]. apply IH; assumption.
Qed.

Lemma find_by_key (l : list User) (x : User) :
  NoDup (map user_id l) -> In x l ->
  find (fun u => String.eqb (user_id u) (user_id x)) l = Some x.
Proof.
  intros Hnd Hin. destruct (find _ l) as [y |] eqn:E.
  - apply find_some in E as [Hy E]. apply String.eqb_eq in E.
    f_equal. apply (NoDup_map_inj user_id l); assumption.
  - pose proof (find_none _ _ E x Hin) as H. simpl in H. rewrite String.eqb_refl in H.
    discriminate.
Qed.

(** What a row of [findAll] holds. *)
Lemma findAll_row (st : Store) (aid tid : string) (auth : UserAuthentication)
    (user : User) :
  In (auth, Some user) (UserAuthentication_findAll st aid tid) ->
  In auth (UserAuthentications st)
  /\ ua_authenticationProviderId auth = aid
  /\ In user (Users st) /\ user_id user = ua_userId auth /\ user_teamId user = tid.
Proof.
  unfold UserAuthentication_findAll. intros H.
  apply list_elem_of_In, list_elem_of_omap in H as [a [Ha H]].
  destruct (String.eqb_spec (ua_authenticationProviderId a) aid) as [Ea | Ea];
    [| discriminate].
  destruct (joined_user st tid a) as [u |] eqn:E; [| discriminate].
  injection H as <- <-. unfold joined_user in E. apply find_some in E as [Hin H].
  apply andb_true_iff in H as [H1 H2].
  apply String.eqb_eq in H1. apply String.eqb_eq in H2.
  split_and!; [apply list_elem_of_In, Ha | assumption ..].
Qed.

Lemma keeps_for_each_in {A : Type} (Inv : Store -> Prop) (Rep : UserSyncerResult -> Prop)
    (l : list A) (body : A -> M unit) :
  (forall x, In x l -> keeps Inv Rep (body x)) -> keeps Inv Rep (for_each l body).
Proof.
  induction l as [| x l IH]; intros Hb; cbn [for_each].
  - apply keeps_ret.
  - apply keeps_bind; [apply Hb; left; reflexivity |].
    intros _. apply IH. intros y Hy. apply Hb. right. exact Hy.
Qed.

Lemma update_row_other (uid : string) (c : UserChanges) (us : list User) (x : User) :
  user_id x <> uid -> In x us -> In x (update_row uid c us).
Proof.
  intros Hne Hin. apply in_map_iff. exists x. split; [| exact Hin].
  destruct (String.eqb_spec (user_id x) uid); [contradiction | reflexivity].
Qed.

Lemma update_row_target (uid : string) (c : UserChanges) (us : list User) (x : User) :
  user_id x = uid -> In x us -> In (apply_changes c x) (update_row uid c us).
Proof.
  intros He Hin. apply in_map_iff. exists x. split; [| exact Hin].
  rewrite He, String.eqb_refl. reflexivity.
Qed.

Lemma find_by_pk {A : Type} (key : A -> string) (l : list A) (x : A) :
  In x l -> find (fun y => String.eqb (key y) (key x)) l <> None.
Proof.
  intros Hin E. pose proof (find_none _ _ E x Hin) as H. simpl in H.
  rewrite String.eqb_refl in H. discriminate.
Qed.

(** A row of [findAll] for every authentication of a user of the team. *)
Lemma findAll_has_row (st : Store) (aid tid : string) (auth : UserAuthentication)
    (u : User) :
  wf_keys st -> In auth (UserAuthentications st) ->
  ua_authenticationProviderId auth = aid ->
  In u (Users st) -> user_teamId u = tid -> ua_userId auth = user_id u ->
  In (auth, Some u) (UserAuthentication_findAll st aid tid).
Proof.
  intros [Hnd _] Hauth Haid Hu Ht Hk. unfold UserAuthentication_findAll.
  apply list_elem_of_In, list_elem_of_omap. exists auth.
  split; [apply list_elem_of_In, Hauth |].
  rewrite Haid, String.eqb_refl.
  assert (joined_user st tid auth = Some u) as ->; [| reflexivity].
  unfold joined_user. destruct (find _ (Users st)) as [v |] eqn:E.
  - apply find_some in E as [Hv E]. apply andb_true_iff in E as [E _].
    apply String.eqb_eq in E. f_equal.
    apply (NoDup_map_inj user_id (Users st)); [assumption .. | congruence].
  - pose proof (find_none _ _ E u Hu) as H. simpl in H.
    rewrite Hk, Ht, !String.eqb_refl in H. discriminate.
Qed.

Section Isolation.

Variable fault : Fault.
Variable now : Z.
Variable tid : string.
Variable others : list User.

Lemma isolated_User_update (uid : string) (c : UserChanges) :
  ~ In uid (map user_id others) ->
  keeps (isolated tid others) any_report (User_update fault uid c).
Proof.
  intros Hk. apply keeps_write. intros st [Hwf Ho].
  split; [apply wf_keys_update, Hwf |]. unfold users_outside in *. simpl.
  rewrite filter_update_row_outside; [exact Ho | rewrite Ho; exact Hk].
Qed.

Lemma isolated_User_create (mk : string -> User) :
  (forall key, user_id (mk key) = key /\ user_teamId (mk key) = tid) ->
  keeps (isolated tid others) any_report (User_create fault mk).
Proof.
  intros Hmk st r [Hwf Ho] HJ. unfold User_create.
  destruct (fault st _); simpl; [unfold isolated; auto |].
  split; [| exact HJ]. destruct (Hmk (nextId st)) as [Hid Ht].
  split; [apply wf_keys_create; assumption |]. unfold users_outside in *. simpl.
  rewrite filter_app, filter_cons_False, filter_nil, app_nil_r; [exact Ho |].
  intros H. apply H, Ht.
Qed.

Lemma isolated_UserAuthentication_create (mk : string -> UserAuthentication) :
  keeps (isolated tid others) any_report (UserAuthentication_create fault mk).
Proof.
  intros st r [Hwf Ho] HJ. unfold UserAuthentication_create.
  destruct (fault st _); simpl; [unfold isolated; auto |].
  split; [| exact HJ]. split; [apply wf_keys_bump, Hwf | exact Ho].
Qed.

Lemma isolated_GroupUser_create (row : GroupUser) :
  keeps (isolated tid others) any_report (GroupUser_create fault row).
Proof. apply keeps_write. intros st H. exact H. Qed.

Lemma isolated_phase1_body (m : gmap string SyncUser) (processed : gset string)
    (auth : UserAuthentication) (user : User) :
  ~ In (user_id user) (map user_id others) ->
  keeps (isolated tid others) any_report
    (phase1_body fault now m processed (auth, Some user)).
Proof. intros Hk. simpl. keeps_walk; apply isolated_User_update, Hk. Qed.

Lemma isolated_phase1 (m : gmap string SyncUser)
    (l : list (UserAuthentication * option User)) (s : gset string) :
  (forall auth user, In (auth, Some user) l -> ~ In (user_id user) (map user_id others)) ->
  keeps (isolated tid others) any_report (for_each_with l s (phase1_body fault now m)).
Proof.
  revert s. induction l as [| [auth joined] l IH]; intros s Hl; simpl for_each_with.
  - apply keeps_ret.
  - apply keeps_bind.
    + destruct joined as [user |]; [| apply keeps_ret].
      apply isolated_phase1_body, (Hl auth). left. reflexivity.
    + intros s'. apply IH. intros a u Hin. apply (Hl a). right. exact Hin.
Qed.

Lemma isolated_phase2_body (team : Team) (aid : string) (dg : option Group)
    (processed : gset string) (pu : SyncUser) :
  keeps (isolated tid others) any_report
    (phase2_body fault team tid aid dg processed pu).
Proof.
  unfold phase2_body. destruct (decide _); [apply keeps_ret |].
  destruct (negb _); [apply keeps_update_result; auto |].
  apply keeps_try_catch; [| intros msg; apply keeps_update_result; auto].
  apply keeps_bind_read_in. intros st HI.
  destruct (User_findOne_iLike st tid (su_email pu)) as [u |] eqn:E.
  - assert (~ In (user_id u) (map user_id others)) as Hk.
    { unfold User_findOne_iLike in E. apply find_some in E as [Hin H].
      apply andb_true_iff in H as [H _]. apply String.eqb_eq in H.
      exact (team_key_not_outside tid others st u HI Hin H). }
    keeps_walk;
      first [ apply isolated_User_update, Hk
            | apply isolated_UserAuthentication_create ].
  - keeps_walk;
      first [ apply isolated_User_create; intros key; split; reflexivity
            | apply isolated_UserAuthentication_create
            | apply isolated_GroupUser_create ].
Qed.

Lemma isolated_userSyncer_body (props : Props) :
  teamId props = tid ->
  keeps (isolated tid others) any_report (userSyncer_body fault now props).
Proof.
  intros Et. unfold userSyncer_body. rewrite Et.
  destruct (_ =? _)%nat; [apply keeps_update_result; auto |].
  apply keeps_bind; [apply keeps_read |].
  intros [team |]; [| apply keeps_update_result; auto].
  apply keeps_bind; [apply keeps_read |].
  intros [ap |]; [| apply keeps_update_result; auto].
  apply keeps_bind; [apply keeps_read |]. intros dg.
  apply keeps_bind_read_in. intros st HI.
  apply keeps_bind.
  - apply isolated_phase1. intros auth user Hin.
    apply findAll_joined in Hin as [Hu Ht].
    exact (team_key_not_outside _ others st user HI Hu Ht).
  - intros processed. apply keeps_for_each. intros. apply isolated_phase2_body.
Qed.

End Isolation.

Lemma userSyncer_isolated (fault : Fault) (now : Z) (props : Props) (st : Store) :
  wf_keys st ->
  wf_keys (snd (userSyncer fault now props st))
  /\ users_outside (teamId props) (snd (userSyncer fault now props st))
     = users_outside (teamId props) st.
Proof.
  intros Hwf. destruct (userSyncer_returns fault now props st) as [r [st' [E Eb]]].
  rewrite E.
  pose proof (isolated_userSyncer_body fault now (teamId props)
                (users_outside (teamId props) st) props eq_refl st initial_result
                (conj Hwf eq_refl) I) as H.
  rewrite Eb in H. apply H.
Qed.

(** X8: a run for one team leaves the users of every other team exactly as
    they are, when the primary keys of the users are unique and the keys the
    database gives out are new; the keys stay so. *)
Theorem userSyncer_leaves_other_teams (fault : Fault) (now : Z) (props : Props)
    (st : Store) :
  wf_keys st ->
  wf_keys (snd (userSyncer fault now props st))
  /\ users_outside (teamId props) (snd (userSyncer fault now props st))
     = users_outside (teamId props) st.
Proof. apply userSyncer_isolated. Qed.

Lemma userSyncer_leaves_other_teams_witness :
  users_outside "T"
    (snd (Scenario.reconcile [Scenario.entry "g9" "new@example.com" "New"]
            (Scenario.directory
               [Scenario.user "u" "ann@example.com" "Ann" None;
                {| user_id := "v"; user_teamId := "other";
                   user_email := Some "new@example.com"; user_name := "Nobody";
                   user_avatarUrl := None; user_role := Member;
                   user_suspendedAt := None; user_suspendedById := None;
                   user_lastActiveAt := None |}]
               [Scenario.auth "a" "kc-old" "u"])))
  = [{| user_id := "v"; user_teamId := "other";
        user_email := Some "new@example.com"; user_name := "Nobody";
        user_avatarUrl := None; user_role := Member;
        user_suspendedAt := None; user_suspendedById := None;
        user_lastActiveAt := None |}].
Proof.
  unfold Scenario.reconcile.
  refine (eq_trans
            (proj2 (userSyncer_leaves_other_teams no_fault 1000
               (Scenario.props [Scenario.entry "g9" "new@example.com" "New"])
               (Scenario.directory
                  [Scenario.user "u" "ann@example.com" "Ann" None;
                   {| user_id := "v"; user_teamId := "other";
                      user_email := Some "new@example.com"; user_name := "Nobody";
                      user_avatarUrl := None; user_role := Member;
                      user_suspendedAt := None; user_suspendedById := None;
                      user_lastActiveAt := None |}]
                  [Scenario.auth "a" "kc-old" "u"]) _)) _).
  - split.
    + simpl. apply NoDup_cons. split; [| apply NoDup_singleton].
      intros H. apply list_elem_of_singleton in H. discriminate H.
    + intros n _ [H | [H | []]]; discriminate H.
  - vm_compute. reflexivity.
Defined.

(** *** Everybody leaves a trace in the report *)

Ltac run_engine :=
  unfold phase1_match, phase1_orphan, phase2_link, phase2_create, updateUserIfNeeded,
    try_catch, transaction, bind, read, User_update, User_create,
    UserAuthentication_create, GroupUser_create, write, incr_created, incr_updated,
    incr_suspended, incr_unchanged, incr_reactivated, incr_addedToGroup, push_error,
    update_result, ret.

Ltac split_cases :=
  repeat match goal with
         | |- context [match ?x with _ => _ end] =>
             match x with
             | context [match _ with _ => _ end] => fail 1
             | _ => destruct x eqn:?
             end
         end.

Lemma phase1_body_accounted (fault : Fault) (now : Z) (m : gmap string SyncUser)
    (s : gset string) (auth : UserAuthentication) (user : User) (st : Store)
    (r : UserSyncerResult) :
  exists st' r',
    phase1_body fault now m s (auth, Some user) st r
    = (Ok (s ∪ {[ ua_providerId auth ]}), st', r')
    /\ (accounted r + 1 <= accounted r' <= accounted r + 2)%nat.
Proof.
  simpl. run_engine. split_cases.
  all: simpl; eexists _, _; (split; [reflexivity |]).
  all: unfold accounted; simpl; rewrite ?length_app; simpl; lia.
Qed.

Lemma findAll_rows_joined (st : Store) (aid tid : string) :
  Forall (fun row => is_some row.2 = true) (UserAuthentication_findAll st aid tid).
Proof.
  apply Forall_forall. intros [auth joined] H.
  unfold UserAuthentication_findAll in H.
  apply list_elem_of_omap in H as [a [_ H]].
  destruct (String.eqb _ _); [| discriminate].
  destruct (joined_user st tid a); [| discriminate].
  injection H as <- <-. reflexivity.
Qed.

Lemma phase1_accounted (fault : Fault) (now : Z) (m : gmap string SyncUser)
    (l : list (UserAuthentication * option User)) (s : gset string) (st : Store)
    (r : UserSyncerResult) :
  Forall (fun row => is_some row.2 = true) l ->
  exists s' st' r',
    for_each_with l s (phase1_body fault now m) st r = (Ok s', st', r')
    /\ (forall p, p ∈ s' <-> p ∈ s \/ p ∈ map (fun row => ua_providerId row.1) l)
    /\ (accounted r + length l <= accounted r' <= accounted r + 2 * length l)%nat.
Proof.
  revert s st r. induction l as [| [auth joined] l IH]; intros s st r Hl.
  - exists s, st, r. split; [reflexivity |]. split; [| simpl; lia].
    intros p. split; [auto |]. intros [H | H]; [exact H |]. inversion H.
  - apply Forall_cons in Hl as [Hj Hl]. destruct joined as [user |]; [| discriminate].
    destruct (phase1_body_accounted fault now m s auth user st r) as (st1 & r1 & E & Hr1).
    destruct (IH (s ∪ {[ ua_providerId auth ]}) st1 r1 Hl) as (s' & st' & r' & E' & Hs & Hr).
    exists s', st', r'. split.
    + cbn [for_each_with]. unfold bind at 1. rewrite E. exact E'.
    + split; [| simpl length; lia].
      intros p. rewrite Hs. simpl map. rewrite elem_of_union, elem_of_singleton, elem_of_cons.
      simpl. tauto.
Qed.

Lemma phase2_body_accounted (fault : Fault) (team : Team) (tid aid : string)
    (dg : option Group) (processed : gset string) (pu : SyncUser) (st : Store)
    (r : UserSyncerResult) :
  exists st' r',
    phase2_body fault team tid aid dg processed pu st r = (Ok tt, st', r')
    /\ (su_providerId pu ∈ processed -> r' = r)
    /\ (su_providerId pu ∉ processed ->
        (accounted r + 1 <= accounted r' <= accounted r + 2)%nat).
Proof.
  unfold phase2_body. destruct (decide _) as [Hp | Hp].
  - exists st, r. split; [reflexivity |]. split; [reflexivity | contradiction].
  - run_engine. split_cases.
    all: simpl; eexists _, _; (split; [reflexivity |]); (split; [contradiction |]).
    all: intros _; unfold accounted; simpl; rewrite ?length_app; simpl; lia.
Qed.

Lemma phase2_accounted (fault : Fault) (team : Team) (tid aid : string)
    (dg : option Group) (processed : gset string) (l : list SyncUser) (st : Store)
    (r : UserSyncerResult) :
  exists st' r',
    for_each l (phase2_body fault team tid aid dg processed) st r = (Ok tt, st', r')
    /\ (accounted r + length (filter (fun pu => su_providerId pu ∉ processed) l)
        <= accounted r'
        <= accounted r + 2 * length (filter (fun pu => su_providerId pu ∉ processed) l))%nat.
Proof.
  revert st r. induction l as [| pu l IH]; intros st r.
  - exists st, r. split; [reflexivity | simpl; lia].
  - destruct (phase2_body_accounted fault team tid aid dg processed pu st r)
      as (st1 & r1 & E & Hin & Hout).
    destruct (IH st1 r1) as (st' & r' & E' & Hr).
    exists st', r'. split.
    + cbn [for_each]. unfold bind at 1. rewrite E. exact E'.
    + destruct (decide (su_providerId pu ∈ processed)) as [Hp | Hp].
      * rewrite filter_cons_False by (intros H; exact (H Hp)).
        rewrite (Hin Hp) in Hr. exact Hr.
      * rewrite filter_cons_True by exact Hp. specialize (Hout Hp). simpl length. lia.
Qed.

(** X9: nobody is passed over in silence.  When the team and the provider
    are found, every row of [existingAuths] and every entry of the snapshot
    whose provider id is on none of these rows adds one or two to the sum of
    [created], [updated], [suspended], [unchanged], [reactivated] and the
    number of errors. *)
Theorem everybody_is_accounted_for (fault : Fault) (now : Z) (props : Props)
    (st : Store) (team : Team) (ap : AuthenticationProvider) :
  users props <> [] ->
  Team_findByPk st (teamId props) = Some team ->
  AuthenticationProvider_findByPk st (authenticationProviderId props) = Some ap ->
  let rows := UserAuthentication_findAll st (authenticationProviderId props)
                (teamId props) in
  let fresh := filter (fun pu => su_providerId pu
                                 ∉ map (fun row => ua_providerId row.1) rows)
                 (users props) in
  exists r st',
    userSyncer fault now props st = (Ok r, st')
    /\ (length rows + length fresh <= accounted r
        <= 2 * (length rows + length fresh))%nat.
Proof.
  intros Hne Ht Ha rows fresh. unfold userSyncer, userSyncer_body.
  destruct (length (users props) =? 0)%nat eqn:El.
  { apply Nat.eqb_eq, nil_length_inv in El. contradiction. }
  unfold bind at 1, read at 1. rewrite Ht.
  unfold bind at 1, read at 1. rewrite Ha.
  unfold bind at 1, read at 1. unfold bind at 1, read at 1. fold rows.
  unfold phase1, phase2, bind.
  destruct (phase1_accounted fault now (providerUsersMap_of (users props)) rows ∅ st
              initial_result (findAll_rows_joined _ _ _)) as (s' & st1 & r1 & E1 & Hs & Hr1).
  rewrite E1.
  destruct (phase2_accounted fault team (teamId props) (authenticationProviderId props)
              (find_defaultGroup st (teamId props) (defaultGroupId props)
                 (defaultGroupName props)) s' (users props) st1 r1)
    as (st2 & r2 & E2 & Hr2).
  rewrite E2. exists r2, st2. split; [reflexivity |].
  assert (filter (fun pu => su_providerId pu ∉ s') (users props) = fresh) as Hf.
  { apply list_filter_iff. intros pu. rewrite Hs. rewrite elem_of_empty. tauto. }
  rewrite Hf in Hr2. change (accounted initial_result) with 0%nat in Hr1. lia.
Qed.

Lemma everybody_is_accounted_for_witness :
  exists r st',
    Scenario.reconcile Scenario.relinked_snapshot Scenario.relinked_directory = (Ok r, st')
    /\ (2 <= accounted r <= 4)%nat.
Proof.
  destruct (everybody_is_accounted_for no_fault 1000
              (Scenario.props Scenario.relinked_snapshot) Scenario.relinked_directory
              Scenario.T Scenario.P) as (r & st' & E & H).
  - discriminate.
  - reflexivity.
  - reflexivity.
  - exists r, st'. split; [exact E | exact H].
Defined.

(** *** The attribute diff *)

(** X10: the attribute diff converges: on a user to whom the diff against an
    entry has been applied, the diff against the same entry is empty. *)
Theorem attribute_diff_is_idempotent (u : User) (pu : SyncUser) :
  has_keys (updates_for (apply_changes (updates_for u pu) u) pu) = false.
Proof.
  unfold has_keys, updates_for, apply_changes. cbn [ch_name ch_email ch_avatarUrl
    ch_suspendedAt ch_suspendedById user_name user_email user_avatarUrl is_some].
  rewrite !orb_false_r.
  assert (forall b : bool, forall x : string,
            is_some (if b then Some x else None) = b) as Hif by (intros [] ?; reflexivity).
  apply orb_false_iff. split; [apply orb_false_iff; split |].
  - rewrite Hif. destruct (Js.truthy (su_name pu)); [| reflexivity]. simpl.
    destruct (String.eqb_spec (user_name u) (su_name pu)) as [E | E]; simpl.
    + rewrite E, String.eqb_refl. reflexivity.
    + rewrite String.eqb_refl. reflexivity.
  - rewrite Hif. destruct (Js.truthy (su_email pu)); [| reflexivity]. simpl.
    destruct (opt_string_eqb (Js.toLowerCase <$> user_email u)
                (Some (Js.toLowerCase (su_email pu)))) eqn:E; simpl.
    + rewrite E. reflexivity.
    + rewrite String.eqb_refl. reflexivity.
  - destruct (su_avatarUrl pu) as [a |]; [| reflexivity].
    destruct (Js.truthy a); [| reflexivity]. simpl.
    destruct (opt_string_eqb (user_avatarUrl u) (Some a)) eqn:E; simpl.
    + rewrite E. reflexivity.
    + destruct (negb (Js.truthy_opt (user_avatarUrl u))
                || Js.includes (default "" (user_avatarUrl u)) "keycloak")%bool eqn:E'.
      * simpl. rewrite String.eqb_refl. reflexivity.
      * rewrite E. simpl. rewrite E'. reflexivity.
Qed.

(** *** Avatars of the users' own *)

Lemma own_avatar_no_change (u : User) (pu : SyncUser) :
  own_avatar (user_avatarUrl u) = true -> ch_avatarUrl (updates_for u pu) = None.
Proof.
  unfold own_avatar, updates_for. cbn [ch_avatarUrl].
  destruct (user_avatarUrl u) as [a0 |]; [| discriminate].
  intros H. apply andb_true_iff in H as [Ht Hi]. apply negb_true_iff in Hi.
  destruct (su_avatarUrl pu) as [a |]; [| reflexivity].
  destruct (_ && _)%bool; [| reflexivity].
  simpl. rewrite Ht, Hi. reflexivity.
Qed.

(** An instance read from tables that keep the avatars leads to updates that
    spare them. *)
Lemma instance_spares_avatars (st0 st : Store) (inst : User) (pu : SyncUser) :
  avatars_kept st0 st -> In inst (Users st) ->
  spares_avatars st0 (user_id inst) (updates_for inst pu).
Proof.
  intros [[Hnd _] Hkept] Hin.
  destruct (ch_avatarUrl (updates_for inst pu)) as [a |] eqn:E; [| left; exact E].
  right. intros u Hu Hown Hk.
  destruct (Hkept u Hu Hown) as (u' & Hu' & Hid & Hav).
  assert (u' = inst) as ->.
  { apply (NoDup_map_inj user_id (Users st)); [assumption .. | congruence]. }
  rewrite <- Hav in Hown. rewrite (own_avatar_no_change inst pu Hown) in E. discriminate.
Qed.

Section Avatars.

Variable fault : Fault.
Variable now : Z.
Variable st0 : Store.

Lemma avatars_User_update (uid : string) (c : UserChanges) :
  spares_avatars st0 uid c ->
  keeps (avatars_kept st0) any_report (User_update fault uid c).
Proof.
  intros Hs. apply keeps_write. intros st [Hwf Hkept].
  split; [apply wf_keys_update, Hwf |]. simpl.
  intros u Hu Hown. destruct (Hkept u Hu Hown) as (u' & Hu' & Hid & Hav).
  exists (if String.eqb (user_id u') uid then apply_changes c u' else u').
  split; [apply in_map_iff; exists u'; auto |].
  destruct (String.eqb_spec (user_id u') uid) as [E | E]; [| auto].
  split; [exact Hid |]. simpl. destruct Hs as [Hc | Hne].
  - rewrite Hc. exact Hav.
  - exfalso. apply (Hne u Hu Hown). congruence.
Qed.

Lemma avatars_User_create (mk : string -> User) :
  (forall key, user_id (mk key) = key) ->
  keeps (avatars_kept st0) any_report (User_create fault mk).
Proof.
  intros Hmk st r [Hwf Hkept] HJ. unfold User_create.
  destruct (fault st _); simpl; [unfold avatars_kept; auto |].
  split; [| exact HJ]. split; [apply wf_keys_create; [apply Hmk | exact Hwf] |].
  simpl. intros u Hu Hown. destruct (Hkept u Hu Hown) as (u' & Hu' & H).
  exists u'. split; [apply in_app_iff; left; exact Hu' | exact H].
Qed.

Lemma avatars_UserAuthentication_create (mk : string -> UserAuthentication) :
  keeps (avatars_kept st0) any_report (UserAuthentication_create fault mk).
Proof.
  intros st r [Hwf Hkept] HJ. unfold UserAuthentication_create.
  destruct (fault st _); simpl; [unfold avatars_kept; auto |].
  split; [| exact HJ]. split; [apply wf_keys_bump, Hwf | exact Hkept].
Qed.

Lemma avatars_GroupUser_create (row : GroupUser) :
  keeps (avatars_kept st0) any_report (GroupUser_create fault row).
Proof. apply keeps_write. intros st H. exact H. Qed.

Lemma avatars_phase1_body (m : gmap string SyncUser) (processed : gset string)
    (auth : UserAuthentication) (user : User) :
  (forall pu, spares_avatars st0 (user_id user) (updates_for user pu)) ->
  keeps (avatars_kept st0) any_report
    (phase1_body fault now m processed (auth, Some user)).
Proof.
  intros Hs. simpl. keeps_walk; apply avatars_User_update;
    first [ apply Hs | left; reflexivity ].
Qed.

Lemma avatars_phase1 (m : gmap string SyncUser)
    (l : list (UserAuthentication * option User)) (s : gset string) :
  (forall auth user pu, In (auth, Some user) l ->
     spares_avatars st0 (user_id user) (updates_for user pu)) ->
  keeps (avatars_kept st0) any_report (for_each_with l s (phase1_body fault now m)).
Proof.
  revert s. induction l as [| [auth joined] l IH]; intros s Hl; cbn [for_each_with].
  - apply keeps_ret.
  - apply keeps_bind.
    + destruct joined as [user |]; [| apply keeps_ret].
      apply avatars_phase1_body. intros pu. apply (Hl auth). left. reflexivity.
    + intros s'. apply IH. intros a u pu Hin. apply (Hl a). right. exact Hin.
Qed.

Lemma avatars_phase2_body (team : Team) (tid aid : string) (dg : option Group)
    (processed : gset string) (pu : SyncUser) :
  keeps (avatars_kept st0) any_report
    (phase2_body fault team tid aid dg processed pu).
Proof.
  unfold phase2_body. destruct (decide _); [apply keeps_ret |].
  destruct (negb _); [apply keeps_update_result; auto |].
  apply keeps_try_catch; [| intros msg; apply keeps_update_result; auto].
  apply keeps_bind_read_in. intros st HI.
  destruct (User_findOne_iLike st tid (su_email pu)) as [u |] eqn:E.
  - assert (spares_avatars st0 (user_id u) (updates_for u pu)) as Hk.
    { unfold User_findOne_iLike in E. apply find_some in E as [Hin _].
      exact (instance_spares_avatars st0 st u pu HI Hin). }
    keeps_walk;
      first [ apply avatars_User_update; first [ exact Hk | left; reflexivity ]
            | apply avatars_UserAuthentication_create ].
  - keeps_walk;
      first [ apply avatars_User_create; intros key; reflexivity
            | apply avatars_UserAuthentication_create
            | apply avatars_GroupUser_create ].
Qed.

Lemma avatars_userSyncer_body (props : Props) :
  keeps (avatars_kept st0) any_report (userSyncer_body fault now props).
Proof.
  unfold userSyncer_body.
  destruct (_ =? _)%nat; [apply keeps_update_result; auto |].
  apply keeps_bind; [apply keeps_read |].
  intros [team |]; [| apply keeps_update_result; auto].
  apply keeps_bind; [apply keeps_read |].
  intros [ap |]; [| apply keeps_update_result; auto].
  apply keeps_bind; [apply keeps_read |]. intros dg.
  apply keeps_bind_read_in. intros st HI.
  apply keeps_bind.
  - apply avatars_phase1. intros auth user pu Hin.
    apply findAll_joined in Hin as [Hu _].
    exact (instance_spares_avatars st0 st user pu HI Hu).
  - intros processed. apply keeps_for_each. intros. apply avatars_phase2_body.
Qed.

End Avatars.

(** X11: the engine never overwrites an avatar of the user's own.  With
    unique primary keys, a user whose avatar address is not empty and does
    not contain "keycloak" has the same avatar after the run, whatever the
    snapshot says. *)
Theorem own_avatar_is_never_overwritten (fault : Fault) (now : Z) (props : Props)
    (st : Store) (u : User) :
  wf_keys st -> In u (Users st) -> own_avatar (user_avatarUrl u) = true ->
  exists u', In u' (Users (snd (userSyncer fault now props st)))
             /\ user_id u' = user_id u /\ user_avatarUrl u' = user_avatarUrl u.
Proof.
  intros Hwf Hu Hown.
  destruct (userSyncer_returns fault now props st) as [r [st' [E Eb]]]. rewrite E.
  assert (avatars_kept st st) as H0.
  { split; [exact Hwf |]. intros v Hv _. exists v. auto. }
  pose proof (avatars_userSyncer_body fault now st props st initial_result H0 I) as H.
  rewrite Eb in H. destruct H as [[_ H] _]. exact (H u Hu Hown).
Qed.

Lemma own_avatar_is_never_overwritten_witness :
  let u := {| user_id := "u"; user_teamId := "T"; user_email := Some "ann@example.com";
              user_name := "Ann"; user_avatarUrl := Some "https://cdn.example.com/ann.png";
              user_role := Member; user_suspendedAt := None; user_suspendedById := None;
              user_lastActiveAt := None |} in
  exists u',
    In u' (Users (snd (userSyncer no_fault 1000
                         (Scenario.props
                            [{| su_providerId := "g1"; su_email := "ann@example.com";
                                su_name := "Ann B";
                                su_avatarUrl := Some "https://keycloak.example.com/a.png" |}])
                         (Scenario.directory [u] [Scenario.auth "a" "g1" "u"]))))
    /\ user_id u' = "u" /\ user_avatarUrl u' = Some "https://cdn.example.com/ann.png".
Proof.
  intros u.
  apply (own_avatar_is_never_overwritten no_fault 1000
           (Scenario.props
              [{| su_providerId := "g1"; su_email := "ann@example.com";
                  su_name := "Ann B";
                  su_avatarUrl := Some "https://keycloak.example.com/a.png" |}])
           (Scenario.directory [u] [Scenario.auth "a" "g1" "u"]) u).
  - split.
    + simpl. apply NoDup_singleton.
    + intros n _ [H | []]. discriminate H.
  - left. reflexivity.
  - vm_compute. reflexivity.
Defined.



(** *** Listing the users of the provider *)

Lemma getAllUsers_loop_paged (client : KeycloakAdminClient) (batchSize : Z)
    (enabled : option bool) (fuel : nat) (first : Z) (acc l : list KeycloakUser) :
  getAllUsers_loop fuel client batchSize enabled first acc = Some (Ok l) ->
  exists pages, paged client batchSize enabled first pages
                /\ l = (acc ++ concat pages)%list.
Proof.
  revert first acc. induction fuel as [| fuel IH]; intros first acc H; [discriminate |].
  simpl in H. destruct (getUsers client first batchSize enabled) as [page | msg] eqn:Ep;
    [| discriminate].
  destruct (Z.ltb_spec (Z.of_nat (length page)) batchSize) as [Hs | Hs].
  { injection H as <-. exists [page]. split; [| simpl; rewrite app_nil_r; reflexivity].
    split; [discriminate |]. intros [| i] p Hi; [| discriminate].
    injection Hi as <-. rewrite Z.mul_0_l, Z.add_0_r. simpl.
    split; [exact Ep |]. split; [lia | tauto]. }
  destruct (Z.gtb_spec (first + batchSize) 100000) as [Hl | Hl].
  { injection H as <-. exists [page]. split; [| simpl; rewrite app_nil_r; reflexivity].
    split; [discriminate |]. intros [| i] p Hi; [| discriminate].
    injection Hi as <-. rewrite Z.mul_0_l, Z.add_0_r. simpl.
    split; [exact Ep |]. split; [lia |]. intros _. right. lia. }
  apply IH in H as (pages & [Hne Hp] & ->). exists (page :: pages).
  split; [| simpl; rewrite app_assoc; reflexivity].
  split; [discriminate |]. intros [| i] p Hi.
  - injection Hi as <-. rewrite Z.mul_0_l, Z.add_0_r.
    split; [exact Ep |]. split; [intros _; lia |].
    simpl. intros E. destruct pages; [contradiction | discriminate].
  - simpl in Hi. destruct (Hp i p Hi) as (Hg & Hfull & Hlast).
    replace (first + Z.of_nat (S i) * batchSize)
      with (first + batchSize + Z.of_nat i * batchSize) by lia.
    split; [exact Hg |]. simpl length. split.
    + intros Hi'. destruct Hfull as [Hf1 Hf2]; [lia |]. split; [exact Hf1 | lia].
    + intros Hi'. destruct Hlast as [Hl1 | Hl1]; [lia | left; exact Hl1 | right; lia].
Qed.

(** X13: what [getAllUsers] returns is the pages at the offsets 0,
    [batchSize], 2 [batchSize], ... one after the other: every page but the
    last is full, and the last is short or ends beyond offset 100000. *)
Theorem getAllUsers_concatenates_pages (fuel : nat) (client : KeycloakAdminClient)
    (batchSize : Z) (enabled : option bool) (l : list KeycloakUser) :
  getAllUsers fuel client batchSize enabled = Some (Ok l) ->
  exists pages, paged client batchSize enabled 0 pages /\ l = concat pages.
Proof.
  unfold getAllUsers. intros H.
  apply getAllUsers_loop_paged in H as (pages & Hp & ->). eauto.
Qed.

Lemma getAllUsers_concatenates_pages_witness :
  exists pages,
    paged Scenario.two_users 100 (Some true) 0 pages
    /\ length (concat pages) = 2%nat.
Proof.
  destruct (getAllUsers_concatenates_pages 1 Scenario.two_users 100 (Some true)
              [ {| kc_id := "k1"; kc_username := "bob"; kc_email := None;
                   kc_firstName := Some "Bob"; kc_lastName := None;
                   kc_enabled := true |};
                {| kc_id := "k2"; kc_username := "eve";
                   kc_email := Some "eve@example.com";
                   kc_firstName := Some "Eve"; kc_lastName := Some "Moneypenny";
                   kc_enabled := true |} ]) as [pages [Hp E]].
  - reflexivity.
  - exists pages. split; [exact Hp |]. rewrite <- E. reflexivity.
Defined.

(** X14: with a batch size of at least one, [getAllUsers] ends within
    [100000 / batchSize + 1] requests, whatever the API answers. *)
Theorem getAllUsers_ends (client : KeycloakAdminClient) (batchSize : Z)
    (enabled : option bool) :
  1 <= batchSize ->
  exists o, getAllUsers (Z.to_nat (100000 / batchSize + 1)) client batchSize enabled
            = Some o.
Proof.
  intros Hb. unfold getAllUsers. apply getAllUsers_loop_terminates; [exact Hb | lia |].
  assert (0 <= 100000 / batchSize) by (apply Z.div_pos; lia).
  rewrite Z.sub_0_r. lia.
Qed.

Lemma getAllUsers_ends_witness :
  exists o, getAllUsers 1001 Scenario.two_users 100 (Some true) = Some o.
Proof. apply (getAllUsers_ends Scenario.two_users 100 (Some true)). lia. Defined.

Lemma getAllUsers_loop_bound (client : KeycloakAdminClient) (batchSize : Z)
    (enabled : option bool) (fuel : nat) (first : Z) (acc l : list KeycloakUser) :
  (forall first page, getUsers client first batchSize enabled = Ok page ->
                      Z.of_nat (length page) <= batchSize) ->
  first <= 100000 ->
  getAllUsers_loop fuel client batchSize enabled first acc = Some (Ok l) ->
  Z.of_nat (length l) <= Z.of_nat (length acc) + (100000 - first) + batchSize.
Proof.
  intros Hmax. revert first acc. induction fuel as [| fuel IH]; intros first acc Hf H;
    [discriminate |].
  simpl in H. destruct (getUsers client first batchSize enabled) as [page | msg] eqn:Ep;
    [| discriminate].
  pose proof (Hmax first page Ep) as Hp.
  destruct (_ <? _).
  { injection H as <-. rewrite length_app. lia. }
  destruct (Z.gtb_spec (first + batchSize) 100000) as [Hl | Hl].
  { injection H as <-. rewrite length_app. lia. }
  apply IH in H; [| lia]. rewrite length_app in H. lia.
Qed.

(** X15: when no page holds more users than were asked for, [getAllUsers]
    returns at most [100000 + batchSize] users. *)
Theorem getAllUsers_returns_at_most (fuel : nat) (client : KeycloakAdminClient)
    (batchSize : Z) (enabled : option bool) (l : list KeycloakUser) :
  (forall first page, getUsers client first batchSize enabled = Ok page ->
                      Z.of_nat (length page) <= batchSize) ->
  getAllUsers fuel client batchSize enabled = Some (Ok l) ->
  Z.of_nat (length l) <= 100000 + batchSize.
Proof.
  intros Hmax H. unfold getAllUsers in H.
  apply getAllUsers_loop_bound in H; [simpl in H; lia | exact Hmax | lia].
Qed.

Lemma getAllUsers_returns_at_most_witness :
  Z.of_nat (length [ {| kc_id := "k1"; kc_username := "bob"; kc_email := None;
                        kc_firstName := Some "Bob"; kc_lastName := None;
                        kc_enabled := true |};
                     {| kc_id := "k2"; kc_username := "eve";
                        kc_email := Some "eve@example.com";
                        kc_firstName := Some "Eve"; kc_lastName := Some "Moneypenny";
                        kc_enabled := true |} ]) <= 100000 + 100.
Proof.
  apply (getAllUsers_returns_at_most 1 Scenario.two_users 100 (Some true)).
  - intros first page. unfold Scenario.two_users. simpl.
    destruct (first =? 0); intros [= <-]; simpl; lia.
  - reflexivity.
Defined.

(** *** Emails equal up to case, over a whole call *)

Lemma lower_ascii_escape (c : ascii) :
  Js.lower_ascii c = "\"%char -> c = "\"%char.
Proof.
  destruct c as [[] [] [] [] [] [] [] []]; vm_compute; intros H; first [reflexivity | discriminate H].
Qed.

Lemma is_ascii_at_character (t : string) : Js.is_ascii t = true -> at_character t = true.
Proof.
  destruct t as [| c t]; [reflexivity |]. unfold Js.is_ascii, at_character, is_continuation.
  cbn [list_ascii_of_string forallb]. intros H. apply andb_true_iff in H as [H _].
  apply Nat.ltb_lt in H. destruct (Nat.leb_spec 128 (nat_of_ascii c)); [lia | reflexivity].
Qed.

Lemma is_ascii_skip_continuation (t : string) :
  Js.is_ascii t = true -> skip_continuation t = t.
Proof.
  intros H. apply is_ascii_at_character in H. destruct t as [| c t]; [reflexivity |].
  simpl in *. destruct (is_continuation c); [discriminate | reflexivity].
Qed.

(** A text of ASCII characters without backslash is matched by every pattern
    that is equal to it up to case. *)
Lemma like_same_lower (pattern text : string) :
  Js.is_ascii text = true -> no_escape text = true ->
  Js.toLowerCase text = Js.toLowerCase pattern -> like pattern text = true.
Proof.
  revert text. induction pattern as [| c pattern IH]; intros [| d text] Ha Hn Hl;
    try discriminate Hl; [reflexivity |].
  simpl in Hl. injection Hl as Hc Hl.
  unfold Js.is_ascii in Ha. unfold no_escape in Hn.
  cbn [list_ascii_of_string forallb] in Ha, Hn.
  apply andb_true_iff in Ha as [_ Ha]. apply andb_true_iff in Hn as [Hd Hn].
  specialize (IH text Ha Hn Hl). cbn [like].
  destruct (Ascii.eqb c "%") eqn:E1.
  { cbn [any_sequence]. apply orb_true_iff. right.
    destruct text as [| d' text']; cbn [any_sequence].
    - rewrite IH. reflexivity.
    - rewrite (is_ascii_at_character _ Ha), IH. reflexivity. }
  destruct (Ascii.eqb c "_") eqn:E2.
  { cbn [any_character]. rewrite (is_ascii_skip_continuation _ Ha). exact IH. }
  destruct (Ascii.eqb_spec c "\") as [E3 | E3].
  { exfalso. subst c. apply lower_ascii_escape in Hc. subst d.
    discriminate Hd. }
  cbn [this_character]. rewrite Hc, Ascii.eqb_refl, IH. reflexivity.
Qed.

Lemma no_email_change_spares (ids0 : list string) (uid e uid' : string) (c : UserChanges) :
  ch_email c = None -> spares_email ids0 uid e uid' c.
Proof. intros Hc. split; [auto |]. right. intros e2 H. congruence. Qed.

Lemma updates_for_email (u : User) (pu : SyncUser) (e2 : string) :
  ch_email (updates_for u pu) = Some e2 -> e2 = su_email pu.
Proof.
  unfold updates_for. cbn [ch_email]. destruct (_ && _)%bool; [| discriminate].
  intros [= <-]. reflexivity.
Qed.

Section KeptEmail.

Variable fault : Fault.
Variable now : Z.
Variable ids0 : list string.
Variable uid tid e : string.

Lemma kept_User_update (uid' : string) (c : UserChanges) :
  spares_email ids0 uid e uid' c ->
  keeps (kept_email ids0 uid tid e) any_report (User_update fault uid' c).
Proof.
  intros [Hown Hnew]. apply keeps_write.
  intros st (Hwf & old & new & EU & Hids & (u & Hu & Hid & Ht & He) & Hall).
  split; [apply wf_keys_update, Hwf |].
  exists (update_row uid' c old), (update_row uid' c new). cbn [Users set_Users].
  split_and!.
  - rewrite EU. unfold update_row. apply map_app.
  - rewrite update_row_ids. exact Hids.
  - exists (if String.eqb (user_id u) uid' then apply_changes c u else u).
    split; [apply in_map_iff; exists u; auto |].
    destruct (String.eqb_spec (user_id u) uid') as [E | E]; [| auto].
    cbn [apply_changes user_id user_teamId user_email].
    rewrite Hown by congruence. auto.
  - apply Forall_forall. intros v Hv. apply list_elem_of_In, in_map_iff in Hv as [v0 [<- Hv0]].
    pose proof (proj1 (Forall_forall _ _) Hall v0 (proj2 (list_elem_of_In _ _) Hv0)) as Hv0e.
    destruct (String.eqb_spec (user_id v0) uid') as [E | E]; [| exact Hv0e].
    cbn [apply_changes user_email]. destruct Hnew as [Hin | Hne].
    + exfalso. destruct Hwf as [Hnd _]. rewrite EU, map_app, Hids in Hnd.
      apply NoDup_app in Hnd as (_ & Hdis & _).
      apply (Hdis uid'); [apply list_elem_of_In, Hin |].
      rewrite <- E. apply list_elem_of_In, in_map, Hv0.
    + destruct (ch_email c) as [e2 |]; [| exact Hv0e].
      simpl. intros [= H]. exact (Hne e2 eq_refl H).
Qed.

Lemma kept_User_create (mk : string -> User) :
  (forall key, user_id (mk key) = key
               /\ Js.toLowerCase <$> user_email (mk key) <> Some (Js.toLowerCase e)) ->
  keeps (kept_email ids0 uid tid e) any_report (User_create fault mk).
Proof.
  intros Hmk st r HI HJ. unfold User_create.
  destruct (fault st _); simpl; [auto |]. split; [| exact HJ].
  destruct HI as (Hwf & old & new & EU & Hids & Hu & Hall).
  destruct (Hmk (nextId st)) as [Hid He].
  split; [apply wf_keys_create; assumption |].
  exists old, (new ++ [mk (nextId st)])%list. cbn [Users bump_idSupply set_Users].
  split_and!; [rewrite EU; symmetry; apply app_assoc | exact Hids | exact Hu |].
  apply Forall_app. split; [exact Hall |]. apply Forall_singleton. exact He.
Qed.

Lemma kept_UserAuthentication_create (mk : string -> UserAuthentication) :
  keeps (kept_email ids0 uid tid e) any_report (UserAuthentication_create fault mk).
Proof.
  intros st r [Hwf H] HJ. unfold UserAuthentication_create.
  destruct (fault st _); simpl; [unfold kept_email; auto |].
  split; [| exact HJ]. split; [apply wf_keys_bump, Hwf | exact H].
Qed.

Lemma kept_GroupUser_create (row : GroupUser) :
  keeps (kept_email ids0 uid tid e) any_report (GroupUser_create fault row).
Proof. apply keeps_write. intros st H. exact H. Qed.

Lemma kept_phase1_body (m : gmap string SyncUser) (processed : gset string)
    (auth : UserAuthentication) (user : User) :
  (forall pu, m !! ua_providerId auth = Some pu ->
              spares_email ids0 uid e (user_id user) (updates_for user pu)) ->
  keeps (kept_email ids0 uid tid e) any_report
    (phase1_body fault now m processed (auth, Some user)).
Proof.
  intros Hs. simpl. destruct (m !! ua_providerId auth) as [pu |] eqn:Em.
  - specialize (Hs pu eq_refl).
    keeps_walk; apply kept_User_update;
      first [ exact Hs | apply no_email_change_spares; reflexivity ].
  - keeps_walk; apply kept_User_update, no_email_change_spares; reflexivity.
Qed.

Lemma kept_phase1 (m : gmap string SyncUser)
    (l : list (UserAuthentication * option User)) (s : gset string) :
  (forall auth user pu, In (auth, Some user) l -> m !! ua_providerId auth = Some pu ->
     spares_email ids0 uid e (user_id user) (updates_for user pu)) ->
  keeps (kept_email ids0 uid tid e) any_report (for_each_with l s (phase1_body fault now m)).
Proof.
  revert s. induction l as [| [auth joined] l IH]; intros s Hl; cbn [for_each_with].
  - apply keeps_ret.
  - apply keeps_bind.
    + destruct joined as [user |]; [| apply keeps_ret].
      apply kept_phase1_body. intros pu. apply (Hl auth). left. reflexivity.
    + intros s'. apply IH. intros a u pu Hin. apply (Hl a). right. exact Hin.
Qed.

Hypothesis ascii : Js.is_ascii e = true.
Hypothesis plain : no_escape e = true.

Lemma kept_phase2_body (team : Team) (aid : string) (dg : option Group)
    (processed : gset string) (pu : SyncUser) :
  (iLike (Some e) (su_email pu) = true ->
   Js.toLowerCase (su_email pu) = Js.toLowerCase e) ->
  keeps (kept_email ids0 uid tid e) any_report
    (phase2_body fault team tid aid dg processed pu).
Proof.
  intros Hpu. unfold phase2_body. destruct (decide _); [apply keeps_ret |].
  destruct (negb _); [apply keeps_update_result; auto |].
  apply keeps_try_catch; [| intros msg; apply keeps_update_result; auto].
  apply keeps_bind_read_in. intros st HI.
  pose proof HI as (Hwf & old & new & EU & Hids & (u & Hu & Hid & Ht & He) & Hall).
  assert (In u (Users st)) as Hust by (rewrite EU; apply in_app_iff; auto).
  assert (Js.toLowerCase (su_email pu) = Js.toLowerCase e ->
          (String.eqb (user_teamId u) tid && iLike (user_email u) (su_email pu))%bool
          = true) as Hhit.
  { intros Hl. rewrite Ht, String.eqb_refl, He. simpl.
    apply like_same_lower; [exact ascii | exact plain | symmetry; exact Hl]. }
  destruct (User_findOne_iLike st tid (su_email pu)) as [u0 |] eqn:E.
  - unfold User_findOne_iLike in E. pose proof E as Efind.
    apply find_some in E as [Hin H]. apply andb_true_iff in H as [_ Hlike].
    assert (spares_email ids0 uid e (user_id u0) (updates_for u0 pu)) as Hk.
    { split.
      - intros Eid. assert (u0 = u) as ->.
        { destruct Hwf as [Hnd _].
          apply (NoDup_map_inj user_id (Users st)); [assumption .. | congruence]. }
        apply (same_lower_no_email_change u pu e He). symmetry. apply Hpu.
        rewrite He in Hlike. exact Hlike.
      - destruct (decide (Js.toLowerCase (su_email pu) = Js.toLowerCase e)) as [Hl | Hl].
        + left. rewrite <- Hids. apply in_map. rewrite EU in Efind.
          exact (find_app_old _ old new u0 u Efind Hu (Hhit Hl)).
        + right. intros e2 H. apply updates_for_email in H. subst e2. exact Hl. }
    keeps_walk;
      first [ apply kept_UserAuthentication_create
            | apply kept_User_update;
              first [ exact Hk | apply no_email_change_spares; reflexivity ] ].
  - assert (Js.toLowerCase (su_email pu) <> Js.toLowerCase e) as Hne.
    { intros Hl. unfold User_findOne_iLike in E.
      pose proof (find_none _ _ E u Hust) as H. simpl in H. rewrite (Hhit Hl) in H.
      discriminate. }
    keeps_walk;
      first [ apply kept_User_create; intros key; split; [reflexivity |];
              simpl; intros [= H]; exact (Hne H)
            | apply kept_UserAuthentication_create
            | apply kept_GroupUser_create ].
Qed.

End KeptEmail.

(** C3, amended: over a whole call of the engine.  Let a user of the team
    have the email [e], in ASCII and without backslash, and let the snapshot,
    all of whose emails are in ASCII, hold an entry whose email [e'] is equal
    to [e] up to case.  Suppose every entry that reaches the user has an email
    equal to [e] up to case: the entries under the provider id of one of the
    user's authentications with this provider, and the entries whose email,
    read as a pattern of ILIKE, matches [e].  Then, with unique primary keys,
    the stored email of the user is still [e] after the call, so it is [e']
    exactly when [e] and [e'] are the same characters; and no user the call
    has created has an email equal to [e] up to case. *)
Theorem same_email_up_to_case_is_kept (fault : Fault) (now : Z) (props : Props)
    (st : Store) (u : User) (e : string) (pu : SyncUser) :
  wf_keys st ->
  In u (Users st) -> user_teamId u = teamId props -> user_email u = Some e ->
  In pu (users props) -> Js.toLowerCase e = Js.toLowerCase (su_email pu) ->
  Js.is_ascii e = true -> no_escape e = true ->
  (forall pu', In pu' (users props) -> Js.is_ascii (su_email pu') = true) ->
  (forall auth pu',
     In auth (UserAuthentications st) ->
     ua_authenticationProviderId auth = authenticationProviderId props ->
     ua_userId auth = user_id u ->
     In pu' (users props) -> su_providerId pu' = ua_providerId auth ->
     Js.toLowerCase (su_email pu') = Js.toLowerCase e) ->
  (forall pu', In pu' (users props) -> iLike (Some e) (su_email pu') = true ->
               Js.toLowerCase (su_email pu') = Js.toLowerCase e) ->
  let st' := snd (userSyncer fault now props st) in
  stored_email st' (user_id u) = Some e
  /\ (stored_email st' (user_id u) = Some (su_email pu) <-> e = su_email pu)
  /\ (forall v, In v (Users st') -> ~ In (user_id v) (map user_id (Users st)) ->
                Js.toLowerCase <$> user_email v <> Some (Js.toLowerCase e)).
Proof.
  intros Hwf Hu Ht He Hpu Hl Hascii Hplain Hsnap Hlinked Hmatch st'.
  assert (kept_email (map user_id (Users st)) (user_id u) (teamId props) e st') as HK.
  { subst st'.
    destruct (userSyncer_returns fault now props st) as [r [st1 [E Eb]]]. rewrite E.
    assert (kept_email (map user_id (Users st)) (user_id u) (teamId props) e st) as H0.
    { split; [exact Hwf |]. exists (Users st), []. rewrite app_nil_r.
      split_and!; [reflexivity | reflexivity | exists u; auto | constructor]. }
    enough (kept_email (map user_id (Users st)) (user_id u) (teamId props) e
              (userSyncer_body fault now props st initial_result).1.2) as H
      by (rewrite Eb in H; exact H).
    unfold userSyncer_body.
    destruct (_ =? _)%nat; [exact H0 |].
    unfold bind at 1, read at 1.
    destruct (Team_findByPk st (teamId props)) as [team |]; [| exact H0].
    unfold bind at 1, read at 1.
    destruct (AuthenticationProvider_findByPk st _) as [ap |]; [| exact H0].
    unfold bind at 1, read at 1. unfold bind at 1, read at 1.
    refine (proj1 (keeps_bind (Rep := any_report) _ _ _ _ st initial_result H0 I)).
    - apply kept_phase1. intros auth user pu' Hin Hm.
      apply findAll_row in Hin as (Hauth & Hprov & Huser & Hkey & Hteam).
      apply providerUsersMap_of_Some in Hm as [Hpu' Hp].
      split.
      + intros Eid. assert (user = u) as ->.
        { destruct Hwf as [Hnd _].
          apply (NoDup_map_inj user_id (Users st)); assumption. }
        apply (same_lower_no_email_change u pu' e He). symmetry.
        apply (Hlinked auth pu'); auto.
      + left. apply in_map, Huser.
    - intros processed. apply keeps_for_each_in. intros pu' Hin.
      apply kept_phase2_body; [exact Hascii | exact Hplain | apply Hmatch, Hin]. }
  destruct HK as (Hwf' & old & new & EU & Hids & (u1 & Hu1 & Hid & Ht1 & He1) & Hall).
  assert (stored_email st' (user_id u) = Some e) as Hstored.
  { unfold stored_email. rewrite <- Hid.
    rewrite (find_by_key (Users st') u1); [exact He1 | apply Hwf' |].
    rewrite EU. apply in_app_iff. auto. }
  split_and!.
  - exact Hstored.
  - rewrite Hstored. split; [intros [= ->]; reflexivity | intros ->; reflexivity].
  - intros v Hv Hnew. rewrite EU in Hv. apply in_app_iff in Hv as [Hv | Hv].
    + exfalso. apply Hnew. rewrite <- Hids. apply in_map, Hv.
    + exact (proj1 (Forall_forall _ _) Hall v (proj2 (list_elem_of_In _ _) Hv)).
Qed.

(** The linked user "a_b@example.com", whom the provider spells in
    capitals, next to an entry for somebody new. *)
Lemma same_email_up_to_case_is_kept_witness :
  let st := Scenario.directory [Scenario.user "u" "a_b@example.com" "Ab" None]
              [Scenario.auth "a" "g1" "u"] in
  let snapshot := [Scenario.entry "g1" "A_B@EXAMPLE.COM" "Ab";
                   Scenario.entry "g2" "new@example.com" "New"] in
  let st' := snd (Scenario.reconcile snapshot st) in
  map user_email (Users st') = [Some "a_b@example.com"; Some "new@example.com"]
  /\ stored_email st' "u" = Some "a_b@example.com"
  /\ (stored_email st' "u" = Some "A_B@EXAMPLE.COM"
      <-> "a_b@example.com" = "A_B@EXAMPLE.COM")
  /\ (forall v, In v (Users st') -> ~ In (user_id v) ["u"] ->
                Js.toLowerCase <$> user_email v <> Some "a_b@example.com").
Proof.
  intros st snapshot st'. split; [vm_compute; reflexivity |].
  apply (same_email_up_to_case_is_kept no_fault 1000 (Scenario.props snapshot) st
           (Scenario.user "u" "a_b@example.com" "Ab" None) "a_b@example.com"
           (Scenario.entry "g1" "A_B@EXAMPLE.COM" "Ab")).
  - split.
    + simpl. apply NoDup_singleton.
    + intros n _ [H | []]. discriminate H.
  - left. reflexivity.
  - reflexivity.
  - reflexivity.
  - left. reflexivity.
  - vm_compute. reflexivity.
  - vm_compute. reflexivity.
  - vm_compute. reflexivity.
  - intros pu' [<- | [<- | []]]; vm_compute; reflexivity.
  - intros auth pu' [<- | []] _ _ [<- | [<- | []]] Hp;
      [vm_compute; reflexivity | discriminate Hp].
  - intros pu' [<- | [<- | []]] H; [vm_compute; reflexivity |].
    vm_compute in H. discriminate H.
Defined.

(** Without the condition on the entries that reach the user: an entry with
    another email under the provider id of the user's authentication
    replaces the stored email in Phase 1, and the entry equal up to case then
    finds nobody and creates a second user. *)
Example entry_under_the_provider_id_replaces_email :
  let st := Scenario.directory [Scenario.user "u" "a_b@example.com" "Ab" None]
              [Scenario.auth "a" "g1" "u"] in
  let snapshot := [Scenario.entry "g1" "other@example.com" "Ab";
                   Scenario.entry "g2" "A_B@EXAMPLE.COM" "Ab"] in
  let st' := snd (Scenario.reconcile snapshot st) in
  stored_email st "u" = Some "a_b@example.com"
  /\ map user_id (Users st') = ["u"; "id-0"]
  /\ map user_email (Users st') = [Some "other@example.com"; Some "A_B@EXAMPLE.COM"].
Proof. vm_compute. repeat split. Qed.

(** Without the condition on the backslash: the entry's email, read as a
    pattern, takes the backslash for an escape and does not match the stored
    email it is equal to up to case, so a second user is created. *)
Example backslash_in_email_makes_duplicate :
  let st := Scenario.directory [Scenario.user "u" "a\b@example.com" "Ab" None] [] in
  let snapshot := [Scenario.entry "g1" "A\B@EXAMPLE.COM" "Ab"] in
  let st' := snd (Scenario.reconcile snapshot st) in
  Js.toLowerCase "a\b@example.com" = Js.toLowerCase "A\B@EXAMPLE.COM"
  /\ map user_id (Users st') = ["u"; "id-0"]
  /\ map user_email (Users st') = [Some "a\b@example.com"; Some "A\B@EXAMPLE.COM"].
Proof. vm_compute. repeat split. Qed.

(** *** The scheduled task *)

Lemma users_of_outside (t tid : string) (st : Store) :
  t <> tid -> users_of t st = filter (fun u => user_teamId u = t) (users_outside tid st).
Proof.
  intros Hne. unfold users_of, users_outside. rewrite list_filter_filter.
  apply list_filter_iff. intros u. split; [| tauto]. intros E. split; [exact E |].
  rewrite E. exact Hne.
Qed.

Lemma userSyncer_other_team (fault : Fault) (now : Z) (props : Props) (st : Store)
    (t : string) :
  wf_keys st -> t <> teamId props ->
  wf_keys (snd (userSyncer fault now props st))
  /\ users_of t (snd (userSyncer fault now props st)) = users_of t st.
Proof.
  intros Hwf Hne. destruct (userSyncer_isolated fault now props st Hwf) as [Hwf' Ho].
  split; [exact Hwf' |].
  rewrite !(users_of_outside t (teamId props)) by exact Hne. rewrite Ho. reflexivity.
Qed.

Section Bindings.

Variable fault : Fault.
Variable now : Z.
Variable syncUsers : list SyncUser.

Lemma sync_bindings_teams (authProviders : list AuthenticationProvider) (st : Store) :
  map fst (sync_bindings fault now authProviders syncUsers st).2
  = map ap_teamId authProviders.
Proof.
  revert st. induction authProviders as [| ap aps IH]; intros st; simpl; [reflexivity |].
  destruct (userSyncer fault now (sync_props ap syncUsers) st) as [result st1].
  specialize (IH st1).
  destruct (sync_bindings fault now aps syncUsers st1) as [st2 log]; simpl in *.
  f_equal. exact IH.
Qed.

Lemma sync_bindings_extends (st0 : Store) (authProviders : list AuthenticationProvider)
    (st : Store) :
  extends st0 st ->
  extends st0 (sync_bindings fault now authProviders syncUsers st).1.
Proof.
  revert st. induction authProviders as [| ap aps IH]; intros st H; simpl; [exact H |].
  destruct (userSyncer_returns fault now (sync_props ap syncUsers) st)
    as [r [st1 [E Eb]]].
  rewrite E.
  pose proof (extends_userSyncer_body fault now st0 (sync_props ap syncUsers) st
                initial_result H I) as H1.
  rewrite Eb in H1. specialize (IH st1 (proj1 H1)).
  destruct (sync_bindings fault now aps syncUsers st1) as [st2 log]. exact IH.
Qed.

Lemma sync_bindings_other_team (t : string)
    (authProviders : list AuthenticationProvider) (st : Store) :
  wf_keys st ->
  (forall ap, In ap authProviders -> ap_teamId ap <> t) ->
  wf_keys (sync_bindings fault now authProviders syncUsers st).1
  /\ users_of t (sync_bindings fault now authProviders syncUsers st).1 = users_of t st.
Proof.
  revert st. induction authProviders as [| ap aps IH]; intros st Hwf Hall; simpl;
    [split; [exact Hwf | reflexivity] |].
  destruct (userSyncer_other_team fault now (sync_props ap syncUsers) st t Hwf)
    as [Hwf1 Hu1].
  { intros E. apply (Hall ap (or_introl eq_refl)). symmetry. exact E. }
  destruct (userSyncer fault now (sync_props ap syncUsers) st) as [o st1]. simpl in *.
  specialize (IH st1 Hwf1 (fun a Ha => Hall a (or_intror Ha))).
  destruct (sync_bindings fault now aps syncUsers st1) as [st2 log]. simpl in *.
  destruct IH as [IH1 IH2]. split; [exact IH1 | congruence].
Qed.

End Bindings.

Lemma sync_bindings_aborted (fault : Fault) (now : Z)
    (authProviders : list AuthenticationProvider) (st : Store) :
  sync_bindings fault now authProviders [] st
  = (st, map (fun ap => (ap_teamId ap, Ok aborted_report)) authProviders).
Proof.
  induction authProviders as [| ap aps IH]; simpl; [reflexivity |].
  rewrite IH. reflexivity.
Qed.

Lemma toSyncUsers_without_email (keycloakUsers : list KeycloakUser) :
  Forall (fun u => Js.truthy_opt (kc_email u) = false) keycloakUsers ->
  toSyncUsers keycloakUsers = [].
Proof.
  intros H. unfold toSyncUsers. induction H as [| u l Hu Hl IH]; [reflexivity |].
  rewrite filter_cons_False by (rewrite Hu; discriminate). exact IH.
Qed.

Section Perform.

Variable fault : Fault.
Variable now : Z.
Variable env : Env.
Variable client : KeycloakAdminClient.
Variable partition : string -> bool.

(** The runs of the task: it returns at once, or goes through the selected
    bindings with the users it listed. *)
Lemma perform_cases (fuel : nat) (st st' : Store)
    (log : list (string * Outcome UserSyncerResult)) :
  perform fault now env client partition fuel st = Some (st', log) ->
  (st' = st /\ log = [])
  \/ exists keycloakUsers,
       getAllUsers fuel client 100 (Some true) = Some (Ok keycloakUsers)
       /\ keycloakUsers <> []
       /\ (st', log) = sync_bindings fault now (selected partition st)
                         (toSyncUsers keycloakUsers) st.
Proof.
  unfold perform. fold (selected partition st).
  destruct (negb (OIDC_SYNC_ENABLED env)); [intros [= <- <-]; auto |].
  destruct (_ || _); [intros [= <- <-]; auto |].
  destruct (_ =? _)%nat; [intros [= <- <-]; auto |].
  destruct (negb (client_constructible env)); [intros [= <- <-]; auto |].
  destruct (negb (testConnection client)); [intros [= <- <-]; auto |].
  destruct (getAllUsers fuel client 100 (Some true)) as [[keycloakUsers | msg] |];
    [| intros [= <- <-]; auto | discriminate].
  destruct keycloakUsers as [| k l]; [intros [= <- <-]; auto |].
  simpl. intros [= E]. right. exists (k :: l). split_and!; [reflexivity | discriminate |].
  symmetry. exact E.
Qed.

End Perform.

(** X16: a run of the scheduled task that logs nothing has changed nothing;
    a run that logs anything has logged one entry per selected binding, in
    the order of the bindings and under the team of each, whether the
    engine returned a report for the binding or rejected the call. *)
Theorem perform_logs_one_entry_per_binding (fault : Fault) (now : Z) (env : Env)
    (client : KeycloakAdminClient) (partition : string -> bool) (fuel : nat)
    (st st' : Store) (log : list (string * Outcome UserSyncerResult)) :
  perform fault now env client partition fuel st = Some (st', log) ->
  (log = [] -> st' = st)
  /\ (log <> [] -> map fst log = map ap_teamId (selected partition st)).
Proof.
  intros H. apply perform_cases in H as [[-> ->] | (kus & _ & _ & E)].
  - split; [reflexivity | contradiction].
  - pose proof (sync_bindings_teams fault now (toSyncUsers kus) (selected partition st) st)
      as Hlog.
    rewrite <- E in Hlog. simpl in Hlog. split; [| intros _; exact Hlog].
    intros ->. symmetry in Hlog. apply map_eq_nil in Hlog.
    rewrite Hlog in E. injection E as ->. reflexivity.
Qed.

(** X17: the scheduled task only reads the teams, the authentication
    providers and the groups, and removes nothing: the tables it leaves
    extend the ones it found. *)
Theorem perform_extends_the_directory (fault : Fault) (now : Z) (env : Env)
    (client : KeycloakAdminClient) (partition : string -> bool) (fuel : nat)
    (st st' : Store) (log : list (string * Outcome UserSyncerResult)) :
  perform fault now env client partition fuel st = Some (st', log) ->
  extends st st'.
Proof.
  intros H. apply perform_cases in H as [[-> _] | (kus & _ & _ & E)];
    [apply extends_refl |].
  pose proof (sync_bindings_extends fault now (toSyncUsers kus) st
                (selected partition st) st (extends_refl st)) as Hx.
  rewrite <- E in Hx. exact Hx.
Qed.

(** X18: the scheduled task leaves alone the users of every team that has no
    selected binding (no enabled provider named "oidc" in the partition),
    when the primary keys of the users are unique. *)
Theorem perform_leaves_unbound_teams (fault : Fault) (now : Z) (env : Env)
    (client : KeycloakAdminClient) (partition : string -> bool) (fuel : nat)
    (st st' : Store) (log : list (string * Outcome UserSyncerResult)) (t : string) :
  wf_keys st ->
  (forall ap, In ap (selected partition st) -> ap_teamId ap <> t) ->
  perform fault now env client partition fuel st = Some (st', log) ->
  users_of t st' = users_of t st.
Proof.
  intros Hwf Hall H. apply perform_cases in H as [[-> _] | (kus & _ & _ & E)];
    [reflexivity |].
  pose proof (sync_bindings_other_team fault now (toSyncUsers kus) t
                (selected partition st) st Hwf Hall) as [_ Hx].
  rewrite <- E in Hx. exact Hx.
Qed.

(** X19: when the provider lists users and none of them has an email, the
    scheduled task changes nothing, and every selected binding gets the
    report of the aborted call, with the error about the empty user list. *)
Theorem perform_without_any_email (fault : Fault) (now : Z) (env : Env)
    (client : KeycloakAdminClient) (partition : string -> bool) (fuel : nat)
    (st st' : Store) (log : list (string * Outcome UserSyncerResult))
    (keycloakUsers : list KeycloakUser) :
  getAllUsers fuel client 100 (Some true) = Some (Ok keycloakUsers) ->
  Forall (fun u => Js.truthy_opt (kc_email u) = false) keycloakUsers ->
  perform fault now env client partition fuel st = Some (st', log) ->
  st' = st
  /\ Forall (fun entry => entry.2 = Ok aborted_report) log.
Proof.
  intros Hl Hno H. apply perform_cases in H as [[-> ->] | (kus & Hl' & _ & E)];
    [split; [reflexivity | constructor] |].
  rewrite Hl in Hl'. injection Hl' as <-.
  rewrite (toSyncUsers_without_email _ Hno), sync_bindings_aborted in E.
  injection E as -> ->. split; [reflexivity |].
  apply Forall_forall. intros entry Hin. apply list_elem_of_In, in_map_iff in Hin as [ap [<- _]].
  reflexivity.
Qed.

Lemma perform_logs_one_entry_per_binding_witness :
  let off :=
    {| OIDC_SYNC_ENABLED := false;
       OIDC_SYNC_ADMIN_URL := Some "https://kc.example.com";
       OIDC_SYNC_REALM := Some "main";
       OIDC_SYNC_CLIENT_ID := None; OIDC_SYNC_CLIENT_SECRET := None;
       OIDC_CLIENT_ID := Some "outline"; OIDC_CLIENT_SECRET := Some "secret" |} in
  (exists st' log,
     perform no_fault 1000 Scenario.env Scenario.two_users (fun _ => true) 1
       (Scenario.directory [] []) = Some (st', log)
     /\ log <> [] /\ map fst log = ["T"])
  /\ (exists st',
        perform no_fault 1000 off Scenario.two_users (fun _ => true) 1
          (Scenario.directory [] []) = Some (st', [])
        /\ st' = Scenario.directory [] []).
Proof.
  intros off. split.
  - eexists _, _. split; [vm_compute; reflexivity |]. split; [discriminate |].
    refine (proj2 (perform_logs_one_entry_per_binding no_fault 1000 Scenario.env
                     Scenario.two_users (fun _ => true) 1 (Scenario.directory [] [])
                     _ _ _) _).
    + vm_compute. reflexivity.
    + discriminate.
  - eexists. split; [vm_compute; reflexivity |].
    refine (proj1 (perform_logs_one_entry_per_binding no_fault 1000 off
                     Scenario.two_users (fun _ => true) 1 (Scenario.directory [] [])
                     _ [] _) eq_refl).
    vm_compute. reflexivity.
Defined.

Lemma perform_extends_the_directory_witness :
  exists st' log,
    perform no_fault 1000 Scenario.env Scenario.two_users (fun _ => true) 1
      (Scenario.directory [] []) = Some (st', log)
    /\ extends (Scenario.directory [] []) st'.
Proof.
  eexists _, _. split; [vm_compute; reflexivity |].
  refine (perform_extends_the_directory no_fault 1000 Scenario.env
            Scenario.two_users (fun _ => true) 1 (Scenario.directory [] []) _ _ _).
  vm_compute. reflexivity.
Defined.

Lemma perform_leaves_unbound_teams_witness :
  let v := {| user_id := "v"; user_teamId := "other";
              user_email := Some "eve@example.com"; user_name := "Nobody";
              user_avatarUrl := None; user_role := Member;
              user_suspendedAt := None; user_suspendedById := None;
              user_lastActiveAt := None |} in
  exists st' log,
    perform no_fault 1000 Scenario.env Scenario.two_users (fun _ => true) 1
      (Scenario.directory [v] []) = Some (st', log)
    /\ users_of "other" st' = [v].
Proof.
  intros v. eexists _, _. split; [vm_compute; reflexivity |].
  refine (eq_trans
            (perform_leaves_unbound_teams no_fault 1000 Scenario.env
               Scenario.two_users (fun _ => true) 1 (Scenario.directory [v] []) _ _
               "other" _ _ _) _).
  - split.
    + simpl. apply NoDup_singleton.
    + intros n _ [H | []]. discriminate H.
  - intros ap H. vm_compute in H. destruct H as [<- | []]. discriminate.
  - vm_compute. reflexivity.
  - vm_compute. reflexivity.
Defined.

Lemma perform_without_any_email_witness :
  let k := {| kc_id := "k1"; kc_username := "bob"; kc_email := None;
              kc_firstName := Some "Bob"; kc_lastName := None; kc_enabled := true |} in
  let client := {| getUsers := fun first _ _ => if first =? 0 then Ok [k] else Ok [];
                   getUserCount := fun _ => Ok 1 |} in
  perform no_fault 1000 Scenario.env client (fun _ => true) 1
    (Scenario.directory [Scenario.user "u" "bob@example.com" "Bob" None]
       [Scenario.auth "a" "k1" "u"])
  = Some (Scenario.directory [Scenario.user "u" "bob@example.com" "Bob" None]
            [Scenario.auth "a" "k1" "u"],
          [("T", Ok aborted_report)]).
Proof.
  intros k client.
  destruct (perform_without_any_email no_fault 1000 Scenario.env client (fun _ => true) 1
              (Scenario.directory [Scenario.user "u" "bob@example.com" "Bob" None]
                 [Scenario.auth "a" "k1" "u"])
              (Scenario.directory [Scenario.user "u" "bob@example.com" "Bob" None]
                 [Scenario.auth "a" "k1" "u"])
              [("T", Ok aborted_report)] [k]) as [_ _].
  - reflexivity.
  - constructor; [reflexivity | constructor].
  - vm_compute. reflexivity.
  - vm_compute. reflexivity.
Defined.

(** *** Records without email *)

Lemma phase1_body_suspends (fault : Fault) (now : Z) (m : gmap string SyncUser)
    (processed : gset string) (auth : UserAuthentication) (user : User) (st : Store)
    (r : UserSyncerResult) :
  m !! ua_providerId auth = None ->
  user_suspendedAt user = None ->
  fault st (UserUpdate (user_id user) (suspension now)) = None ->
  phase1_body fault now m processed (auth, Some user) st r
  = (Ok (processed ∪ {[ ua_providerId auth ]}),
     set_Users st (update_row (user_id user) (suspension now) (Users st)),
     add_counts r 0 0 1 0 0 0).
Proof.
  intros Hm Hactive Hok. unfold phase1_body. rewrite Hm.
  unfold phase1_orphan, try_catch, bind, User_update, write, incr_suspended,
    update_result, ret.
  rewrite Hactive. simpl. rewrite Hok. rewrite add_counts_suspended. reflexivity.
Qed.

Section Suspends.

Variable fault : Fault.
Variable now : Z.
Variable u : User.

Lemma suspension_applies (sure sure' : bool) (st : Store) :
  suspended_or_not now u sure st ->
  suspended_or_not now u sure'
    (set_Users st (update_row (user_id u) (suspension now) (Users st))).
Proof.
  intros [Hwf H]. split; [apply wf_keys_update, Hwf |]. left. cbn [Users set_Users].
  destruct H as [H | [_ H]].
  - apply (update_row_target (user_id u) (suspension now)) in H; [exact H | reflexivity].
  - apply update_row_target; [reflexivity | exact H].
Qed.

Variable sure : bool.

Lemma suspends_User_update (uid' : string) (c : UserChanges) :
  (uid' = user_id u -> c = suspension now) ->
  keeps (suspended_or_not now u sure) any_report (User_update fault uid' c).
Proof.
  intros Hc. apply keeps_write. intros st HI.
  destruct (decide (uid' = user_id u)) as [E | E].
  - rewrite (Hc E), E. apply (suspension_applies sure sure), HI.
  - destruct HI as [Hwf H]. split; [apply wf_keys_update, Hwf |]. cbn [Users set_Users].
    destruct H as [H | [Hs H]]; [left | right; split; [exact Hs |]];
      (apply update_row_other; [intros E'; apply E; symmetry; exact E' | exact H]).
Qed.

Lemma suspends_User_create (mk : string -> User) :
  (forall key, user_id (mk key) = key) ->
  keeps (suspended_or_not now u sure) any_report (User_create fault mk).
Proof.
  intros Hmk st r [Hwf H] HJ. unfold User_create.
  destruct (fault st _); simpl; [unfold suspended_or_not; auto |].
  split; [| exact HJ]. split; [apply wf_keys_create; [apply Hmk | exact Hwf] |].
  cbn [Users bump_idSupply set_Users].
  destruct H as [H | [Hs H]]; [left | right; split; [exact Hs |]];
    (apply in_app_iff; left; exact H).
Qed.

Lemma suspends_UserAuthentication_create (mk : string -> UserAuthentication) :
  keeps (suspended_or_not now u sure) any_report (UserAuthentication_create fault mk).
Proof.
  intros st r [Hwf H] HJ. unfold UserAuthentication_create.
  destruct (fault st _); simpl; [unfold suspended_or_not; auto |].
  split; [| exact HJ]. split; [apply wf_keys_bump, Hwf | exact H].
Qed.

Lemma suspends_GroupUser_create (row : GroupUser) :
  keeps (suspended_or_not now u sure) any_report (GroupUser_create fault row).
Proof. apply keeps_write. intros st H. exact H. Qed.

Lemma suspends_phase1_body (m : gmap string SyncUser) (processed : gset string)
    (auth : UserAuthentication) (user : User) :
  (user_id user = user_id u -> m !! ua_providerId auth = None) ->
  keeps (suspended_or_not now u sure) any_report
    (phase1_body fault now m processed (auth, Some user)).
Proof.
  intros Hrow. simpl. destruct (decide (user_id user = user_id u)) as [E | E].
  - rewrite (Hrow E).
    keeps_walk; apply suspends_User_update; intros _; reflexivity.
  - destruct (m !! ua_providerId auth);
      keeps_walk; apply suspends_User_update; intros E'; contradiction.
Qed.

Lemma suspends_phase1 (m : gmap string SyncUser)
    (l : list (UserAuthentication * option User)) (s : gset string) :
  (forall auth user, In (auth, Some user) l -> user_id user = user_id u ->
                     m !! ua_providerId auth = None) ->
  keeps (suspended_or_not now u sure) any_report
    (for_each_with l s (phase1_body fault now m)).
Proof.
  revert s. induction l as [| [auth joined] l IH]; intros s Hl; cbn [for_each_with].
  - apply keeps_ret.
  - apply keeps_bind.
    + destruct joined as [user |]; [| apply keeps_ret].
      apply suspends_phase1_body, (Hl auth). left. reflexivity.
    + intros s'. apply IH. intros a v Hin. apply (Hl a). right. exact Hin.
Qed.

Lemma suspends_phase2_body (team : Team) (tid aid : string) (dg : option Group)
    (processed : gset string) (pu : SyncUser) :
  iLike (user_email u) (su_email pu) = false ->
  keeps (suspended_or_not now u sure) any_report
    (phase2_body fault team tid aid dg processed pu).
Proof.
  intros Hno. unfold phase2_body. destruct (decide _); [apply keeps_ret |].
  destruct (negb _); [apply keeps_update_result; auto |].
  apply keeps_try_catch; [| intros msg; apply keeps_update_result; auto].
  apply keeps_bind_read_in. intros st [[Hnd _] HI].
  destruct (User_findOne_iLike st tid (su_email pu)) as [u0 |] eqn:E.
  - assert (user_id u0 <> user_id u) as Hk.
    { unfold User_findOne_iLike in E. apply find_some in E as [Hin H].
      apply andb_true_iff in H as [_ H]. intros Eid.
      assert (user_email u0 = user_email u) as Ee.
      { destruct HI as [HI | [_ HI]].
        - assert (u0 = apply_changes (suspension now) u) as ->; [| reflexivity].
          apply (NoDup_map_inj user_id (Users st)); assumption.
        - assert (u0 = u) as ->; [| reflexivity].
          apply (NoDup_map_inj user_id (Users st)); assumption. }
      rewrite Ee, Hno in H. discriminate. }
    keeps_walk;
      first [ apply suspends_User_update; intros E'; contradiction
            | apply suspends_UserAuthentication_create ].
  - keeps_walk;
      first [ apply suspends_User_create; intros key; reflexivity
            | apply suspends_UserAuthentication_create
            | apply suspends_GroupUser_create ].
Qed.

End Suspends.

(** Phase 1 suspends an active user it meets through an authentication whose
    provider id the snapshot lacks. *)
Lemma phase1_suspends (fault : Fault) (now : Z) (u : User) (m : gmap string SyncUser)
    (l : list (UserAuthentication * option User)) (s : gset string) (auth : UserAuthentication)
    (st : Store) (r : UserSyncerResult) :
  (forall a user, In (a, Some user) l -> user_id user = user_id u ->
                  m !! ua_providerId a = None) ->
  In (auth, Some u) l -> user_suspendedAt u = None ->
  (forall st, fault st (UserUpdate (user_id u) (suspension now)) = None) ->
  suspended_or_not now u false st ->
  suspended_or_not now u true (for_each_with l s (phase1_body fault now m) st r).1.2.
Proof.
  intros Hl Hin Hactive Hok. revert s st r Hl Hin.
  induction l as [| row l IH]; intros s st r Hl Hin HI; [destruct Hin |].
  cbn [for_each_with]. unfold bind at 1. destruct Hin as [-> | Hin].
  - rewrite phase1_body_suspends;
      [| apply (Hl auth u); [left |]; reflexivity | exact Hactive | apply Hok].
    apply (suspends_phase1 fault now u true m l _).
    + intros a v Hv. apply (Hl a v). right. exact Hv.
    + apply (suspension_applies now u false true), HI.
    + exact I.
  - destruct (returns_phase1_body fault now m s row st r) as [s1 [st1 [r1 E]]].
    assert (suspended_or_not now u false st1) as HI1.
    { destruct row as [a [v |]].
      - pose proof (suspends_phase1_body fault now u false m s a v
                      (Hl a v (or_introl eq_refl)) st r HI I) as H.
        rewrite E in H. apply H.
      - simpl in E. injection E as _ <- _. exact HI. }
    rewrite E. apply IH; [| exact Hin | exact HI1].
    intros a v Hv. apply (Hl a v). right. exact Hv.
Qed.

(** A call of the engine suspends an active user of the team who is linked
    to the provider, when the snapshot has no entry under the provider id of
    any of the user's authentications, no entry's email matches the user's,
    and the database accepts the suspension. *)
Lemma userSyncer_suspends (fault : Fault) (now : Z) (props : Props) (st : Store)
    (u : User) (auth : UserAuthentication) :
  wf_keys st -> users props <> [] ->
  Team_findByPk st (teamId props) <> None ->
  AuthenticationProvider_findByPk st (authenticationProviderId props) <> None ->
  In u (Users st) -> user_teamId u = teamId props -> user_suspendedAt u = None ->
  In auth (UserAuthentications st) ->
  ua_authenticationProviderId auth = authenticationProviderId props ->
  ua_userId auth = user_id u ->
  (forall a pu, In a (UserAuthentications st) ->
                ua_authenticationProviderId a = authenticationProviderId props ->
                ua_userId a = user_id u ->
                In pu (users props) -> su_providerId pu <> ua_providerId a) ->
  (forall pu, In pu (users props) -> iLike (user_email u) (su_email pu) = false) ->
  (forall s, fault s (UserUpdate (user_id u) (suspension now)) = None) ->
  wf_keys (snd (userSyncer fault now props st))
  /\ In (apply_changes (suspension now) u) (Users (snd (userSyncer fault now props st))).
Proof.
  intros Hwf Hne Hteam Hap Hu Ht Hactive Hauth Haid Hkey Hlinked Hmatch Hok.
  destruct (userSyncer_returns fault now props st) as [r [st1 [E Eb]]]. rewrite E.
  enough (suspended_or_not now u true
            (userSyncer_body fault now props st initial_result).1.2) as H.
  { rewrite Eb in H. destruct H as [H1 [H2 | [H2 _]]]; [auto | discriminate]. }
  assert (suspended_or_not now u false st) as H0 by (split; auto).
  unfold userSyncer_body.
  assert ((length (users props) =? 0)%nat = false) as ->
    by (destruct (users props); [contradiction | reflexivity]).
  unfold bind at 1, read at 1.
  destruct (Team_findByPk st (teamId props)) as [team |]; [| contradiction].
  unfold bind at 1, read at 1.
  destruct (AuthenticationProvider_findByPk st _) as [ap |]; [| contradiction].
  unfold bind at 1, read at 1. unfold bind at 1, read at 1.
  unfold bind.
  pose proof (phase1_suspends fault now u (providerUsersMap_of (users props))
                (UserAuthentication_findAll st (authenticationProviderId props)
                   (teamId props)) ∅ auth st initial_result) as H1.
  destruct (returns_phase1 fault now (providerUsersMap_of (users props))
              (UserAuthentication_findAll st (authenticationProviderId props)
                 (teamId props)) st initial_result) as [processed [st2 [r2 E1]]].
  unfold phase1 in *. rewrite E1 in H1 |- *. simpl in H1.
  refine (proj1 (keeps_for_each_in (suspended_or_not now u true) any_report _ _ _ st2 r2
                   _ I)).
  - intros pu Hpu. apply suspends_phase2_body, Hmatch, Hpu.
  - apply H1; [| | exact Hactive | exact Hok | exact H0].
    + intros a v Hin Ev. apply findAll_row in Hin as (Ha & Hp & Hv & Hk & _).
      apply providerUsersMap_of_None. intros pu Hpu.
      apply (Hlinked a pu); [assumption .. | congruence | assumption].
    + apply findAll_has_row; assumption.
Qed.

Section ProviderRows.

Variable fault : Fault.
Variable now : Z.
Variable aid : string.
Variable rows : list UserAuthentication.

Lemma provider_rows_User_update (uid : string) (c : UserChanges) :
  keeps (same_provider_rows aid rows) any_report (User_update fault uid c).
Proof. apply keeps_write. intros st H. exact H. Qed.

Lemma provider_rows_User_create (mk : string -> User) :
  keeps (same_provider_rows aid rows) any_report (User_create fault mk).
Proof. intros st r HI HJ. unfold User_create. destruct (fault st _); simpl; auto. Qed.

Lemma provider_rows_GroupUser_create (row : GroupUser) :
  keeps (same_provider_rows aid rows) any_report (GroupUser_create fault row).
Proof. apply keeps_write. intros st H. exact H. Qed.

(** A row created for another provider is not a row of this one. *)
Lemma provider_rows_UserAuthentication_create (mk : string -> UserAuthentication) :
  (forall key, ua_authenticationProviderId (mk key) <> aid) ->
  keeps (same_provider_rows aid rows) any_report (UserAuthentication_create fault mk).
Proof.
  intros Hmk st r HI HJ. unfold UserAuthentication_create.
  destruct (fault st _); simpl; [auto |]. split; [| exact HJ].
  unfold same_provider_rows in *. simpl. rewrite filter_app, HI.
  rewrite filter_cons_False, filter_nil; [apply app_nil_r | apply Hmk].
Qed.

Lemma provider_rows_phase1_body (m : gmap string SyncUser) (processed : gset string)
    (row : UserAuthentication * option User) :
  keeps (same_provider_rows aid rows) any_report (phase1_body fault now m processed row).
Proof.
  destruct row as [auth [user |]]; simpl; keeps_walk; apply provider_rows_User_update.
Qed.

Lemma provider_rows_phase2_body (team : Team) (tid aid' : string) (dg : option Group)
    (processed : gset string) (pu : SyncUser) :
  aid' <> aid ->
  keeps (same_provider_rows aid rows) any_report
    (phase2_body fault team tid aid' dg processed pu).
Proof.
  intros Hne. unfold phase2_body. destruct (decide _); [apply keeps_ret |].
  keeps_walk;
    first [ apply provider_rows_User_update
          | apply provider_rows_User_create
          | apply provider_rows_GroupUser_create
          | apply provider_rows_UserAuthentication_create; intros key; exact Hne ].
Qed.

Lemma provider_rows_userSyncer_body (props : Props) :
  authenticationProviderId props <> aid ->
  keeps (same_provider_rows aid rows) any_report (userSyncer_body fault now props).
Proof.
  intros Hne. unfold userSyncer_body.
  destruct (_ =? _)%nat; [apply keeps_update_result; auto |].
  apply keeps_bind; [apply keeps_read |].
  intros [team |]; [| apply keeps_update_result; auto].
  apply keeps_bind; [apply keeps_read |].
  intros [ap |]; [| apply keeps_update_result; auto].
  apply keeps_bind; [apply keeps_read |]. intros dg.
  apply keeps_bind; [apply keeps_read |]. intros auths.
  apply keeps_bind.
  - apply keeps_for_each_with. intros. apply provider_rows_phase1_body.
  - intros processed. apply keeps_for_each. intros.
    apply provider_rows_phase2_body, Hne.
Qed.

End ProviderRows.

Section BindingsOfOthers.

Variable fault : Fault.
Variable now : Z.
Variable syncUsers : list SyncUser.

Lemma sync_bindings_app (before after : list AuthenticationProvider) (st : Store) :
  (sync_bindings fault now (before ++ after) syncUsers st).1
  = (sync_bindings fault now after syncUsers
       (sync_bindings fault now before syncUsers st).1).1.
Proof.
  revert st. induction before as [| ap aps IH]; intros st; simpl; [reflexivity |].
  destruct (userSyncer fault now (sync_props ap syncUsers) st) as [o st1].
  specialize (IH st1).
  destruct (sync_bindings fault now (aps ++ after) syncUsers st1) as [st2 log2].
  destruct (sync_bindings fault now aps syncUsers st1) as [st3 log3].
  exact IH.
Qed.

Lemma sync_bindings_other_provider (aid : string) (rows : list UserAuthentication)
    (authProviders : list AuthenticationProvider) (st : Store) :
  (forall ap, In ap authProviders -> ap_id ap <> aid) ->
  same_provider_rows aid rows st ->
  same_provider_rows aid rows (sync_bindings fault now authProviders syncUsers st).1.
Proof.
  revert st. induction authProviders as [| ap aps IH]; intros st Hall H; simpl;
    [exact H |].
  destruct (userSyncer_returns fault now (sync_props ap syncUsers) st)
    as [r [st1 [E Eb]]].
  rewrite E.
  pose proof (provider_rows_userSyncer_body fault now aid rows (sync_props ap syncUsers)
                (Hall ap (or_introl eq_refl)) st initial_result H I) as H1.
  rewrite Eb in H1. specialize (IH st1 (fun a Ha => Hall a (or_intror Ha)) (proj1 H1)).
  destruct (sync_bindings fault now aps syncUsers st1) as [st2 log]. exact IH.
Qed.

End BindingsOfOthers.

(** With the synchronisation switched on and configured, a binding selected,
    the admin API reachable and users listed, the task goes through the
    selected bindings. *)
Lemma perform_runs (fault : Fault) (now : Z) (env : Env) (client : KeycloakAdminClient)
    (partition : string -> bool) (fuel : nat) (st : Store)
    (keycloakUsers : list KeycloakUser) :
  OIDC_SYNC_ENABLED env = true ->
  Js.truthy_opt (OIDC_SYNC_ADMIN_URL env) = true ->
  Js.truthy_opt (OIDC_SYNC_REALM env) = true ->
  client_constructible env = true ->
  testConnection client = true ->
  getAllUsers fuel client 100 (Some true) = Some (Ok keycloakUsers) ->
  selected partition st <> [] -> keycloakUsers <> [] ->
  perform fault now env client partition fuel st
  = Some (sync_bindings fault now (selected partition st) (toSyncUsers keycloakUsers) st).
Proof.
  intros Hon Hurl Hrealm Hcons Hconn Hlist Hsel Hkus. unfold perform.
  fold (selected partition st). rewrite Hon, Hurl, Hrealm, Hcons, Hconn, Hlist.
  simpl. destruct (selected partition st); [contradiction |].
  destruct keycloakUsers; [contradiction |]. reflexivity.
Qed.

Lemma toSyncUsers_In (keycloakUsers : list KeycloakUser) (pu : SyncUser) :
  In pu (toSyncUsers keycloakUsers) ->
  exists k e, In k keycloakUsers /\ kc_email k = Some e /\ e <> ""
              /\ su_providerId pu = kc_id k /\ su_email pu = e.
Proof.
  unfold toSyncUsers. intros H. apply in_map_iff in H as [k [<- Hk]].
  apply list_elem_of_In, list_elem_of_filter in Hk as [He Hk].
  apply truthy_opt_Some in He as [e [He Hne]].
  exists k, e. rewrite He. split_and!; auto. apply list_elem_of_In, Hk.
Qed.

(** X20: a linked, active user whose records in the provider have no email
    is suspended by the scheduled sync.  The task is switched on and
    configured, the database answers the queries, the admin API answers and
    lists the users, and some record has an email, so the engine is not given
    an empty snapshot.  The user's team has one selected binding, and the
    other selected bindings are for other teams and other providers.  Every
    listed record whose id is the provider id of one of the user's
    authentications with that provider lacks an email, no listed email, read
    as a pattern of ILIKE, matches the user's email (the emails being in
    ASCII), and the database accepts the suspension.  Then the task returns,
    and it leaves the user in the table with [suspendedAt] set to the current
    time and the other columns as they were. *)
Theorem record_without_email_is_suspended (fault : Fault) (now : Z) (env : Env)
    (client : KeycloakAdminClient) (partition : string -> bool) (fuel : nat)
    (st : Store) (keycloakUsers : list KeycloakUser)
    (before after : list AuthenticationProvider) (authProvider : AuthenticationProvider)
    (u : User) (auth : UserAuthentication) :
  OIDC_SYNC_ENABLED env = true ->
  Js.truthy_opt (OIDC_SYNC_ADMIN_URL env) = true ->
  Js.truthy_opt (OIDC_SYNC_REALM env) = true ->
  client_constructible env = true ->
  testConnection client = true ->
  getAllUsers fuel client 100 (Some true) = Some (Ok keycloakUsers) ->
  selected partition st = (before ++ authProvider :: after)%list ->
  (forall other, In other (before ++ after)%list ->
                 ap_teamId other <> ap_teamId authProvider
                 /\ ap_id other <> ap_id authProvider) ->
  wf_keys st ->
  Team_findByPk st (ap_teamId authProvider) <> None ->
  In u (Users st) -> user_teamId u = ap_teamId authProvider ->
  user_suspendedAt u = None ->
  In auth (UserAuthentications st) ->
  ua_authenticationProviderId auth = ap_id authProvider ->
  ua_userId auth = user_id u ->
  (forall a k, In a (UserAuthentications st) ->
               ua_authenticationProviderId a = ap_id authProvider ->
               ua_userId a = user_id u ->
               In k keycloakUsers -> kc_id k = ua_providerId a ->
               Js.truthy_opt (kc_email k) = false) ->
  (exists k, In k keycloakUsers /\ Js.truthy_opt (kc_email k) = true) ->
  (forall e, user_email u = Some e -> Js.is_ascii e = true) ->
  (forall k e, In k keycloakUsers -> kc_email k = Some e ->
               Js.is_ascii e = true /\ iLike (user_email u) e = false) ->
  (forall s, fault s (UserUpdate (user_id u) (suspension now)) = None) ->
  exists st' log,
    perform fault now env client partition fuel st = Some (st', log)
    /\ In (apply_changes (suspension now) u) (Users st').
Proof.
  intros Hon Hurl Hrealm Hcons Hconn Hlist Hsel Hothers Hwf Hteam Hu Ht Hactive
    Hauth Haid Hkey Hnone [k0 [Hk0 Hk0e]] Hascii Hmatch Hok.
  rewrite (perform_runs fault now env client partition fuel st keycloakUsers);
    [| assumption .. | rewrite Hsel; intros H; destruct before; discriminate H
     | intros ->; destruct Hk0 ].
  rewrite Hsel.
  destruct (sync_bindings fault now (before ++ authProvider :: after)%list
              (toSyncUsers keycloakUsers) st) as [st' log] eqn:E.
  exists st', log. split; [reflexivity |].
  assert (st' = (sync_bindings fault now (before ++ authProvider :: after)%list
                   (toSyncUsers keycloakUsers) st).1) as -> by (rewrite E; reflexivity).
  clear E. rewrite sync_bindings_app.
  set (syncUsers := toSyncUsers keycloakUsers).
  set (tid := ap_teamId authProvider) in *.
  set (aid := ap_id authProvider) in *.
  pose proof (sync_bindings_other_team fault now syncUsers tid before st Hwf)
    as [Hwf1 Hu1].
  { intros other Ho. apply Hothers, in_app_iff. auto. }
  pose proof (sync_bindings_extends fault now syncUsers st before st (extends_refl st))
    as (HT & HA & _ & Hprefix & _).
  pose proof (sync_bindings_other_provider fault now syncUsers aid _ before st
                (fun other Ho => proj2 (Hothers other (proj2 (in_app_iff _ _ _)
                                                          (or_introl Ho))))
                eq_refl) as Hrows.
  set (st1 := (sync_bindings fault now before syncUsers st).1) in *.
  cbn [sync_bindings].
  pose proof (userSyncer_suspends fault now (sync_props authProvider syncUsers) st1 u auth)
    as H2.
  destruct (userSyncer fault now (sync_props authProvider syncUsers) st1) as [o st2].
  simpl in H2.
  destruct H2 as [Hwf2 Hu2]; try assumption.
  - intros E. assert (In (nth 0 syncUsers {| su_providerId := ""; su_email := "";
                                              su_name := ""; su_avatarUrl := None |}) []) as [].
    rewrite <- E. unfold syncUsers, toSyncUsers.
    assert (In k0 (filter (fun u0 => Js.truthy_opt (kc_email u0) = true) keycloakUsers))
      as Hin.
    { apply list_elem_of_In, list_elem_of_filter. split; [exact Hk0e |].
      apply list_elem_of_In, Hk0. }
    destruct (filter _ keycloakUsers); [destruct Hin |]. left. reflexivity.
  - unfold Team_findByPk. rewrite HT. exact Hteam.
  - unfold AuthenticationProvider_findByPk. rewrite HA.
    apply (find_by_pk ap_id). 
    assert (In authProvider (selected partition st)) as Hin
      by (rewrite Hsel; apply in_app_iff; right; left; reflexivity).
    apply list_elem_of_In, list_elem_of_filter in Hin as [_ Hin].
    apply list_elem_of_In, Hin.
  - assert (In u (users_of tid st)) as Hin.
    { apply list_elem_of_In, list_elem_of_filter. split; [exact Ht |].
      apply list_elem_of_In, Hu. }
    rewrite <- Hu1 in Hin.
    apply list_elem_of_In, list_elem_of_filter in Hin as [_ Hin]. apply list_elem_of_In, Hin.
  - destruct Hprefix as [more ->]. apply in_app_iff. auto.
  - intros a pu Ha Hp Hk Hpu Eid.
    assert (In a (UserAuthentications st)) as Ha0.
    { assert (In a (filter (fun a => ua_authenticationProviderId a = aid)
                      (UserAuthentications st1))) as Hin.
      { apply list_elem_of_In, list_elem_of_filter. split; [exact Hp |].
        apply list_elem_of_In, Ha. }
      rewrite Hrows in Hin.
      apply list_elem_of_In, list_elem_of_filter in Hin as [_ Hin].
      apply list_elem_of_In, Hin. }
    apply toSyncUsers_In in Hpu as (k & e & Hk' & He & Hne & Hid & _).
    pose proof (Hnone a k Ha0 Hp Hk Hk') as H. rewrite He in H.
    assert (Js.truthy_opt (Some e) = true) as Htr
      by (apply truthy_opt_Some; exists e; auto).
    rewrite H in Htr; [discriminate | congruence].
  - intros pu Hpu. apply toSyncUsers_In in Hpu as (k & e & Hk' & He & _ & _ & ->).
    apply (Hmatch k e Hk' He).
  - pose proof (sync_bindings_other_team fault now syncUsers tid after st2 Hwf2)
      as [_ Hu3].
    { intros other Ho. apply Hothers, in_app_iff. auto. }
    assert (In (apply_changes (suspension now) u) (users_of tid st2)) as Hin.
    { apply list_elem_of_In, list_elem_of_filter. split; [exact Ht |].
      apply list_elem_of_In, Hu2. }
    rewrite <- Hu3 in Hin.
    destruct (sync_bindings fault now after syncUsers st2) as [st3 log3].
    apply list_elem_of_In, list_elem_of_filter in Hin as [_ Hin]. apply list_elem_of_In, Hin.
Qed.

(** Bob, linked under "k1", whose record has no email, next to Eve, whose
    record has one. *)
Lemma record_without_email_is_suspended_witness :
  exists st' log,
    perform no_fault 1000 Scenario.env Scenario.two_users (fun _ => true) 1
      (Scenario.directory [Scenario.user "u" "bob@example.com" "Bob" None]
         [Scenario.auth "a" "k1" "u"]) = Some (st', log)
    /\ In (Scenario.user "u" "bob@example.com" "Bob" (Some 1000)) (Users st').
Proof.
  apply (record_without_email_is_suspended no_fault 1000 Scenario.env Scenario.two_users
           (fun _ => true) 1
           (Scenario.directory [Scenario.user "u" "bob@example.com" "Bob" None]
              [Scenario.auth "a" "k1" "u"])
           [ {| kc_id := "k1"; kc_username := "bob"; kc_email := None;
                kc_firstName := Some "Bob"; kc_lastName := None; kc_enabled := true |};
             {| kc_id := "k2"; kc_username := "eve"; kc_email := Some "eve@example.com";
                kc_firstName := Some "Eve"; kc_lastName := Some "Moneypenny";
                kc_enabled := true |} ]
           [] [] Scenario.P (Scenario.user "u" "bob@example.com" "Bob" None)
           (Scenario.auth "a" "k1" "u")).
  - reflexivity.
  - reflexivity.
  - reflexivity.
  - reflexivity.
  - reflexivity.
  - reflexivity.
  - reflexivity.
  - intros other [].
  - split.
    + simpl. apply NoDup_singleton.
    + intros n _ [H | []]. discriminate H.
  - discriminate.
  - left. reflexivity.
  - reflexivity.
  - reflexivity.
  - left. reflexivity.
  - reflexivity.
  - reflexivity.
  - intros a k [<- | []] _ _ [<- | [<- | []]] Hk; [reflexivity | discriminate Hk].
  - eexists. split; [right; left; reflexivity | reflexivity].
  - intros e [= <-]. vm_compute. reflexivity.
  - intros k e [<- | [<- | []]] [= <-]. split; vm_compute; reflexivity.
  - intros s. reflexivity.
Defined.

(** *** Display names *)

Lemma trimStart_empty (s : string) : Js.trimStart s = "" <-> blank s = true.
Proof.
  unfold blank. induction s as [| c s IH]; simpl; [tauto |].
  destruct (Js.is_space c); simpl; [exact IH |]. split; discriminate.
Qed.

Lemma trimEnd_empty (s : string) : Js.trimEnd s = "" <-> blank s = true.
Proof.
  unfold blank. induction s as [| c s IH]; simpl; [tauto |].
  destruct (Js.is_space c); simpl.
  - destruct (String.eqb_spec (Js.trimEnd s) "") as [E | E].
    + split; [intros _; apply IH, E | reflexivity].
    + split; [discriminate |]. intros H. apply IH in H. contradiction.
  - split; discriminate.
Qed.

Lemma blank_trimStart (s : string) : blank (Js.trimStart s) = blank s.
Proof.
  unfold blank. induction s as [| c s IH]; simpl; [reflexivity |].
  destruct (Js.is_space c) eqn:E; simpl; [exact IH |]. rewrite E. reflexivity.
Qed.

Lemma blank_app (a b : string) : blank (a ++ b) = (blank a && blank b)%bool.
Proof.
  unfold blank. induction a as [| c a IH]; simpl; [reflexivity |].
  rewrite IH. apply andb_assoc.
Qed.

Lemma trim_empty (s : string) : Js.trim s = "" <-> blank s = true.
Proof. unfold Js.trim. rewrite trimEnd_empty, blank_trimStart. reflexivity. Qed.

Lemma truthy_not_empty (s : string) : Js.truthy s = true <-> s <> "".
Proof.
  unfold Js.truthy. destruct (String.eqb_spec s ""); simpl; split; congruence.
Qed.

(** In the embedding, where [trim] removes the white space of ASCII, the
    display name is empty in one case only. *)
Lemma buildUserName_empty_blank (user : KeycloakUser) :
  buildUserName user = ""
  <-> exists first last,
        kc_firstName user = Some first /\ kc_lastName user = Some last
        /\ first <> "" /\ last <> "" /\ blank first = true /\ blank last = true.
Proof.
  unfold buildUserName.
  destruct (kc_firstName user) as [f |], (kc_lastName user) as [l |]; simpl.
  - destruct (Js.truthy f) eqn:Ef; simpl.
    + destruct (Js.truthy l) eqn:El; simpl.
      * rewrite trim_empty, !blank_app. change (blank " ") with true. simpl.
        rewrite andb_true_iff. apply truthy_not_empty in Ef, El. split.
        -- intros [Hf Hl]. exists f, l. auto 10.
        -- intros (f' & l' & [= <-] & [= <-] & _ & _ & Hf & Hl). auto.
      * apply truthy_not_empty in Ef. split; [contradiction |].
        intros (f' & l' & _ & [= <-] & _ & Hl & _).
        apply truthy_not_empty in Hl. congruence.
    + assert (~ (exists first last : string,
                   Some f = Some first /\ Some l = Some last /\ first <> "" /\ last <> ""
                   /\ blank first = true /\ blank last = true)) as Hno.
      { intros (f' & l' & [= <-] & _ & Hf & _). apply truthy_not_empty in Hf. congruence. }
      destruct (Js.truthy l) eqn:El.
      * apply truthy_not_empty in El. split; [contradiction | intros H; destruct (Hno H)].
      * unfold Js.or_else. simpl.
        destruct (Js.truthy (kc_username user)) eqn:Eu; simpl.
        { apply truthy_not_empty in Eu. split; [contradiction | intros H; destruct (Hno H)]. }
        destruct (Js.truthy_opt (kc_email user)) eqn:Ee; simpl.
        { destruct (kc_email user) as [e |]; [| discriminate]. simpl in *.
          apply truthy_not_empty in Ee.
          split; [contradiction | intros H; destruct (Hno H)]. }
        split; [discriminate | intros H; destruct (Hno H)].
  - assert (~ (exists first last : string,
                 Some f = Some first /\ None = Some last /\ first <> "" /\ last <> ""
                 /\ blank first = true /\ blank last = true)) as Hno.
    { intros (f' & l' & _ & [=] & _). }
    rewrite andb_false_r.
    destruct (Js.truthy f) eqn:Ef.
    + apply truthy_not_empty in Ef. split; [contradiction | intros H; destruct (Hno H)].
    + unfold Js.or_else. simpl.
      destruct (Js.truthy (kc_username user)) eqn:Eu; simpl.
      { apply truthy_not_empty in Eu. split; [contradiction | intros H; destruct (Hno H)]. }
      destruct (Js.truthy_opt (kc_email user)) eqn:Ee; simpl.
      { destruct (kc_email user) as [e |]; [| discriminate]. simpl in *.
        apply truthy_not_empty in Ee.
        split; [contradiction | intros H; destruct (Hno H)]. }
      split; [discriminate | intros H; destruct (Hno H)].
  - assert (~ (exists first last : string,
                 None = Some first /\ Some l = Some last /\ first <> "" /\ last <> ""
                 /\ blank first = true /\ blank last = true)) as Hno.
    { intros (f' & l' & [=] & _). }
    destruct (Js.truthy l) eqn:El.
    + apply truthy_not_empty in El. split; [contradiction | intros H; destruct (Hno H)].
    + unfold Js.or_else. simpl.
      destruct (Js.truthy (kc_username user)) eqn:Eu; simpl.
      { apply truthy_not_empty in Eu. split; [contradiction | intros H; destruct (Hno H)]. }
      destruct (Js.truthy_opt (kc_email user)) eqn:Ee; simpl.
      { destruct (kc_email user) as [e |]; [| discriminate]. simpl in *.
        apply truthy_not_empty in Ee.
        split; [contradiction | intros H; destruct (Hno H)]. }
      split; [discriminate | intros H; destruct (Hno H)].
  - assert (~ (exists first last : string,
                 None = Some first /\ None = Some last /\ first <> "" /\ last <> ""
                 /\ blank first = true /\ blank last = true)) as Hno.
    { intros (f' & l' & [=] & _). }
    unfold Js.or_else. simpl.
    destruct (Js.truthy (kc_username user)) eqn:Eu; simpl.
    { apply truthy_not_empty in Eu. split; [contradiction | intros H; destruct (Hno H)]. }
    destruct (Js.truthy_opt (kc_email user)) eqn:Ee; simpl.
    { destruct (kc_email user) as [e |]; [| discriminate]. simpl in *.
      apply truthy_not_empty in Ee.
      split; [contradiction | intros H; destruct (Hno H)]. }
    split; [discriminate | intros H; destruct (Hno H)].
Qed.

Lemma has_visible_not_blank (s : string) : has_visible s = true -> blank s = false.
Proof.
  unfold has_visible, blank.
  induction s as [| c s IH]; cbn [list_ascii_of_string existsb forallb];
    [discriminate |].
  intros H. apply orb_true_iff in H as [H | H].
  - apply andb_true_iff in H as [H1 H2].
    apply Nat.leb_le in H1. apply Nat.leb_le in H2.
    apply andb_false_iff. left. unfold Js.is_space.
    apply orb_false_iff. split.
    + apply andb_false_iff. right. apply Nat.leb_gt. lia.
    + apply Nat.eqb_neq. lia.
  - rewrite (IH H). apply andb_false_r.
Qed.

(** X21: the display name built for a record.  When the first or the last
    name is missing or empty, the name is not empty.  When both are given,
    the name is empty if both consist of white space of ASCII (tab, line
    feed, vertical tab, form feed, carriage return, space), and it is not
    empty if one of them holds a visible character of ASCII. *)
Theorem buildUserName_empty (user : KeycloakUser) :
  ((Js.truthy_opt (kc_firstName user) && Js.truthy_opt (kc_lastName user))%bool = false ->
   buildUserName user <> "")
  /\ (forall first last,
        kc_firstName user = Some first -> kc_lastName user = Some last ->
        first <> "" -> last <> "" ->
        (blank first = true -> blank last = true -> buildUserName user = "")
        /\ (has_visible first = true \/ has_visible last = true ->
            buildUserName user <> "")).
Proof.
  split.
  - intros Hone Hempty. apply buildUserName_empty_blank in Hempty
      as (f & l & Hf & Hl & Hfn & Hln & _).
    rewrite Hf, Hl in Hone. simpl in Hone.
    apply truthy_not_empty in Hfn, Hln. rewrite Hfn, Hln in Hone. discriminate.
  - intros first last Hf Hl Hfn Hln. split.
    + intros Bf Bl. apply buildUserName_empty_blank. exists first, last. auto 10.
    + intros Hv Hempty. apply buildUserName_empty_blank in Hempty
        as (f & l & Hf' & Hl' & _ & _ & Bf & Bl).
      rewrite Hf in Hf'. rewrite Hl in Hl'. injection Hf' as <-. injection Hl' as <-.
      destruct Hv as [Hv | Hv]; apply has_visible_not_blank in Hv; congruence.
Qed.

(** A record without names is called by its username; two names of one
    space each give the empty name; "Eve" and a space give a name that is not
    empty. *)
Lemma buildUserName_empty_witness :
  buildUserName {| kc_id := "k"; kc_username := "eve"; kc_email := None;
                   kc_firstName := None; kc_lastName := Some "";
                   kc_enabled := true |} <> ""
  /\ buildUserName {| kc_id := "k"; kc_username := "eve"; kc_email := None;
                      kc_firstName := Some " "; kc_lastName := Some " ";
                      kc_enabled := true |} = ""
  /\ buildUserName {| kc_id := "k"; kc_username := "eve"; kc_email := None;
                      kc_firstName := Some "Eve"; kc_lastName := Some " ";
                      kc_enabled := true |} <> "".
Proof.
  split; [| split].
  - refine (proj1 (buildUserName_empty
                     {| kc_id := "k"; kc_username := "eve"; kc_email := None;
                        kc_firstName := None; kc_lastName := Some "";
                        kc_enabled := true |}) _).
    reflexivity.
  - refine (proj1 (proj2 (buildUserName_empty
                            {| kc_id := "k"; kc_username := "eve"; kc_email := None;
                               kc_firstName := Some " "; kc_lastName := Some " ";
                               kc_enabled := true |})
                     " " " " eq_refl eq_refl _ _) _ _);
      first [discriminate | reflexivity].
  - refine (proj2 (proj2 (buildUserName_empty
                            {| kc_id := "k"; kc_username := "eve"; kc_email := None;
                               kc_firstName := Some "Eve"; kc_lastName := Some " ";
                               kc_enabled := true |})
                     "Eve" " " eq_refl eq_refl _ _) _);
      first [discriminate | left; reflexivity].
Defined.

(** *** The client, request by request *)

(** The abstract client of the scheduled task can be built exactly when the
    constructor does not throw. *)
Lemma constructor_constructible (env : Env) :
  client_constructible env = true <-> exists c, KeycloakAdmin.constructor env = Ok c.
Proof.
  unfold client_constructible, KeycloakAdmin.constructor, Js.or_else.
  destruct (Js.truthy_opt (OIDC_SYNC_CLIENT_ID env)) eqn:E1;
    destruct (Js.truthy_opt (OIDC_CLIENT_ID env)) eqn:E2;
    destruct (Js.truthy_opt (OIDC_SYNC_CLIENT_SECRET env)) eqn:E3;
    destruct (Js.truthy_opt (OIDC_CLIENT_SECRET env)) eqn:E4;
    destruct (Js.truthy_opt (OIDC_SYNC_ADMIN_URL env)) eqn:E5;
    destruct (Js.truthy_opt (OIDC_SYNC_REALM env)) eqn:E6;
    rewrite ?E1, ?E2, ?E3, ?E4, ?E5, ?E6; simpl;
    repeat match goal with
           | H : Js.truthy_opt ?o = true |- _ =>
               destruct o; [simpl in H; simpl; rewrite ?H | discriminate H]; clear H
           end;
    simpl;
    first [ split; [intros _; eexists; reflexivity | reflexivity]
          | split; [discriminate | intros [c Hc]; discriminate Hc] ].
Qed.

Section Tokens.

Context {T : Type}.
Variable world : KeycloakAdmin.World T.

(** A call of [getAdminToken] sends nothing or one token request, and
    leaves every field of the client but the cached token. *)
Lemma getAdminToken_sent (s : KeycloakAdmin.State) :
  let out := KeycloakAdmin.getAdminToken world s in
  (KeycloakAdmin.sent out.2 = KeycloakAdmin.sent s
   \/ KeycloakAdmin.sent out.2
      = (KeycloakAdmin.sent s ++ [KeycloakAdmin.token_request (KeycloakAdmin.this s)])%list)
  /\ (forall e, out.1 = KeycloakAdmin.Raise e ->
        KeycloakAdmin.sent out.2
        = (KeycloakAdmin.sent s ++ [KeycloakAdmin.token_request (KeycloakAdmin.this s)])%list).
Proof.
  unfold KeycloakAdmin.getAdminToken.
  destruct (KeycloakAdmin.accessToken (KeycloakAdmin.this s)) as [token |];
    destruct (KeycloakAdmin.tokenExpiresAt (KeycloakAdmin.this s)) as [expiresAt |];
    try destruct (Js.truthy token); try destruct (KeycloakAdmin.later _ _); simpl;
    try destruct (KeycloakAdmin.token_endpoint world _ _) as [response | msg]; simpl;
    try destruct (negb (KeycloakAdmin.ok response)); simpl;
    try destruct (KeycloakAdmin.json response) as [data | msg]; simpl;
    split; auto; intros e [=].
Qed.

End Tokens.

(** X22: with a clock that shows a time from the epoch on that [Date] can
    hold, a client without token asks for one, and stores it with the
    expiry [Date.now() + expires_in * 1000], read when the answer is there.
    A token that is not empty is returned again by the following call,
    without a request, as long as the clock is more than a minute before the
    expiry; once it is not, or when the expiry is beyond the range of
    [Date], the following call asks for a new token. *)
Theorem token_is_reused_until_a_minute_before_expiry {T : Type}
    (world : KeycloakAdmin.World T) (s : KeycloakAdmin.State)
    (response : KeycloakAdmin.Response KeycloakAdmin.TokenResponse)
    (data : KeycloakAdmin.TokenResponse) :
  let request := KeycloakAdmin.token_request (KeycloakAdmin.this s) in
  let token := KeycloakAdmin.access_token data in
  let expiry :=
    KeycloakAdmin.Date_now world (KeycloakAdmin.clock_reads s)
    + KeycloakAdmin.expires_in data * 1000 in
  let s1 :=
    {| KeycloakAdmin.this :=
         KeycloakAdmin.set_token (KeycloakAdmin.this s) (Some token)
           (Some (KeycloakAdmin.new_Date expiry));
       KeycloakAdmin.sent := (KeycloakAdmin.sent s ++ [request])%list;
       KeycloakAdmin.clock_reads := S (KeycloakAdmin.clock_reads s) |} in
  (forall n, 0 <= KeycloakAdmin.Date_now world n <= 8640000000000000) ->
  KeycloakAdmin.accessToken (KeycloakAdmin.this s) = None ->
  KeycloakAdmin.token_endpoint world (KeycloakAdmin.sent s) request = Ok response ->
  KeycloakAdmin.ok response = true ->
  KeycloakAdmin.json response = Ok data ->
  token <> "" ->
  KeycloakAdmin.getAdminToken world s = (KeycloakAdmin.Return token, s1)
  /\ forall s2,
       KeycloakAdmin.this s2 = KeycloakAdmin.this s1 ->
       let now := KeycloakAdmin.Date_now world (KeycloakAdmin.clock_reads s2) in
       (Z.abs expiry <= 8640000000000000 ->
        Z.abs (now + 60000) <= 8640000000000000 ->
        now + 60000 < expiry ->
        KeycloakAdmin.getAdminToken world s2
        = (KeycloakAdmin.Return token,
           {| KeycloakAdmin.this := KeycloakAdmin.this s2;
              KeycloakAdmin.sent := KeycloakAdmin.sent s2;
              KeycloakAdmin.clock_reads := S (KeycloakAdmin.clock_reads s2) |}))
       /\ (expiry <= now + 60000 \/ 8640000000000000 < Z.abs expiry ->
           KeycloakAdmin.sent (KeycloakAdmin.getAdminToken world s2).2
           = (KeycloakAdmin.sent s2
              ++ [KeycloakAdmin.token_request (KeycloakAdmin.this s2)])%list).
Proof.
  intros request token expiry s1 _ Hnone Hresp Hok Hjson Hne.
  assert (Js.truthy token = true) as Htr by (apply truthy_not_empty; exact Hne).
  split.
  - unfold KeycloakAdmin.getAdminToken. rewrite Hnone. fold request.
    rewrite Hresp, Hok. simpl. rewrite Hjson. reflexivity.
  - clear Hresp Hok Hjson. intros s2 E now.
    unfold KeycloakAdmin.getAdminToken. rewrite E. simpl.
    rewrite Htr. fold now. split.
    + intros H1 H2 Hlt.
      replace (KeycloakAdmin.later (KeycloakAdmin.new_Date expiry)
                 (KeycloakAdmin.new_Date (now + 60000))) with true; [reflexivity |].
      unfold KeycloakAdmin.later, KeycloakAdmin.new_Date.
      destruct (Z.leb_spec (Z.abs expiry) 8640000000000000); [| lia].
      destruct (Z.leb_spec (Z.abs (now + 60000)) 8640000000000000); [| lia].
      destruct (Z.ltb_spec (now + 60000) expiry); [reflexivity | lia].
    + intros Hlate.
      replace (KeycloakAdmin.later (KeycloakAdmin.new_Date expiry)
                 (KeycloakAdmin.new_Date (now + 60000))) with false.
      * simpl.
        destruct (KeycloakAdmin.token_endpoint world _ _) as [resp | msg]; simpl;
          [| reflexivity].
        destruct (negb (KeycloakAdmin.ok resp)); simpl; [reflexivity |].
        destruct (KeycloakAdmin.json resp) as [d | msg]; reflexivity.
      * unfold KeycloakAdmin.later, KeycloakAdmin.new_Date.
        destruct (Z.leb_spec (Z.abs expiry) 8640000000000000); [| reflexivity].
        destruct (Z.abs (now + 60000) <=? 8640000000000000); [| reflexivity].
        destruct (Z.ltb_spec (now + 60000) expiry); [lia | reflexivity].
Qed.

(** A token of five minutes, taken at time 0: the call at time 1000 returns
    it without a request, the call at time 250000 asks for a new one. *)
Lemma token_is_reused_until_a_minute_before_expiry_witness :
  let world : KeycloakAdmin.World Z :=
    {| KeycloakAdmin.token_endpoint := fun _ _ =>
         Ok {| KeycloakAdmin.ok := true; KeycloakAdmin.status := 200;
               KeycloakAdmin.text := Ok "";
               KeycloakAdmin.json :=
                 Ok {| KeycloakAdmin.access_token := "t1";
                       KeycloakAdmin.expires_in := 300 |} |};
       KeycloakAdmin.admin_api := fun _ _ => Throw "unreachable";
       KeycloakAdmin.Date_now := fun n =>
         match n with
         | 0%nat => 0
         | 1%nat => 1000
         | _ => 250000
         end |} in
  let s :=
    {| KeycloakAdmin.this :=
         {| KeycloakAdmin.adminUrl := "https://kc.example.com";
            KeycloakAdmin.realm := "main"; KeycloakAdmin.clientId := "outline";
            KeycloakAdmin.clientSecret := "secret"; KeycloakAdmin.accessToken := None;
            KeycloakAdmin.tokenExpiresAt := None |};
       KeycloakAdmin.sent := []; KeycloakAdmin.clock_reads := 0 |} in
  let first := KeycloakAdmin.getAdminToken world s in
  let second := KeycloakAdmin.getAdminToken world first.2 in
  let third := KeycloakAdmin.getAdminToken world second.2 in
  KeycloakAdmin.tokenExpiresAt (KeycloakAdmin.this first.2) = Some (Some 300000)
  /\ second.1 = KeycloakAdmin.Return "t1"
  /\ length (KeycloakAdmin.sent second.2) = 1%nat
  /\ length (KeycloakAdmin.sent third.2) = 2%nat.
Proof.
  intros world s first second third.
  destruct (token_is_reused_until_a_minute_before_expiry world s
              {| KeycloakAdmin.ok := true; KeycloakAdmin.status := 200;
                 KeycloakAdmin.text := Ok "";
                 KeycloakAdmin.json :=
                   Ok {| KeycloakAdmin.access_token := "t1";
                         KeycloakAdmin.expires_in := 300 |} |}
              {| KeycloakAdmin.access_token := "t1"; KeycloakAdmin.expires_in := 300 |})
    as [E H].
  - intros [| [| n]]; simpl; lia.
  - reflexivity.
  - reflexivity.
  - reflexivity.
  - reflexivity.
  - discriminate.
  - pose (st1 := first.2).
    assert (KeycloakAdmin.getAdminToken world st1
            = (KeycloakAdmin.Return "t1",
               {| KeycloakAdmin.this := KeycloakAdmin.this st1;
                  KeycloakAdmin.sent := KeycloakAdmin.sent st1;
                  KeycloakAdmin.clock_reads := S (KeycloakAdmin.clock_reads st1) |}))
      as Hreuse.
    { apply (H st1).
      - subst st1 first. rewrite E. reflexivity.
      - vm_compute. congruence.
      - vm_compute. congruence.
      - vm_compute. congruence. }
    pose (st2 := second.2).
    assert (KeycloakAdmin.sent (KeycloakAdmin.getAdminToken world st2).2
            = (KeycloakAdmin.sent st2
               ++ [KeycloakAdmin.token_request (KeycloakAdmin.this st2)])%list)
      as Hfetch.
    { apply (H st2).
      - subst st2 second. fold st1. rewrite Hreuse. subst st1 first. rewrite E.
        reflexivity.
      - left. vm_compute. congruence. }
    split_and!.
    + subst first. rewrite E. reflexivity.
    + subst second. fold st1. rewrite Hreuse. reflexivity.
    + subst second. fold st1. rewrite Hreuse. subst st1 first. rewrite E. reflexivity.
    + subst third. fold st2. rewrite Hfetch. subst st2 second. fold st1.
      rewrite Hreuse. subst st1 first. rewrite E. reflexivity.
Defined.

(** X23: when the admin API answers 401 or 403, [adminRequest] throws the
    authentication error with the text of the answer and forgets the token:
    the next call asks for a new one, whatever the clock says. *)
Theorem rejected_request_forgets_token {T : Type} (world : KeycloakAdmin.World T)
    (endpoint : string) (s s1 : KeycloakAdmin.State) (token : string)
    (response : KeycloakAdmin.Response T) :
  KeycloakAdmin.getAdminToken world s = (KeycloakAdmin.Return token, s1) ->
  KeycloakAdmin.admin_api world (KeycloakAdmin.sent s1)
    (KeycloakAdmin.api_request endpoint token) = Ok response ->
  KeycloakAdmin.ok response = false ->
  KeycloakAdmin.status response = 401 \/ KeycloakAdmin.status response = 403 ->
  exists s',
    KeycloakAdmin.adminRequest world endpoint s
    = (KeycloakAdmin.Raise
         (KeycloakAdmin.AuthenticationError
            ("Keycloak Admin API authentication failed: "
             ++ KeycloakAdmin.errorText response)), s')
    /\ KeycloakAdmin.this s' = KeycloakAdmin.set_token (KeycloakAdmin.this s) None None
    /\ KeycloakAdmin.sent (KeycloakAdmin.getAdminToken world s').2
       = (KeycloakAdmin.sent s'
          ++ [KeycloakAdmin.token_request (KeycloakAdmin.this s')])%list.
Proof.
  intros Ht Ha Hok Hst. unfold KeycloakAdmin.adminRequest. rewrite Ht, Ha, Hok. simpl.
  replace ((KeycloakAdmin.status response =? 401)
           || (KeycloakAdmin.status response =? 403))%bool with true
    by (destruct Hst as [-> | ->]; reflexivity).
  eexists. split; [reflexivity |]. simpl. split.
  - unfold KeycloakAdmin.getAdminToken in Ht.
    destruct (KeycloakAdmin.this s) as [u r i c a e] eqn:Ec. simpl in Ht.
    destruct a as [token0 |]; destruct e as [expiresAt0 |];
      try destruct (Js.truthy token0); try destruct (KeycloakAdmin.later _ _); simpl in Ht;
      try destruct (KeycloakAdmin.token_endpoint world _ _) as [resp | msg];
      simpl in Ht;
      try destruct (negb (KeycloakAdmin.ok resp)); simpl in Ht;
      try destruct (KeycloakAdmin.json resp) as [data | msg]; simpl in Ht;
      try discriminate Ht; injection Ht as <- <-; simpl; try rewrite Ec; reflexivity.
  - unfold KeycloakAdmin.getAdminToken. simpl.
    destruct (KeycloakAdmin.token_endpoint world _ _) as [resp | msg]; simpl;
      [| reflexivity].
    destruct (negb (KeycloakAdmin.ok resp)); simpl; [reflexivity |].
    destruct (KeycloakAdmin.json resp) as [data | msg]; reflexivity.
Qed.

Lemma adminRequest_after_token {T : Type} (world : KeycloakAdmin.World T)
    (endpoint : string) (s s1 : KeycloakAdmin.State) (token : string) :
  KeycloakAdmin.getAdminToken world s = (KeycloakAdmin.Return token, s1) ->
  KeycloakAdmin.sent (KeycloakAdmin.adminRequest world endpoint s).2
  = (KeycloakAdmin.sent s1 ++ [KeycloakAdmin.api_request endpoint token])%list.
Proof.
  intros H. unfold KeycloakAdmin.adminRequest. rewrite H.
  destruct (KeycloakAdmin.admin_api world _ _) as [response | msg]; [| reflexivity].
  destruct (negb _); [destruct (_ || _)%bool; reflexivity |].
  destruct (KeycloakAdmin.json response); reflexivity.
Qed.

(** X24: one [adminRequest] sends at most one token request and then, only
    if it has a token, exactly one GET to the endpoint with that token as
    bearer.  When no token can be had, the error of [getAdminToken] is thrown
    and nothing is sent to the admin API. *)
Theorem adminRequest_sends {T : Type} (world : KeycloakAdmin.World T)
    (endpoint : string) (s : KeycloakAdmin.State) :
  let token_request := KeycloakAdmin.token_request (KeycloakAdmin.this s) in
  let out := KeycloakAdmin.adminRequest world endpoint s in
  match KeycloakAdmin.getAdminToken world s with
  | (KeycloakAdmin.Raise e, s1) =>
      out = (KeycloakAdmin.Raise e, s1)
      /\ KeycloakAdmin.sent out.2 = (KeycloakAdmin.sent s ++ [token_request])%list
  | (KeycloakAdmin.Return token, _) =>
      KeycloakAdmin.sent out.2
      = (KeycloakAdmin.sent s ++ [KeycloakAdmin.api_request endpoint token])%list
      \/ KeycloakAdmin.sent out.2
         = (KeycloakAdmin.sent s
            ++ [token_request; KeycloakAdmin.api_request endpoint token])%list
  end.
Proof.
  intros token_request out. subst out.
  pose proof (getAdminToken_sent world s) as [Hs He].
  destruct (KeycloakAdmin.getAdminToken world s) as [[token | e] s1] eqn:E; simpl in *.
  - rewrite (adminRequest_after_token world endpoint s s1 token E).
    destruct Hs as [-> | ->]; [left; reflexivity |].
    right. rewrite <- app_assoc. reflexivity.
  - unfold KeycloakAdmin.adminRequest. rewrite E. split; [reflexivity |].
    exact (He e eq_refl).
Qed.

Lemma rejected_request_forgets_token_witness :
  let world : KeycloakAdmin.World Z :=
    {| KeycloakAdmin.token_endpoint := fun _ _ =>
         Ok {| KeycloakAdmin.ok := true; KeycloakAdmin.status := 200;
               KeycloakAdmin.text := Ok "";
               KeycloakAdmin.json :=
                 Ok {| KeycloakAdmin.access_token := "t1";
                       KeycloakAdmin.expires_in := 300 |} |};
       KeycloakAdmin.admin_api := fun _ _ =>
         Ok {| KeycloakAdmin.ok := false; KeycloakAdmin.status := 403;
               KeycloakAdmin.text := Ok "Forbidden"; KeycloakAdmin.json := Ok 0 |};
       KeycloakAdmin.Date_now := fun n => 1000 * Z.of_nat n |} in
  let s :=
    {| KeycloakAdmin.this :=
         {| KeycloakAdmin.adminUrl := "https://kc.example.com";
            KeycloakAdmin.realm := "main"; KeycloakAdmin.clientId := "outline";
            KeycloakAdmin.clientSecret := "secret"; KeycloakAdmin.accessToken := None;
            KeycloakAdmin.tokenExpiresAt := None |};
       KeycloakAdmin.sent := []; KeycloakAdmin.clock_reads := 0 |} in
  (KeycloakAdmin.adminRequest world "https://kc.example.com/admin/realms/main/users/count"
     s).1
  = KeycloakAdmin.Raise
      (KeycloakAdmin.AuthenticationError
         "Keycloak Admin API authentication failed: Forbidden").
Proof.
  intros world s.
  destruct (rejected_request_forgets_token world
              "https://kc.example.com/admin/realms/main/users/count" s
              (KeycloakAdmin.getAdminToken world s).2 "t1"
              {| KeycloakAdmin.ok := false; KeycloakAdmin.status := 403;
                 KeycloakAdmin.text := Ok "Forbidden"; KeycloakAdmin.json := Ok 0 |})
    as [s' [H _]].
  - reflexivity.
  - reflexivity.
  - reflexivity.
  - right. reflexivity.
  - rewrite H. reflexivity.
Defined.

(** *** The default group *)

Lemma find_defaultGroup_Some (st : Store) (tid : string) (gid gname : option string)
    (g : Group) :
  find_defaultGroup st tid gid gname = Some g ->
  In g (Groups st) /\ group_teamId g = tid.
Proof.
  unfold find_defaultGroup, Group_findOne_byId, Group_findOne_byName. intros H.
  destruct gid as [i |]; [destruct (Js.truthy i) |];
    try (destruct gname as [n |]; [destruct (Js.truthy n) |]); try discriminate H;
    apply find_some in H as [Hin H]; apply andb_true_iff in H as [H1 H2];
    apply String.eqb_eq in H1, H2; auto.
Qed.

(** X25: a default group id that is given but matches no group of the team
    disables the assignment: the name is not tried, whatever it is, and the
    run adds nobody to a group. *)
Theorem unknown_default_group_id_disables_assignment (fault : Fault) (now : Z)
    (props : Props) (st : Store) (gid : string) :
  defaultGroupId props = Some gid ->
  gid <> "" ->
  (forall g, In g (Groups st) -> group_teamId g = teamId props -> group_id g <> gid) ->
  exists r st',
    userSyncer fault now props st = (Ok r, st')
    /\ GroupUsers st' = GroupUsers st /\ addedToGroup r = 0%nat.
Proof.
  intros Hid Hne Hnone.
  destruct (userSyncer_returns fault now props st) as [r [st' [E Eb]]].
  exists r, st'. split; [exact E |].
  assert (find_defaultGroup st (teamId props) (defaultGroupId props)
            (defaultGroupName props) = None) as Hdg.
  { unfold find_defaultGroup. rewrite Hid.
    replace (Js.truthy gid) with true by (symmetry; apply truthy_not_empty; exact Hne).
    unfold Group_findOne_byId. apply find_none_intro. intros g Hin.
    destruct (String.eqb_spec (group_id g) gid) as [Eg | Eg]; [| reflexivity].
    destruct (String.eqb_spec (group_teamId g) (teamId props)) as [Et | Et];
      [| reflexivity].
    destruct (Hnone g Hin Et Eg). }
  revert Eb. unfold userSyncer_body.
  destruct (_ =? _)%nat; [intros [= <- <-]; auto |].
  unfold bind at 1, read at 1.
  destruct (Team_findByPk st (teamId props)) as [team |]; [| intros [= <- <-]; auto].
  unfold bind at 1, read at 1.
  destruct (AuthenticationProvider_findByPk st (authenticationProviderId props))
    as [ap |]; [| intros [= <- <-]; auto].
  unfold bind at 1, read at 1. rewrite Hdg. unfold bind at 1, read at 1. intros Eb.
  assert (keeps (same_memberships (GroupUsers st)) nobody_added
            (processed <- phase1 fault now (providerUsersMap_of (users props))
                            (UserAuthentication_findAll st
                               (authenticationProviderId props) (teamId props)) ;;
             phase2 fault team (teamId props) (authenticationProviderId props) None
               processed (users props))) as K.
  { apply keeps_bind.
    - apply keeps_for_each_with. intros. apply no_group_phase1_body.
    - intros processed. apply keeps_for_each. intros. apply no_group_phase2_body. }
  specialize (K st initial_result eq_refl eq_refl). rewrite Eb in K. exact K.
Qed.

Lemma unknown_default_group_id_disables_assignment_witness :
  exists r st',
    userSyncer no_fault 1000
      {| teamId := "T"; authenticationProviderId := "P";
         users := [Scenario.entry "g1" "a@example.com" "A"];
         defaultGroupId := Some "G2"; defaultGroupName := Some "Staff" |}
      (Scenario.directory [] []) = (Ok r, st')
    /\ GroupUsers st' = [] /\ addedToGroup r = 0%nat.
Proof.
  apply (unknown_default_group_id_disables_assignment no_fault 1000
           {| teamId := "T"; authenticationProviderId := "P";
              users := [Scenario.entry "g1" "a@example.com" "A"];
              defaultGroupId := Some "G2"; defaultGroupName := Some "Staff" |}
           (Scenario.directory [] []) "G2").
  - reflexivity.
  - discriminate.
  - intros g [<- | []] _. discriminate.
Defined.

Lemma phase2_body_memberships (fault : Fault) (team : Team) (tid aid : string)
    (dg : option Group) (processed : gset string) (pu : SyncUser) (st : Store)
    (r : UserSyncerResult) :
  exists st' r',
    phase2_body fault team tid aid dg processed pu st r = (Ok tt, st', r')
    /\ ((GroupUsers st' = GroupUsers st /\ addedToGroup r' = addedToGroup r)
        \/ exists g uid,
             dg = Some g
             /\ GroupUsers st'
                = (GroupUsers st
                   ++ [{| gu_userId := uid; gu_groupId := group_id g;
                          gu_permission := GroupMember |}])%list
             /\ addedToGroup r' = S (addedToGroup r)).
Proof.
  unfold phase2_body. destruct (decide _); [exists st, r; auto |].
  run_engine. split_cases.
  all: simpl; eexists _, _; (split; [reflexivity |]).
  all: first [ left; split; reflexivity
             | right; eexists _, _; split_and!; reflexivity ].
Qed.

Lemma phase2_memberships (fault : Fault) (team : Team) (tid aid : string)
    (dg : option Group) (processed : gset string) (l : list SyncUser) (st : Store)
    (r : UserSyncerResult) :
  exists st' r' new,
    for_each l (phase2_body fault team tid aid dg processed) st r = (Ok tt, st', r')
    /\ GroupUsers st' = (GroupUsers st ++ new)%list
    /\ addedToGroup r' = (addedToGroup r + length new)%nat
    /\ Forall (fun gu => exists g, dg = Some g /\ gu_groupId gu = group_id g
                                   /\ gu_permission gu = GroupMember) new.
Proof.
  revert st r. induction l as [| pu l IH]; intros st r.
  - exists st, r, []. rewrite app_nil_r. simpl. split_and!; auto.
  - destruct (phase2_body_memberships fault team tid aid dg processed pu st r)
      as (st1 & r1 & E & H).
    destruct (IH st1 r1) as (st' & r' & new & E' & Hg & Hr & Hnew).
    assert (for_each (pu :: l) (phase2_body fault team tid aid dg processed) st r
            = (Ok tt, st', r')) as Erun.
    { cbn [for_each]. unfold bind at 1. rewrite E. exact E'. }
    destruct H as [[Hg1 Hr1] | (g & uid & Edg & Hg1 & Hr1)].
    + exists st', r', new. split_and!; [exact Erun | congruence | congruence | exact Hnew].
    + exists st', r',
        ({| gu_userId := uid; gu_groupId := group_id g; gu_permission := GroupMember |}
         :: new).
      split_and!; [exact Erun | | |].
      * rewrite Hg, Hg1, <- app_assoc. reflexivity.
      * rewrite Hr, Hr1. simpl. lia.
      * constructor; [exists g; auto | exact Hnew].
Qed.

(** X26: [addedToGroup] is exact.  The run adds memberships at the end of the
    table and nowhere else, as many as [addedToGroup] says, and each of them
    is a membership with permission Member in the default group the lookup
    found, which is a group of the team of the call. *)
Theorem addedToGroup_counts_the_memberships (fault : Fault) (now : Z) (props : Props)
    (st : Store) :
  exists r st' new,
    userSyncer fault now props st = (Ok r, st')
    /\ GroupUsers st' = (GroupUsers st ++ new)%list
    /\ length new = addedToGroup r
    /\ Forall (fun gu =>
                 exists g,
                   find_defaultGroup st (teamId props) (defaultGroupId props)
                     (defaultGroupName props) = Some g
                   /\ In g (Groups st) /\ group_teamId g = teamId props
                   /\ gu_groupId gu = group_id g /\ gu_permission gu = GroupMember)
              new.
Proof.
  unfold userSyncer, userSyncer_body.
  destruct (_ =? _)%nat.
  { eexists _, _, []. rewrite app_nil_r. simpl. split_and!; auto. }
  unfold bind at 1, read at 1.
  destruct (Team_findByPk st (teamId props)) as [team |].
  2: { eexists _, _, []. rewrite app_nil_r. simpl. split_and!; auto. }
  unfold bind at 1, read at 1.
  destruct (AuthenticationProvider_findByPk st (authenticationProviderId props))
    as [ap |].
  2: { eexists _, _, []. rewrite app_nil_r. simpl. split_and!; auto. }
  unfold bind at 1, read at 1. unfold bind at 1, read at 1. unfold bind.
  set (rows := UserAuthentication_findAll st (authenticationProviderId props)
                 (teamId props)).
  set (dg := find_defaultGroup st (teamId props) (defaultGroupId props)
               (defaultGroupName props)).
  destruct (returns_phase1 fault now (providerUsersMap_of (users props)) rows st
              initial_result) as (processed & st1 & r1 & E1).
  assert (keeps (same_memberships (GroupUsers st)) nobody_added
            (phase1 fault now (providerUsersMap_of (users props)) rows)) as K.
  { apply keeps_for_each_with. intros. apply no_group_phase1_body. }
  specialize (K st initial_result eq_refl eq_refl). rewrite E1 in K.
  destruct K as [Hg1 Hr1]. unfold same_memberships in Hg1. unfold nobody_added in Hr1.
  simpl in Hg1, Hr1. rewrite E1.
  destruct (phase2_memberships fault team (teamId props)
              (authenticationProviderId props) dg processed (users props) st1 r1)
    as (st' & r' & new & E2 & Hg & Hr & Hnew).
  unfold phase2. rewrite E2. exists r', st', new.
  split; [reflexivity |]. split; [rewrite Hg, Hg1; reflexivity |].
  split; [rewrite Hr, Hr1; reflexivity |].
  eapply Forall_impl; [exact Hnew |]. intros gu (g & Edg & Hid & Hperm).
  exists g. destruct (find_defaultGroup_Some _ _ _ _ _ Edg) as [Hin Ht]. auto 10.
Qed.

(** *** The presented SMTP settings *)

(** X27: the presenter never shows the stored password: what it returns
    depends on the password only through its being set.  Two rows that differ
    in the password alone, both set, are presented alike, with the mask in
    its place. *)
Theorem password_is_never_presented (SMTP_HOST SMTP_SERVICE : option string)
    (settings : InstallationSettings) (password1 password2 : string) :
  password1 <> "" -> password2 <> "" ->
  presentInstallationSettings SMTP_HOST SMTP_SERVICE
    (Some (with_password settings (Some password1)))
  = presentInstallationSettings SMTP_HOST SMTP_SERVICE
      (Some (with_password settings (Some password2)))
  /\ presented_smtpPassword
       (presentInstallationSettings SMTP_HOST SMTP_SERVICE
          (Some (with_password settings (Some password1))))
     = Some "••••••••".
Proof.
  intros H1 H2. apply truthy_not_empty in H1, H2.
  unfold presentInstallationSettings. simpl. rewrite H1, H2. split; reflexivity.
Qed.

Lemma password_is_never_presented_witness :
  presented_smtpPassword
    (presentInstallationSettings None None
       (Some {| smtpHost := Some "mail.example.com"; smtpService := None;
                smtpPort := Some 587; smtpUsername := Some "outline";
                smtpPassword := Some "hunter2"; smtpFromEmail := None;
                smtpReplyEmail := None; smtpName := None; smtpSecure := None;
                smtpDisableStarttls := None; smtpTlsCiphers := None;
                instanceAdminEmail := None |}))
  = Some "••••••••".
Proof.
  refine (proj2 (password_is_never_presented None None
                   {| smtpHost := Some "mail.example.com"; smtpService := None;
                      smtpPort := Some 587; smtpUsername := Some "outline";
                      smtpPassword := None; smtpFromEmail := None;
                      smtpReplyEmail := None; smtpName := None; smtpSecure := None;
                      smtpDisableStarttls := None; smtpTlsCiphers := None;
                      instanceAdminEmail := None |} "hunter2" "other" _ _));
    discriminate.
Defined.

(** X28: the status flags are consistent.  The configuration of the database
    has precedence: the presenter never reports both sources as in use,
    reports the environment only when the row has neither host nor service,
    and reports SMTP as configured exactly when one of the two is in use. *)
Theorem status_flags_are_consistent (SMTP_HOST SMTP_SERVICE : option string)
    (settings : option InstallationSettings) :
  let p := presentInstallationSettings SMTP_HOST SMTP_SERVICE settings in
  (isUsingDatabaseConfig p && isUsingEnvConfig p = false)%bool
  /\ isConfigured p = (isUsingDatabaseConfig p || isUsingEnvConfig p)%bool
  /\ (isUsingDatabaseConfig p = true
      <-> exists s, settings = Some s
                    /\ (Js.truthy_opt (smtpHost s) = true
                        \/ Js.truthy_opt (smtpService s) = true))
  /\ (isUsingEnvConfig p = true
      <-> isUsingDatabaseConfig p = false
          /\ (Js.truthy_opt SMTP_HOST = true \/ Js.truthy_opt SMTP_SERVICE = true)).
Proof.
  intros p. subst p. unfold presentInstallationSettings, isSmtpConfigured, Js.or_else.
  simpl. split_and!.
  - destruct settings as [s |]; simpl; [| reflexivity].
    destruct (_ || _)%bool; reflexivity.
  - destruct settings as [s |]; simpl; [| reflexivity].
    destruct (Js.truthy_opt (smtpHost s) || Js.truthy_opt (smtpService s))%bool;
      reflexivity.
  - destruct settings as [s |]; simpl.
    + rewrite orb_true_iff. split; [intros H; exists s; auto |].
      intros (s' & [= <-] & H). exact H.
    + split; [discriminate | intros (s' & [=] & _)].
  - rewrite andb_true_iff, negb_true_iff.
    destruct (Js.truthy_opt SMTP_HOST) eqn:E; [rewrite E; tauto |].
    destruct (Js.truthy_opt SMTP_SERVICE); intuition discriminate.
Qed.

Lemma getAllUsers_loop_fails (client : KeycloakAdminClient) (batchSize : Z)
    (enabled : option bool) (i : nat) (msg : string) (fuel : nat) (first : Z)
    (acc : list KeycloakUser) :
  0 <= batchSize ->
  (forall j : nat, (j < i)%nat ->
     exists page,
       getUsers client (first + Z.of_nat j * batchSize) batchSize enabled = Ok page
       /\ batchSize <= Z.of_nat (length page)) ->
  first + Z.of_nat i * batchSize <= 100000 ->
  getUsers client (first + Z.of_nat i * batchSize) batchSize enabled = Throw msg ->
  (i < fuel)%nat ->
  getAllUsers_loop fuel client batchSize enabled first acc = Some (Throw msg).
Proof.
  intros Hb. revert fuel first acc.
  induction i as [| i IH]; intros fuel first acc Hfull Hlim Hthrow Hfuel;
    (destruct fuel as [| fuel]; [lia |]); simpl.
  - rewrite Z.mul_0_l, Z.add_0_r in Hthrow. rewrite Hthrow. reflexivity.
  - destruct (Hfull 0%nat) as (page & Ep & Hp); [lia |].
    rewrite Z.mul_0_l, Z.add_0_r in Ep. rewrite Ep.
    destruct (Z.ltb_spec (Z.of_nat (length page)) batchSize); [lia |].
    destruct (Z.gtb_spec (first + batchSize) 100000); [nia |].
    apply IH.
    + intros j Hj. destruct (Hfull (S j)) as (p & E & H'); [lia |].
      exists p. split; [| exact H'].
      replace (first + batchSize + Z.of_nat j * batchSize)
        with (first + Z.of_nat (S j) * batchSize) by lia.
      exact E.
    + lia.
    + replace (first + batchSize + Z.of_nat i * batchSize)
        with (first + Z.of_nat (S i) * batchSize) by lia.
      exact Hthrow.
    + lia.
Qed.

(** X29: when a request for a page fails after full pages, the scheduled task
    changes nothing and calls the engine for no binding: the pages fetched
    before the failure are dropped, and nobody is suspended for being absent
    from them. *)
Theorem failed_page_changes_nothing (fault : Fault) (now : Z) (env : Env)
    (client : KeycloakAdminClient) (partition : string -> bool) (fuel : nat)
    (st : Store) (i : nat) (msg : string) :
  (forall j : nat, (j < i)%nat ->
     exists page,
       getUsers client (Z.of_nat j * 100) 100 (Some true) = Ok page
       /\ 100 <= Z.of_nat (length page)) ->
  (i <= 1000)%nat ->
  getUsers client (Z.of_nat i * 100) 100 (Some true) = Throw msg ->
  (i < fuel)%nat ->
  perform fault now env client partition fuel st = Some (st, []).
Proof.
  intros Hfull Hi Hthrow Hfuel.
  assert (getAllUsers fuel client 100 (Some true) = Some (Throw msg)) as E.
  { unfold getAllUsers. apply (getAllUsers_loop_fails client 100 (Some true) i);
      [lia | | lia | exact Hthrow | exact Hfuel].
    intros j Hj. exact (Hfull j Hj). }
  unfold perform. rewrite E.
  destruct (negb (OIDC_SYNC_ENABLED env)); [reflexivity |].
  destruct (_ || _); [reflexivity |].
  destruct (_ =? _)%nat; [reflexivity |].
  destruct (negb (client_constructible env)); [reflexivity |].
  destruct (negb (testConnection client)); reflexivity.
Qed.

Lemma failed_page_changes_nothing_witness :
  let client :=
    {| getUsers := fun first max _ =>
         if first =? 0 then Ok (repeat (Scenario.kc_user 0) (Z.to_nat max))
         else Throw "Keycloak Admin API request failed: 502 Bad Gateway";
       getUserCount := fun _ => Ok 150 |} in
  perform no_fault 1000 Scenario.env client (fun _ => true) 5
    (Scenario.directory [Scenario.user "u" "ann@example.com" "Ann" None]
       [Scenario.auth "a" "kc-old" "u"])
  = Some (Scenario.directory [Scenario.user "u" "ann@example.com" "Ann" None]
            [Scenario.auth "a" "kc-old" "u"], []).
Proof.
  intros client.
  apply (failed_page_changes_nothing no_fault 1000 Scenario.env client (fun _ => true) 5
           _ 1 "Keycloak Admin API request failed: 502 Bad Gateway").
  - intros j Hj. assert (j = 0%nat) as -> by lia.
    eexists. split; [reflexivity |]. simpl. lia.
  - lia.
  - reflexivity.
  - lia.
Defined.
